(** * spending-habits-visualization: a shallow embedding of [visualization.py]

    The batch script turns card transactions into per-city spending tables,
    loads cached building footprints, and colours one 3D map per
    (quarter, category, city).  This file embeds the pure core of that script
    and states the properties the specification claims about it.

    Modelling conventions.
    - A Python exception is a value of [exn]; a computation that may raise
      returns [result A].
    - Floats come in two layers.  In [Float] a finite Python [float] is an
      exact rational kept in lowest terms and no operation rounds; this
      layer carries the statements about which exception is raised, which
      keys a table has and which branch is taken.  In [B64] a float is a
      binary64 number, an infinity or a NaN, and every operation rounds to
      the nearest binary64 number, ties to even, overflowing to an
      infinity; the statements about computed values are made there.
      Where the source parses a string with [float(...)], the special
      values [inf] and [nan] are kept apart in [pyfloat].
    - A Python [dict] is a [gmap]; a pandas frame is the list of its rows.
    - Calls to the outside world (the geocoder, the geometry provider, the
      pickled cache, the random generator) are explicit arguments. *)

From Stdlib Require Import ZArith QArith Qround Qpower Qabs Lia Lqa Ascii Sorted
  Permutation.
From Stdlib Require PrimFloat SpecFloat FloatOps.
From stdpp Require Import gmap strings list fin_maps pretty.

Local Open Scope Z_scope.

(** ** Exceptions and results *)

Inductive exn : Type :=
  | ZeroDivisionError
  | ValueError
  | KeyError
  | OverflowError.

Inductive result (A : Type) : Type :=
  | Ok (a : A)
  | Raise (e : exn).
Arguments Ok {A} a.
Arguments Raise {A} e.

#[global] Instance result_ret : MRet result := fun A a => Ok a.
#[global] Instance result_bind : MBind result := fun A B f m =>
  match m with
  | Ok a => f a
  | Raise e => Raise e
  end.

Definition is_ok {A} (r : result A) : bool :=
  match r with Ok _ => true | Raise _ => false end.

(** ** Finite floats as reduced rationals *)

Module Float.

Definition of_Z (z : Z) : Q := inject_Z z.

Definition add (a b : Q) : Q := Qred (a + b).
Definition sub (a b : Q) : Q := Qred (a - b).
Definition mul (a b : Q) : Q := Qred (a * b).

(** [a / b] on Python floats: a zero divisor raises. *)
Definition div (a b : Q) : result Q :=
  if Qeq_bool b 0 then Raise ZeroDivisionError else Ok (Qred (a / b)).

Definition ltb (a b : Q) : bool := negb (Qle_bool b a).
Definition gtb (a b : Q) : bool := ltb b a.

(** [int(x)]: truncation towards zero. *)
Definition to_int (a : Q) : Z := Z.quot (Qnum a) (Zpos (Qden a)).

(** The two-argument [min(a, b)] and [max(a, b)] builtins keep the first
    argument unless the second is strictly smaller (larger). *)
Definition min2 (a b : Q) : Q := if ltb b a then b else a.
Definition max2 (a b : Q) : Q := if gtb b a then b else a.

End Float.

(** ** Color Scale Mapper: [get_heatmap_color] *)

Definition get_heatmap_color (percentage min_percentage max_percentage : Q)
  : result (list Z) :=
  normalized ← Float.div (Float.sub percentage min_percentage)
                         (Float.sub max_percentage min_percentage);
  if Float.ltb normalized 0.25 then
    Ok [0; Float.to_int (Float.mul (Float.mul normalized 4) 255) + 200; 200]
  else if Float.ltb normalized 0.5 then
    Ok [0; 255; Float.to_int (Float.mul (Float.mul (Float.sub 0.5 normalized) 4) 255)]
  else if Float.ltb normalized 0.75 then
    Ok [Float.to_int (Float.mul (Float.mul (Float.sub normalized 0.5) 4) 255); 255; 0]
  else
    Ok [255; Float.to_int (Float.mul (Float.mul (Float.sub 1 normalized) 4) 255); 0].

(** The client-side twin [getHeatmapColor] embedded in the generated page:
    the same gradient, guarded against an empty window. *)
Definition getHeatmapColor (intensity minIntensity maxIntensity : Q) : list Z :=
  let normalized :=
    if Qeq_bool maxIntensity minIntensity then 0.5%Q
    else Qred (Float.sub intensity minIntensity
               / Float.sub maxIntensity minIntensity) in
  let floor q := Qfloor q in
  if Float.ltb normalized 0.25 then
    [0; floor (Float.mul (Float.mul normalized 4) 255) + 200; 200]
  else if Float.ltb normalized 0.5 then
    [0; 255; floor (Float.mul (Float.mul (Float.sub 0.5 normalized) 4) 255)]
  else if Float.ltb normalized 0.75 then
    [floor (Float.mul (Float.mul (Float.sub normalized 0.5) 4) 255); 255; 0]
  else
    [255; floor (Float.mul (Float.mul (Float.sub 1 normalized) 4) 255); 0].

(** ** Strings: the [str] methods the height estimator uses *)

Module Str.

Definition chars (s : string) : list ascii := String.list_ascii_of_string s.

Fixpoint is_prefix (p s : list ascii) : bool :=
  match p, s with
  | [], _ => true
  | _ :: _, [] => false
  | a :: p', b :: s' => if Ascii.eqb a b then is_prefix p' s' else false
  end.

(** [s.replace(old, new)] for a non-empty [old]: occurrences are replaced
    left to right without overlap.  [skip] counts the characters of the
    current occurrence still to be dropped. *)
Fixpoint replace_from (old new : list ascii) (skip : nat) (s : list ascii)
  : list ascii :=
  match s with
  | [] => []
  | c :: s' =>
      match skip with
      | S k => replace_from old new k s'
      | O =>
          if is_prefix old s
          then new ++ replace_from old new (length old - 1) s'
          else c :: replace_from old new 0%nat s'
      end
  end.

Definition replace (old new : string) (s : list ascii) : list ascii :=
  replace_from (chars old) (chars new) 0 s.

(** [str.isspace] on the ASCII range. *)
Definition is_space (c : ascii) : bool :=
  let n := nat_of_ascii c in
  ((9 <=? n) && (n <=? 13) || (28 <=? n) && (n <=? 32))%nat.

Fixpoint lstrip (s : list ascii) : list ascii :=
  match s with
  | c :: s' => if is_space c then lstrip s' else s
  | [] => []
  end.

Definition strip (s : list ascii) : list ascii :=
  rev (lstrip (rev (lstrip s))).

Definition lower (c : ascii) : ascii :=
  let n := nat_of_ascii c in
  if ((65 <=? n) && (n <=? 90))%nat then ascii_of_nat (n + 32) else c.

Definition eq_nocase (s : list ascii) (lit : string) : bool :=
  bool_decide (map lower s = chars lit).

End Str.

(** ** Floats read from text: [float(s)] *)

Inductive pyfloat : Type :=
  | Fin (q : Q)
  | PInf
  | NInf
  | NaN.

Module PyFloat.

Definition digit_val (c : ascii) : option Z :=
  let n := nat_of_ascii c in
  if ((48 <=? n) && (n <=? 57))%nat then Some (Z.of_nat (n - 48)) else None.

(** The rest of a [digitpart] after its first digit: [(["_"] digit)*].
    Returns the accumulated value, the number of digits read and the
    unread input. *)
Fixpoint digits_rest (acc : Z) (n : nat) (s : list ascii)
  : Z * nat * list ascii :=
  match s with
  | c :: s' =>
      match digit_val c with
      | Some d => digits_rest (10 * acc + d) (S n) s'
      | None =>
          if Ascii.eqb c "_" then
            match s' with
            | c' :: s'' =>
                match digit_val c' with
                | Some d => digits_rest (10 * acc + d) (S n) s''
                | None => (acc, n, s)
                end
            | [] => (acc, n, s)
            end
          else (acc, n, s)
      end
  | [] => (acc, n, s)
  end.

(** [digitpart ::= digit (["_"] digit)*] *)
Definition digitpart (s : list ascii) : option (Z * nat * list ascii) :=
  match s with
  | c :: s' =>
      match digit_val c with
      | Some d => Some (digits_rest d 1 s')
      | None => None
      end
  | [] => None
  end.

(** [number ::= [digitpart] "." digitpart | digitpart ["."]]; the result
    is the mantissa as an integer and the number of fraction digits. *)
Definition number (s : list ascii) : option (Z * nat * list ascii) :=
  match digitpart s with
  | Some (i, _, r) =>
      match r with
      | c :: r' =>
          if Ascii.eqb c "." then
            match digitpart r' with
            | Some (f, k, r'') => Some (i * 10 ^ Z.of_nat k + f, k, r'')
            | None => Some (i, 0%nat, r')
            end
          else Some (i, 0%nat, r)
      | [] => Some (i, 0%nat, r)
      end
  | None =>
      match s with
      | c :: r' =>
          if Ascii.eqb c "." then
            match digitpart r' with
            | Some (f, k, r'') => Some (f, k, r'')
            | None => None
            end
          else None
      | [] => None
      end
  end.

Definition sign (s : list ascii) : bool * list ascii :=
  match s with
  | c :: s' =>
      if Ascii.eqb c "-" then (true, s')
      else if Ascii.eqb c "+" then (false, s')
      else (false, s)
  | [] => (false, s)
  end.

(** [exponent ::= ("e" | "E") [sign] digitpart]; absent exponent is 0. *)
Definition exponent (s : list ascii) : option Z :=
  match s with
  | [] => Some 0
  | c :: s' =>
      if Ascii.eqb (Str.lower c) "e" then
        let '(neg, r) := sign s' in
        match digitpart r with
        | Some (e, _, []) => Some (if neg then - e else e)
        | _ => None
        end
      else None
  end.

(** [m * 10^k] in lowest terms. *)
Definition scale10 (m k : Z) : Q :=
  if 0 <=? k then Qred (inject_Z (m * 10 ^ k))
  else Qred (m # Z.to_pos (10 ^ (- k))).

Definition absfloatvalue (s : list ascii) : option pyfloat :=
  if Str.eq_nocase s "inf" || Str.eq_nocase s "infinity" then Some PInf
  else if Str.eq_nocase s "nan" then Some NaN
  else
    match number s with
    | Some (m, k, r) =>
        match exponent r with
        | Some e => Some (Fin (scale10 m (e - Z.of_nat k)))
        | None => None
        end
    | None => None
    end.

Definition neg (x : pyfloat) : pyfloat :=
  match x with
  | Fin q => Fin (Qred (- q))
  | PInf => NInf
  | NInf => PInf
  | NaN => NaN
  end.

(** [float(s)] for a string: surrounding whitespace is ignored; anything
    outside the grammar raises [ValueError]. *)
Definition of_chars (s : list ascii) : result pyfloat :=
  let '(ng, r) := sign (Str.strip s) in
  match absfloatvalue r with
  | Some v => Ok (if ng then neg v else v)
  | None => Raise ValueError
  end.

Definition of_string (s : string) : result pyfloat := of_chars (Str.chars s).

(** [x > 0] *)
Definition gt0 (x : pyfloat) : bool :=
  match x with
  | Fin q => Float.ltb 0 q
  | PInf => true
  | NInf | NaN => false
  end.

Definition sgn (q : Q) : Z := Z.sgn (Qnum q).

(** [x * y] with the IEEE rules for the special values. *)
Definition mul (x y : pyfloat) : pyfloat :=
  match x, y with
  | NaN, _ | _, NaN => NaN
  | Fin a, Fin b => Fin (Float.mul a b)
  | Fin a, PInf | PInf, Fin a =>
      match sgn a with 0 => NaN | Zpos _ => PInf | Zneg _ => NInf end
  | Fin a, NInf | NInf, Fin a =>
      match sgn a with 0 => NaN | Zpos _ => NInf | Zneg _ => PInf end
  | PInf, PInf | NInf, NInf => PInf
  | PInf, NInf | NInf, PInf => NInf
  end.

(** Strictly positive, as a proposition. *)
Definition positive (x : pyfloat) : Prop := gt0 x = true.

End PyFloat.

(** ** Height Estimator: [estimate_building_height] *)

(** A cell of the row handed to the estimator: a missing value (pandas
    [NaN]) or the text of an OSM tag. *)
Inductive cell : Type :=
  | NA
  | Text (s : string).

#[global] Instance cell_eq_dec : EqDecision cell.
Proof. solve_decision. Defined.

(** [np.random.uniform(low, high)], with the generator's sample [u] from
    [0, 1) made explicit. *)
Definition uniform (u low high : Q) : Q :=
  Float.add low (Float.mul (Float.sub high low) u).

(** [x in [s1; ...]] for a cell: a missing value equals no string. *)
Definition cell_in (x : cell) (l : list string) : bool :=
  bool_decide (x ∈ map Text l).

(** The text of the height tag as the estimator reads it:
    [float(height_str.replace("m", "").replace("ft", "").strip())]. *)
Definition parse_height (height_str : string) : result pyfloat :=
  PyFloat.of_chars
    (Str.strip (Str.replace "ft" "" (Str.replace "m" "" (Str.chars height_str)))).

(** Lines 53-78: the estimate from the building type. *)
Definition estimate_from_type (u : Q) (building : gmap string cell) : pyfloat :=
  let building_type := default (Text "yes") (building !! "building") in
  if cell_in building_type ["commercial"; "office"; "retail"; "hotel"; "apartments"]
  then Fin (uniform u 20 40)
  else if cell_in building_type ["industrial"; "warehouse"; "school"; "hospital"; "public"]
  then Fin (uniform u 10 20)
  else if cell_in building_type ["house"; "residential"; "detached"; "terrace"; "bungalow"]
  then Fin (uniform u 5 12)
  else if cell_in building_type ["garage"; "shed"; "cabin"; "hut"; "roof"]
  then Fin (uniform u 3 6)
  else if cell_in building_type ["church"; "cathedral"; "mosque"; "temple"; "shrine"]
  then Fin (uniform u 15 30)
  else Fin (uniform u 8 18).

(** Lines 45-51 and below: the levels rule, then the type rule. *)
Definition estimate_from_levels (u : Q) (building : gmap string cell) : pyfloat :=
  match building !! "building:levels" with
  | Some (Text levels_str) =>
      match PyFloat.of_string levels_str with
      | Ok levels => PyFloat.mul levels (Fin 3.5)
      | Raise _ => estimate_from_type u building
      end
  | _ => estimate_from_type u building
  end.

Definition estimate_building_height (u : Q) (building : gmap string cell)
  : pyfloat :=
  match building !! "height" with
  | Some (Text height_str) =>
      match parse_height height_str with
      | Ok height => if PyFloat.gt0 height then height else Fin 15
      | Raise _ => estimate_from_levels u building
      end
  | _ => estimate_from_levels u building
  end.

(** ** Lists: slices and the stable sort of [list.sort] *)

(** [len(l)] *)
Definition len {A} (l : list A) : Z := Z.of_nat (length l).

(** [l[:stop]]: a negative [stop] counts from the end, and the bound is
    clamped to the list. *)
Definition slice_upto {A} (l : list A) (stop : Z) : list A :=
  let stop' := if stop <? 0 then Z.max 0 (stop + len l) else Z.min stop (len l) in
  take (Z.to_nat stop') l.

(** [l.sort(key=key, reverse=True)]: descending by key, and stable (equal
    keys keep their input order), which fixes the result uniquely.
    Insertion from the right realises it. *)
Fixpoint insert_desc {A} (key : A -> nat) (x : A) (l : list A) : list A :=
  match l with
  | [] => [x]
  | y :: l' =>
      if (key y <=? key x)%nat then x :: l else y :: insert_desc key x l'
  end.

Fixpoint sort_desc {A} (key : A -> nat) (l : list A) : list A :=
  match l with
  | [] => []
  | x :: l' => insert_desc key x (sort_desc key l')
  end.

(** Line 108, the transposition [zip] of the starred pair list unpacked
    into two names: it yields two tuples only for a non-empty pair list,
    and none (a [ValueError] at the unpacking) for the empty one. *)
Definition unzip_star {A B} (pairs : list (A * B)) : result (list A * list B) :=
  match pairs with
  | [] => Raise ValueError
  | _ => Ok (pairs.*1, pairs.*2)
  end.

(** ** Building Cache: [get_buildings_data] *)

Record BuildingRecord : Type := {
  coordinates : list (list (Q * Q));
  height : pyfloat
}.

(** Lines 83-101: one provider query per city; a failing city is skipped.
    [fetch city] stands for [convert_building_data(ox.features_from_place(city))]. *)
Fixpoint fetch_all (fetch : string -> result (list BuildingRecord))
  (city_names : list string) : list (list BuildingRecord) :=
  match city_names with
  | [] => []
  | city :: rest =>
      match fetch city with
      | Ok converted_data => converted_data :: fetch_all fetch rest
      | Raise _ => fetch_all fetch rest
      end
  end.

(** [cache] is the content of [buildings_data1.pkl] read on the load path. *)
Definition get_buildings_data
  (fetch : string -> result (list BuildingRecord))
  (cache : list (list BuildingRecord))
  (city_names : list string) (load : bool)
  : result (list (list BuildingRecord)) :=
  if negb load then
    Ok (fetch_all fetch city_names)
  else
    let city_building_pairs := zip city_names cache in
    let city_building_pairs :=
      sort_desc (fun x => length x.2) city_building_pairs in
    '(city_names, buildings_data) ← unzip_star city_building_pairs;
    Ok buildings_data.

(** ** City Geocoder: [get_city_coords] *)

Record CityEntry : Type := {
  name : string;
  lat : Q;
  lon : Q;
  buildings : list BuildingRecord;
  index : Z
}.

(** Lines 226-239: the provider's centroid, two fixed overrides, and the
    fallback when the lookup raises. *)
Definition city_centre (geocode : string -> result (Q * Q)) (city_name : string)
  : Q * Q :=
  match geocode city_name with
  | Ok (lat, lon) =>
      if String.eqb city_name "Ahmedabad, India" then (23.021537, 72.580057)%Q
      else if String.eqb city_name "Delhi, India" then (28.6448, 77.2164)%Q
      else (lat, lon)
  | Raise _ => (0, 0)%Q
  end.

(** The module-level [buildings_data] read by the source is an argument. *)
Definition get_city_coords
  (geocode : string -> result (Q * Q))
  (buildings_data : list (list BuildingRecord))
  (city_names : list string) : list CityEntry :=
  let num_cities_to_show := len city_names in
  imap (fun i '(city_name, city_buildings) =>
          let '(lat, lon) := city_centre geocode city_name in
          let city_buildings_subset :=
            slice_upto city_buildings (Z.min (len city_buildings - 1) 20000) in
          {| name := city_name; lat := lat; lon := lon;
             buildings := city_buildings_subset; index := Z.of_nat i |})
       (zip city_names (slice_upto buildings_data num_cities_to_show)).

(** The main block, lines 323-338, on the load path: the cached lists are
    loaded and sorted, then joined to the configured city names. *)
Definition load_city_coords
  (fetch : string -> result (list BuildingRecord))
  (geocode : string -> result (Q * Q))
  (cache : list (list BuildingRecord))
  (city_names : list string) : result (list CityEntry) :=
  buildings_data ← get_buildings_data fetch cache city_names true;
  Ok (get_city_coords geocode buildings_data city_names).

(** ** Spending Aggregator: [calculate_spending_by_category_and_quarter] *)

(** One row of the transaction frame, with the columns the aggregator reads. *)
Record Transaction : Type := {
  City : string;
  ExpType : string;
  YearQuarter : string;
  Amount : Q
}.

(** A table [{category: {city: value}}] for one quarter, and the full
    [{quarter: {category: {city: value}}}]. *)
Abbreviation slice_table := (gmap string (gmap string Q)).
Abbreviation table := (gmap string (gmap string (gmap string Q))).

(** [d[k]]: a missing key raises. *)
Definition getitem {V} (d : gmap string V) (k : string) : result V :=
  match d !! k with
  | Some v => Ok v
  | None => Raise KeyError
  end.

(** A [for] loop whose body may raise, threading the loop state. *)
Fixpoint for_each {A S} (l : list A) (body : S -> A -> result S) (s : S)
  : result S :=
  match l with
  | [] => Ok s
  | x :: l' => s' ← body s x; for_each l' body s'
  end.

(** [series.unique()]: distinct values in order of first appearance. *)
Fixpoint unique_from (seen l : list string) : list string :=
  match l with
  | [] => []
  | x :: l' =>
      if bool_decide (x ∈ seen) then unique_from seen l'
      else x :: unique_from (x :: seen) l'
  end.

Definition unique (l : list string) : list string := unique_from [] l.

(** [float(rows["Amount"].sum())] *)
Definition amount_sum (rows : list Transaction) : Q :=
  foldl (fun acc r => Float.add acc (Amount r)) 0%Q rows.

(** Lines 131-134. *)
Definition quarter_rows (df : list Transaction) (quarter : string)
  : list Transaction :=
  if String.eqb quarter "All Time" then df
  else filter (fun r => YearQuarter r = quarter) df.

(** Lines 136-141. *)
Definition total_spending (quarter_df : list Transaction)
  (city_names : list string) : gmap string Q :=
  foldl (fun total city_name =>
           <[ city_name :=
                amount_sum (filter (fun r => City r = city_name) quarter_df) ]> total)
        ∅ city_names.

(** Lines 144-148: the two "All Categories" rows of a quarter. *)
Definition all_categories (total : gmap string Q) (city_names : list string)
  : result (gmap string Q * gmap string Q) :=
  for_each city_names
    (fun '(sp, pc) city_name =>
       t ← getitem total city_name;
       Ok (<[ city_name := t ]> sp, <[ city_name := 100%Q ]> pc))
    (∅, ∅).

(** Lines 152-160: the rows of one category of a quarter. *)
Definition category_rows (quarter_df : list Transaction) (total : gmap string Q)
  (city_names : list string) (category : string)
  : result (gmap string Q * gmap string Q) :=
  for_each city_names
    (fun '(sp, pc) city_name =>
       let city_data :=
         filter (fun r => City r = city_name /\ ExpType r = category) quarter_df in
       let spending := amount_sum city_data in
       t ← getitem total city_name;
       share ← Float.div spending t;
       Ok (<[ city_name := spending ]> sp,
           <[ city_name := Float.mul share 100 ]> pc))
    (∅, ∅).

(** The body of the loop over quarters, lines 127-160.  The inner
    dictionaries the source creates empty and then fills in place are built
    first and stored once; nothing observes them in between. *)
Definition quarter_tables (df : list Transaction) (city_names : list string)
  (quarter : string) : result (slice_table * slice_table) :=
  let quarter_df := quarter_rows df quarter in
  let total := total_spending quarter_df city_names in
  '(sp_all, pc_all) ← all_categories total city_names;
  for_each (unique (ExpType <$> df))
    (fun '(sp_q, pc_q) category =>
       '(sp, pc) ← category_rows quarter_df total city_names category;
       Ok (<[ category := sp ]> sp_q, <[ category := pc ]> pc_q))
    ({[ "All Categories" := sp_all ]}, {[ "All Categories" := pc_all ]}).

Definition calculate_spending_by_category_and_quarter
  (df : list Transaction) (city_names quarters : list string)
  : result (table * table) :=
  for_each quarters
    (fun '(spending_data, percentage_data) quarter =>
       '(sp_q, pc_q) ← quarter_tables df city_names quarter;
       Ok (<[ quarter := sp_q ]> spending_data,
           <[ quarter := pc_q ]> percentage_data))
    (∅, ∅).

(** [percentage_data[quarter][category][city]] as an optional value. *)
Definition entry (t : table) (quarter category city : string) : option Q :=
  q ← t !! quarter; c ← q !! category; c !! city.

(** ** Scale range and colours of one slice: [generate_citymaps] *)

(** [sum(values)] *)
Definition py_sum (values : list Q) : Q := foldl Float.add 0%Q values.

(** [min(values)] and [max(values)]: the first extremal element; an empty
    list raises. *)
Definition py_min (values : list Q) : result Q :=
  match values with
  | [] => Raise ValueError
  | x :: rest => Ok (foldl Float.min2 x rest)
  end.

Definition py_max (values : list Q) : result Q :=
  match values with
  | [] => Raise ValueError
  | x :: rest => Ok (foldl Float.max2 x rest)
  end.

(** Lines 271-278. *)
Definition scale_range (percentage_values : list Q) : result (Q * Q) :=
  avg_percentage ← Float.div (py_sum percentage_values)
                             (Float.of_Z (len percentage_values));
  let min_percentage := Float.sub avg_percentage 1 in
  let max_percentage := Float.add avg_percentage 1 in
  data_min ← py_min percentage_values;
  let min_percentage := Float.min2 data_min min_percentage in
  data_max ← py_max percentage_values;
  let max_percentage := Float.max2 data_max max_percentage in
  Ok (min_percentage, max_percentage).

(** Lines 267-289 for one (quarter, category): the stored range and the
    colour handed to the renderer for each city index. *)
Definition generate_citymaps_slice (category_percentages : gmap string Q)
  (city_coords : list CityEntry) : result ((Q * Q) * list (Z * list Z)) :=
  percentage_values ←
    mapM (fun city => getitem category_percentages (name city)) city_coords;
  '(min_percentage, max_percentage) ← scale_range percentage_values;
  colors ←
    mapM (fun city_info =>
            percentage ← getitem category_percentages (name city_info);
            color ← get_heatmap_color percentage min_percentage max_percentage;
            Ok (index city_info, color))
         city_coords;
  Ok ((min_percentage, max_percentage), colors).

(** ** Properties stated by the specification *)

(** [ls] is in non-increasing order of length. *)
Definition longest_first {A} (ls : list (list A)) : Prop :=
  StronglySorted (fun a b => (length b <= length a)%nat) ls.

(** [x <= 0] on a parsed float. *)
Definition le0 (x : pyfloat) : bool :=
  match x with
  | Fin q => Qle_bool q 0
  | NInf => true
  | PInf | NaN => false
  end.

(** The explicit height tag of [building] is [height_str], and it either
    does not parse or parses to a value that is not above zero. *)
Definition bad_height (building : gmap string cell) (height_str : string) : Prop :=
  building !! "height" = Some (Text height_str)
  /\ (is_ok (parse_height height_str) = false
      \/ exists v, parse_height height_str = Ok v /\ le0 v = true).

(** What line 241 keeps of a city's list. *)
Definition city_buildings_subset {A} (city_buildings : list A) : list A :=
  slice_upto city_buildings (Z.min (len city_buildings - 1) 20000).

(** A computation that returns, or raises ZeroDivisionError and nothing
    else. *)
Definition ok_or_zde {A} (r : result A) : Prop :=
  match r with
  | Ok _ => True
  | Raise e => e = ZeroDivisionError
  end.

(** The total spend of [city] in [quarter], as line 141 computes it. *)
Definition city_total (df : list Transaction) (quarter city : string) : Q :=
  amount_sum (filter (fun r => City r = city) (quarter_rows df quarter)).

(** The height tag is present, not missing, and its text parses. *)
Definition height_usable (building : gmap string cell) : bool :=
  match building !! "height" with
  | Some (Text height_str) => is_ok (parse_height height_str)
  | _ => false
  end.

(** The levels tag is present, not missing, and its text parses. *)
Definition levels_usable (building : gmap string cell) : bool :=
  match building !! "building:levels" with
  | Some (Text levels_str) => is_ok (PyFloat.of_string levels_str)
  | _ => false
  end.

(** A sample of the generator: [0 <= u < 1]. *)
Definition unit_sample (u : Q) : Prop := (0 <= u)%Q /\ (u < 1)%Q.

(** [low <= x < high] for a height. *)
Definition within (x : pyfloat) (low high : Q) : Prop :=
  exists h, x = Fin h /\ (low <= h)%Q /\ (h < high)%Q.

(** The five named type buckets of lines 57-73. *)
Definition high_buildings : list string :=
  ["commercial"; "office"; "retail"; "hotel"; "apartments"].
Definition medium_buildings : list string :=
  ["industrial"; "warehouse"; "school"; "hospital"; "public"].
Definition low_buildings : list string :=
  ["house"; "residential"; "detached"; "terrace"; "bungalow"].
Definition very_low_buildings : list string :=
  ["garage"; "shed"; "cabin"; "hut"; "roof"].
Definition civic_buildings : list string :=
  ["church"; "cathedral"; "mosque"; "temple"; "shrine"].

(** The value of the [building] tag as line 54 reads it. *)
Definition building_type (building : gmap string cell) : cell :=
  default (Text "yes") (building !! "building").

(** [str(i)] for an integer: its decimal numeral. *)
Definition py_str (i : Z) : string := pretty i.

(** A decimal digit, and the value of a digit string read left to right. *)
Definition is_digit (c : ascii) : Prop := is_Some (PyFloat.digit_val c).

Definition digits_value (acc : Z) (ds : list ascii) : Z :=
  foldl (fun a c => 10 * a + default 0 (PyFloat.digit_val c)) acc ds.

(** The exact sum of a list of numbers. *)
Definition qsum (l : list Q) : Q := foldr Qplus 0%Q l.

(** A table entry read as a number, 0 when absent. *)
Definition entry_value (t : table) (quarter category city : string) : Q :=
  default 0%Q (entry t quarter category city).

(** ** Geometry Converter: [convert_building_data] *)

(** A polygon with its outer ring and its holes, and the geometries a
    footprint can have; any type other than the two the converter handles
    keeps only its type name. *)
Record PolygonShape : Type := {
  exterior : list (Q * Q);
  interiors : list (list (Q * Q))
}.

Inductive Geometry : Type :=
  | Polygon (shape : PolygonShape)
  | MultiPolygon (geoms : list PolygonShape)
  | OtherGeometry (geom_type : string).

(** A row of the provider's frame: the footprint and its tag columns. *)
Record Footprint : Type := {
  geometry : Geometry;
  tags : gmap string cell
}.

(** The estimator reaches one of the [np.random.uniform] calls exactly when
    neither the height nor the levels rule returns. *)
Definition uses_draw (building : gmap string cell) : bool :=
  negb (height_usable building) && negb (levels_usable building).

(** The estimator with the generator threaded through: [draws k] is the
    generator's k-th sample and the state counts the samples taken. *)
Definition estimate_building_height_rng (draws : nat -> Q) (n : nat)
  (building : gmap string cell) : pyfloat * nat :=
  (estimate_building_height (draws n) building,
   if uses_draw building then S n else n).

(** The records of one row, lines 20-26; [geom] is the simplified shape. *)
Definition footprint_records (geom : Geometry) (height : pyfloat)
  : list BuildingRecord :=
  match geom with
  | Polygon shape =>
      [ {| coordinates := [exterior shape]; height := height |} ]
  | MultiPolygon geoms =>
      (fun poly => {| coordinates := [exterior poly]; height := height |})
      <$> geoms
  | OtherGeometry _ => []
  end.

(** [simplify tol geom] stands for shapely's [geom.simplify(tol)]. *)
Fixpoint convert_building_data (simplify : Q -> Geometry -> Geometry)
  (simplify_tol : Q) (draws : nat -> Q) (buildings : list Footprint) (n : nat)
  : list BuildingRecord * nat :=
  match buildings with
  | [] => ([], n)
  | row :: rest =>
      let geom := simplify simplify_tol (geometry row) in
      let '(height, n) := estimate_building_height_rng draws n (tags row) in
      let '(buildings_data, n) :=
        convert_building_data simplify simplify_tol draws rest n in
      (footprint_records geom height ++ buildings_data, n)
  end.

(** The number of records a simplified shape yields. *)
Definition parts (geom : Geometry) : nat :=
  match geom with
  | Polygon _ => 1
  | MultiPolygon geoms => length geoms
  | OtherGeometry _ => 0
  end.

(** ** Report Generator: [generate_citymaps] *)

Definition string_of (l : list ascii) : string := String.string_of_list_ascii l.

(** Lines 301-303: the path of one artifact. *)
Definition safe_quarter (quarter : string) : string :=
  string_of (Str.replace " " "_" (Str.chars quarter)).

Definition safe_category (category : string) : string :=
  string_of (Str.replace "/" "-" (Str.replace " " "_" (Str.chars category))).

Definition map_filename (quarter category : string) (city_idx : Z) : string :=
  "citymaps/map_q_" +:+ safe_quarter quarter +:+ "_city_" +:+ py_str city_idx
  +:+ "_cat_" +:+ safe_category category +:+ ".html".

(** The renderer [create_citymap(building_data, lat, lon, zoom, color)]
    returning the page's text. *)
Abbreviation renderer :=
  (list BuildingRecord -> Q -> Q -> Z -> list Z -> string).

(** [{category: {city_idx: filename}}], [{category: (min, max)}] and the
    files written so far, path to content. *)
Abbreviation slice_files := (gmap string (gmap Z string)).
Abbreviation slice_ranges := (gmap string (Q * Q)).
Abbreviation files := (gmap string string).

(** Lines 283-307: one city of one slice. *)
Definition citymap_for_city (create_citymap : renderer)
  (quarter category : string) (category_percentages : gmap string Q)
  (min_percentage max_percentage : Q)
  (state : gmap Z string * files) (city_info : CityEntry)
  : result (gmap Z string * files) :=
  let '(category_files, fs) := state in
  let city_idx := index city_info in
  let city_name := name city_info in
  percentage ← getitem category_percentages city_name;
  color ← get_heatmap_color percentage min_percentage max_percentage;
  let html_code :=
    create_citymap (buildings city_info) (lat city_info) (lon city_info) 12 color in
  let map_filename := map_filename quarter category city_idx in
  Ok (<[ city_idx := map_filename ]> category_files,
      <[ map_filename := html_code ]> fs).

(** Lines 264-307: one category of one quarter. *)
Definition citymaps_for_category (create_citymap : renderer)
  (percentage_data : table) (city_coords : list CityEntry)
  (quarter : string)
  (state : slice_files * slice_ranges * files) (category : string)
  : result (slice_files * slice_ranges * files) :=
  let '(quarter_files, quarter_ranges, fs) := state in
  quarter_percentages ← getitem percentage_data quarter;
  category_percentages ← getitem quarter_percentages category;
  percentage_values ←
    mapM (fun city => getitem category_percentages (name city)) city_coords;
  '(min_percentage, max_percentage) ← scale_range percentage_values;
  '(category_files, fs) ←
    for_each city_coords
      (citymap_for_city create_citymap quarter category category_percentages
         min_percentage max_percentage)
      (∅, fs);
  Ok (<[ category := category_files ]> quarter_files,
      <[ category := (min_percentage, max_percentage) ]> quarter_ranges,
      fs).

(** Lines 260-307: one quarter. *)
Definition citymaps_for_quarter (create_citymap : renderer)
  (categories : list string) (percentage_data : table)
  (city_coords : list CityEntry)
  (state : gmap string slice_files * gmap string slice_ranges * files)
  (quarter : string)
  : result (gmap string slice_files * gmap string slice_ranges * files) :=
  let '(map_files, scale_ranges, fs) := state in
  '(quarter_files, quarter_ranges, fs) ←
    for_each categories
      (citymaps_for_category create_citymap percentage_data city_coords
         quarter)
      (∅, ∅, fs);
  Ok (<[ quarter := quarter_files ]> map_files,
      <[ quarter := quarter_ranges ]> scale_ranges,
      fs).

(** The whole of [generate_citymaps], started on the files [fs]; it
    returns [scale_ranges], [map_files] and the files after the run.  As in
    the aggregator the inner dictionaries are built and then stored. *)
Definition generate_citymaps (create_citymap : renderer)
  (quarters categories : list string) (percentage_data : table)
  (city_coords : list CityEntry) (fs : files)
  : result (gmap string slice_ranges * gmap string slice_files * files) :=
  '(map_files, scale_ranges, fs) ←
    for_each quarters
      (citymaps_for_quarter create_citymap categories percentage_data
         city_coords)
      (∅, ∅, fs);
  Ok (scale_ranges, map_files, fs).

(** Every file of [fs] is still a file of [fs'] (possibly rewritten). *)
Definition kept (fs fs' : files) : Prop :=
  forall path, is_Some (fs !! path) -> is_Some (fs' !! path).

(** What a finished run holds for the slice [(quarter, category)]: the
    stored range is the scale range of the cities' percentages; the slice's
    index has one path per city index and no other key; and each of these
    paths is a file of [fs]. *)
Definition slice_artifacts (percentage_data : table)
  (city_coords : list CityEntry) (quarter category : string)
  (category_files : gmap Z string) (range : Q * Q) (fs : files) : Prop :=
  (exists category_percentages percentage_values,
     percentage_data !! quarter ≫= (.!! category) = Some category_percentages
     /\ mapM (fun city => getitem category_percentages (name city)) city_coords
        = Ok percentage_values
     /\ scale_range percentage_values = Ok range)
  /\ (forall city, city ∈ city_coords ->
      category_files !! index city
      = Some (map_filename quarter category (index city))
      /\ is_Some (fs !! map_filename quarter category (index city)))
  /\ (forall city_idx, is_Some (category_files !! city_idx) ->
      city_idx ∈ (index <$> city_coords)).

(** Lines 318-320 of the main block: the quarter label of a row,
    [str(year) + "-Q" + str(quarter)]. *)
Definition year_quarter (year quarter : Z) : string :=
  py_str year +:+ "-Q" +:+ py_str quarter.

(** The page script, lines 522-603.  The four tables and the two lists
    [cityNames] and [cityIndices] are written into the page from the
    values of the main block; an integer key of [map_files] becomes a
    property name that the script reads back with the same integer.  A
    lookup that yields [undefined] is [None]. *)
Definition cityNames (city_coords : list CityEntry) : list string :=
  name <$> city_coords.

Definition cityIndices (city_coords : list CityEntry) : list Z :=
  index <$> city_coords.

(** [array[i]] *)
Definition js_index {A} (l : list A) (i : Z) : option A :=
  if (i <? 0)%Z then None else l !! Z.to_nat i.

(** What [updateHeatmap] shows for one city: amount, percentage, colour
    and the source of the frame. *)
Record CityView : Type := {
  spending : Q;
  percentage : Q;
  color : list Z;
  newSrc : string
}.

(** Lines 582-601, the body of the loop over [cityIndices]. *)
Definition updateCity (cityNames : list string)
  (categoryData categoryPercentages : gmap string Q)
  (categoryMaps : gmap Z string) (minPercentage maxPercentage : Q)
  (cityIdx : Z) : option CityView :=
  cityName ← js_index cityNames cityIdx;
  spending ← categoryData !! cityName;
  percentage ← categoryPercentages !! cityName;
  let color := getHeatmapColor percentage minPercentage maxPercentage in
  newSrc ← categoryMaps !! cityIdx;
  Some {| spending := spending; percentage := percentage; color := color;
          newSrc := newSrc |}.

(** Lines 567-603: the legend's range and the view of every city, for the
    selected quarter and category. *)
Definition updateHeatmap (spendingData percentageData : table)
  (scaleRanges : gmap string slice_ranges)
  (mapFiles : gmap string slice_files)
  (cityNames : list string) (cityIndices : list Z)
  (quarter category : string) : option ((Q * Q) * list CityView) :=
  categoryData ← spendingData !! quarter ≫= (.!! category);
  categoryPercentages ← percentageData !! quarter ≫= (.!! category);
  categoryMaps ← mapFiles !! quarter ≫= (.!! category);
  '(minPercentage, maxPercentage) ← scaleRanges !! quarter ≫= (.!! category);
  views ← mapM (updateCity cityNames categoryData categoryPercentages
                  categoryMaps minPercentage maxPercentage) cityIndices;
  Some ((minPercentage, maxPercentage), views).

(** ** Binary64 arithmetic

    The arithmetic of the interpreter: a float is a binary64 number, an
    infinity or a NaN, and every operation returns the exact result rounded
    to the nearest binary64 number, ties to even.  A finite float is kept as
    the rational it denotes; the sign of a zero is not kept. *)

Module B64.

Definition pow2 (e : Z) : Q := (2 ^ e)%Q.

(** The nearest integer, ties to even. *)
Definition rne (x : Q) : Z :=
  let f := Qfloor x in
  match Qcompare (x - inject_Z f) (1 # 2) with
  | Lt => f
  | Gt => f + 1
  | Eq => if Z.even f then f else f + 1
  end.

(** For [0 < a]: the [l] with [2^(l-1) <= a < 2^l]. *)
Definition mag (a : Q) : Z :=
  let l := Z.log2 (Qnum a) - Z.log2 (Zpos (Qden a)) in
  if Qle_bool (pow2 l) a then l + 1 else l.

(** The exponent of the last place: 53 significant bits, and no exponent
    below that of the smallest subnormal number, [2^-1074]. *)
Definition cexp (a : Q) : Z := Z.max (mag a - 53) (-1074).

Definition round_pos (a : Q) : Q :=
  inject_Z (rne (a * pow2 (- cexp a))) * pow2 (cexp a).

(** Rounding to binary64; a result of magnitude [2^1024] or more
    overflows. *)
Definition round (q : Q) : pyfloat :=
  match Qcompare q 0 with
  | Eq => Fin 0
  | Gt => let v := round_pos q in
          if Qle_bool (pow2 1024) v then PInf else Fin (Qred v)
  | Lt => let v := round_pos (- q) in
          if Qle_bool (pow2 1024) v then NInf else Fin (Qred (- v))
  end.

(** A rational that is a binary64 number. *)
Definition is_float (q : Q) : Prop := round q = Fin q.

(** A float that is neither an infinity nor a NaN. *)
Definition finite (x : pyfloat) : Prop := exists q, x = Fin q /\ is_float q.

(** [float(i)] and the conversion of an integer operand. *)
Definition of_Z (z : Z) : pyfloat := round (inject_Z z).

(** The value of a decimal literal or of a parsed string. *)
Definition of_exact (x : pyfloat) : pyfloat :=
  match x with
  | Fin q => round q
  | _ => x
  end.

Definition is_zero (x : pyfloat) : bool :=
  match x with
  | Fin q => Qeq_bool q 0
  | _ => false
  end.

Definition add (x y : pyfloat) : pyfloat :=
  match x, y with
  | NaN, _ | _, NaN => NaN
  | PInf, NInf | NInf, PInf => NaN
  | PInf, _ | _, PInf => PInf
  | NInf, _ | _, NInf => NInf
  | Fin a, Fin b => round (a + b)
  end.

Definition sub (x y : pyfloat) : pyfloat :=
  match x, y with
  | NaN, _ | _, NaN => NaN
  | PInf, PInf | NInf, NInf => NaN
  | PInf, _ | _, NInf => PInf
  | NInf, _ | _, PInf => NInf
  | Fin a, Fin b => round (a - b)
  end.

Definition mul (x y : pyfloat) : pyfloat :=
  match x, y with
  | NaN, _ | _, NaN => NaN
  | Fin a, Fin b => round (a * b)
  | Fin a, PInf | PInf, Fin a =>
      match PyFloat.sgn a with 0 => NaN | Zpos _ => PInf | Zneg _ => NInf end
  | Fin a, NInf | NInf, Fin a =>
      match PyFloat.sgn a with 0 => NaN | Zpos _ => NInf | Zneg _ => PInf end
  | PInf, PInf | NInf, NInf => PInf
  | PInf, NInf | NInf, PInf => NInf
  end.

(** The quotient of two floats; a zero divisor counts as positive. *)
Definition quotient (x y : pyfloat) : pyfloat :=
  match x, y with
  | NaN, _ | _, NaN => NaN
  | (PInf | NInf), (PInf | NInf) => NaN
  | PInf, Fin b => if Qle_bool 0 b then PInf else NInf
  | NInf, Fin b => if Qle_bool 0 b then NInf else PInf
  | Fin _, (PInf | NInf) => Fin 0
  | Fin a, Fin b =>
      if Qeq_bool b 0 then
        match PyFloat.sgn a with 0 => NaN | Zpos _ => PInf | Zneg _ => NInf end
      else round (a / b)
  end.

(** [x / y] in Python: a zero divisor raises, whatever the dividend. *)
Definition div (x y : pyfloat) : result pyfloat :=
  if is_zero y then Raise ZeroDivisionError else Ok (quotient x y).

(** [x < y]: false as soon as one side is a NaN. *)
Definition ltb (x y : pyfloat) : bool :=
  match x, y with
  | NaN, _ | _, NaN => false
  | Fin a, Fin b => negb (Qle_bool b a)
  | NInf, (Fin _ | PInf) => true
  | Fin _, PInf => true
  | _, _ => false
  end.

(** [x == y] *)
Definition eqb (x y : pyfloat) : bool :=
  match x, y with
  | Fin a, Fin b => Qeq_bool a b
  | PInf, PInf | NInf, NInf => true
  | _, _ => false
  end.

(** The order of the floats that are not NaN. *)
Definition le (x y : pyfloat) : Prop :=
  match x, y with
  | NaN, _ | _, NaN => False
  | NInf, _ => True
  | _, PInf => True
  | Fin a, Fin b => (a <= b)%Q
  | _, _ => False
  end.

(** [int(x)]: truncation towards zero; a NaN and an infinity raise. *)
Definition to_int (x : pyfloat) : result Z :=
  match x with
  | Fin q => Ok (Float.to_int q)
  | PInf | NInf => Raise OverflowError
  | NaN => Raise ValueError
  end.

(** The two-argument [min(a, b)] and [max(a, b)]: the first argument is
    kept unless the second is strictly smaller (larger). *)
Definition min2 (a b : pyfloat) : pyfloat := if ltb b a then b else a.
Definition max2 (a b : pyfloat) : pyfloat := if ltb a b then b else a.

(** [min(values)] and [max(values)] *)
Definition py_min (values : list pyfloat) : result pyfloat :=
  match values with
  | [] => Raise ValueError
  | x :: rest => Ok (foldl min2 x rest)
  end.

Definition py_max (values : list pyfloat) : result pyfloat :=
  match values with
  | [] => Raise ValueError
  | x :: rest => Ok (foldl max2 x rest)
  end.

(** [sum(values)], added from the left starting at the integer 0.  (From
    CPython 3.12 on the builtin adds a compensation term for floats; the
    scale range below is therefore stated for any summation.) *)
Definition py_sum (values : list pyfloat) : pyfloat :=
  foldl add (Fin 0) values.

(** Lines 271-278 of [generate_citymaps], with [sum] as a parameter. *)
Definition scale_range_with (sum : list pyfloat -> pyfloat)
  (percentage_values : list pyfloat) : result (pyfloat * pyfloat) :=
  avg_percentage ← div (sum percentage_values)
                       (of_Z (len percentage_values));
  let min_percentage := sub avg_percentage (Fin 1) in
  let max_percentage := add avg_percentage (Fin 1) in
  data_min ← py_min percentage_values;
  let min_percentage := min2 data_min min_percentage in
  data_max ← py_max percentage_values;
  let max_percentage := max2 data_max max_percentage in
  Ok (min_percentage, max_percentage).

Definition scale_range : list pyfloat -> result (pyfloat * pyfloat) :=
  scale_range_with py_sum.

(** [int(t * 4 * 255)] *)
Definition channel (t : pyfloat) : result Z :=
  to_int (mul (mul t (Fin 4)) (Fin 255)).

(** [get_heatmap_color], lines 165-186. *)
Definition get_heatmap_color (percentage min_percentage max_percentage : pyfloat)
  : result (list Z) :=
  normalized ← div (sub percentage min_percentage)
                   (sub max_percentage min_percentage);
  if ltb normalized (Fin (1 # 4)) then
    g ← channel normalized; Ok [0; g + 200; 200]
  else if ltb normalized (Fin (1 # 2)) then
    b ← channel (sub (Fin (1 # 2)) normalized); Ok [0; 255; b]
  else if ltb normalized (Fin (3 # 4)) then
    r ← channel (sub normalized (Fin (1 # 2))); Ok [r; 255; 0]
  else
    g ← channel (sub (Fin 1) normalized); Ok [255; g; 0].

(** [Math.floor] *)
Definition floor (x : pyfloat) : pyfloat :=
  match x with
  | Fin q => Fin (inject_Z (Qfloor q))
  | _ => x
  end.

(** [Math.floor(t * 4 * 255)] *)
Definition floorChannel (t : pyfloat) : pyfloat :=
  floor (mul (mul t (Fin 4)) (Fin 255)).

(** The page's [getHeatmapColor], lines 537-565. *)
Definition getHeatmapColor (intensity minIntensity maxIntensity : pyfloat)
  : list pyfloat :=
  let normalized :=
    if eqb maxIntensity minIntensity then Fin (1 # 2)
    else quotient (sub intensity minIntensity)
                  (sub maxIntensity minIntensity) in
  if ltb normalized (Fin (1 # 4)) then
    [Fin 0; add (floorChannel normalized) (Fin 200); Fin 200]
  else if ltb normalized (Fin (1 # 2)) then
    [Fin 0; Fin 255; floorChannel (sub (Fin (1 # 2)) normalized)]
  else if ltb normalized (Fin (3 # 4)) then
    [floorChannel (sub normalized (Fin (1 # 2))); Fin 255; Fin 0]
  else
    [Fin 255; floorChannel (sub (Fin 1) normalized); Fin 0].

(** [np.random.uniform(low, high)] on the generator's sample [u]. *)
Definition uniform (u low high : pyfloat) : pyfloat :=
  add low (mul (sub high low) u).

(** [estimate_building_height], lines 30-78. *)
Definition estimate_from_type (u : pyfloat) (building : gmap string cell)
  : pyfloat :=
  let building_type := default (Text "yes") (building !! "building") in
  if cell_in building_type ["commercial"; "office"; "retail"; "hotel"; "apartments"]
  then uniform u (Fin 20) (Fin 40)
  else if cell_in building_type ["industrial"; "warehouse"; "school"; "hospital"; "public"]
  then uniform u (Fin 10) (Fin 20)
  else if cell_in building_type ["house"; "residential"; "detached"; "terrace"; "bungalow"]
  then uniform u (Fin 5) (Fin 12)
  else if cell_in building_type ["garage"; "shed"; "cabin"; "hut"; "roof"]
  then uniform u (Fin 3) (Fin 6)
  else if cell_in building_type ["church"; "cathedral"; "mosque"; "temple"; "shrine"]
  then uniform u (Fin 15) (Fin 30)
  else uniform u (Fin 8) (Fin 18).

Definition estimate_from_levels (u : pyfloat) (building : gmap string cell)
  : pyfloat :=
  match building !! "building:levels" with
  | Some (Text levels_str) =>
      match PyFloat.of_string levels_str with
      | Ok levels => mul (of_exact levels) (Fin (7 # 2))
      | Raise _ => estimate_from_type u building
      end
  | _ => estimate_from_type u building
  end.

Definition estimate_building_height (u : pyfloat) (building : gmap string cell)
  : pyfloat :=
  match building !! "height" with
  | Some (Text height_str) =>
      match parse_height height_str with
      | Ok height =>
          let height := of_exact height in
          if PyFloat.gt0 height then height else Fin 15
      | Raise _ => estimate_from_levels u building
      end
  | _ => estimate_from_levels u building
  end.

(** The colour mapper's window: three binary64 numbers with
    [min < max] and [min <= percentage <= max], whose width
    [max - min] does not overflow. *)
Definition in_window (percentage min_percentage max_percentage : Q) : Prop :=
  is_float percentage /\ is_float min_percentage /\ is_float max_percentage
  /\ (min_percentage < max_percentage)%Q
  /\ (min_percentage <= percentage)%Q /\ (percentage <= max_percentage)%Q
  /\ sub (Fin max_percentage) (Fin min_percentage) <> PInf.

(** [low <= x <= high] for a height. *)
Definition within (x : pyfloat) (low high : Q) : Prop :=
  exists h, x = Fin h /\ (low <= h)%Q /\ (h <= high)%Q.

(** A sample of the generator: a binary64 number in [0, 1). *)
Definition unit_sample (u : Q) : Prop :=
  is_float u /\ (0 <= u)%Q /\ (u < 1)%Q.

(** The row has no value under [key]: the label is absent or the value is
    missing, so that ["key" in building and pd.notna(building[key])] is
    false. *)
Definition no_tag (building : gmap string cell) (key : string) : Prop :=
  building !! key = None \/ building !! key = Some NA.

(** The value of a machine float, for comparing [round] with the
    processor's arithmetic. *)
Definition of_prim (f : PrimFloat.float) : pyfloat :=
  match FloatOps.Prim2SF f with
  | SpecFloat.S754_zero _ => Fin 0
  | SpecFloat.S754_infinity false => PInf
  | SpecFloat.S754_infinity true => NInf
  | SpecFloat.S754_nan => NaN
  | SpecFloat.S754_finite s m e =>
      Fin (Qred (inject_Z (if s then Zneg m else Zpos m) * pow2 e))
  end.

(** A binary64 number of magnitude at most [2^1022]. *)
Definition moderate (x : pyfloat) : Prop :=
  exists q, x = Fin q /\ is_float q /\ (Qabs q <= pow2 1022)%Q.

End B64.
(** Amounts as the data set has them: whole numbers whose absolute values
    add up to at most [2^53], so that neither a 64-bit integer sum nor a
    binary64 sum of any of the rows loses anything. *)
Definition whole_amounts (df : list Transaction) : Prop :=
  Forall (fun r => Qden (Amount r) = 1%positive) df
  /\ foldr (fun r acc => Z.abs (Qnum (Amount r)) + acc) 0 df <= 2 ^ 53.

(** The amounts of some rows, added as floats. *)
Definition float_sum (rows : list Transaction) : pyfloat :=
  B64.py_sum ((fun r => Fin (Amount r)) <$> rows).

(** * Facts about the numeric model *)

Lemma Float_ltb_lt a b : Float.ltb a b = true <-> (a < b)%Q.
Proof.
  unfold Float.ltb. rewrite negb_true_iff. split.
  - intros H. apply Qnot_le_lt. intros Hle.
    apply Qle_bool_iff in Hle. congruence.
  - intros H. destruct (Qle_bool b a) eqn:E; [|reflexivity].
    apply Qle_bool_iff in E. exfalso. apply (Qlt_not_le _ _ H E).
Qed.

Lemma Float_ltb_ge a b : Float.ltb a b = false <-> (b <= a)%Q.
Proof.
  unfold Float.ltb. rewrite negb_false_iff. apply Qle_bool_iff.
Qed.

Lemma Float_min2_le_l a b : (Float.min2 a b <= a)%Q.
Proof.
  unfold Float.min2. destruct (Float.ltb b a) eqn:E.
  - apply Float_ltb_lt in E. apply Qlt_le_weak, E.
  - apply Qle_refl.
Qed.

Lemma Float_min2_le_r a b : (Float.min2 a b <= b)%Q.
Proof.
  unfold Float.min2. destruct (Float.ltb b a) eqn:E.
  - apply Qle_refl.
  - apply Float_ltb_ge in E. exact E.
Qed.

Lemma Float_max2_ge_l a b : (a <= Float.max2 a b)%Q.
Proof.
  unfold Float.max2, Float.gtb. destruct (Float.ltb a b) eqn:E.
  - apply Float_ltb_lt in E. apply Qlt_le_weak, E.
  - apply Qle_refl.
Qed.

Lemma Float_max2_ge_r a b : (b <= Float.max2 a b)%Q.
Proof.
  unfold Float.max2, Float.gtb. destruct (Float.ltb a b) eqn:E.
  - apply Qle_refl.
  - apply Float_ltb_ge in E. exact E.
Qed.

Lemma Float_sub_self m : Qeq_bool (Float.sub m m) 0 = true.
Proof.
  apply Qeq_bool_iff. unfold Float.sub. rewrite Qred_correct. ring.
Qed.

(** * The examples of the specification, run on the model *)

Example color_low : get_heatmap_color 0 0 8 = Ok [0; 200; 200].
Proof. reflexivity. Qed.

Example color_high : get_heatmap_color 8 0 8 = Ok [255; 0; 0].
Proof. reflexivity. Qed.

Example color_mid : get_heatmap_color 4 0 8 = Ok [0; 255; 0].
Proof. reflexivity. Qed.

Example color_eighth : get_heatmap_color 1 0 8 = Ok [0; 327; 200].
Proof. reflexivity. Qed.

Example color_js_degenerate : getHeatmapColor 5 3 3 = [0; 255; 0].
Proof. reflexivity. Qed.

Example float_15m :
  PyFloat.of_chars (Str.strip (Str.replace "ft" "" (Str.replace "m" "" (Str.chars "15m"))))
  = Ok (Fin 15).
Proof. reflexivity. Qed.

Example float_abcm :
  PyFloat.of_chars (Str.strip (Str.replace "ft" "" (Str.replace "m" "" (Str.chars "abcm"))))
  = Raise ValueError.
Proof. reflexivity. Qed.

Example float_forms :
  map PyFloat.of_string [" 3.5 "; "-1_0.25e1"; ".5"; "7."; "1e-2"; "+Inf"; "nAn"; "-0"]
  = [Ok (Fin (7 # 2)); Ok (Fin (-205 # 2)); Ok (Fin (1 # 2)); Ok (Fin 7);
     Ok (Fin (1 # 100)); Ok PInf; Ok NaN; Ok (Fin 0)].
Proof. vm_compute. reflexivity. Qed.

Example float_rejects :
  map PyFloat.of_string [""; "."; "1_"; "_1"; "1__0"; "1e"; "e5"; "1 2"; "0x10"; "--1"; "12ft"]
  = repeat (Raise ValueError) 11.
Proof. vm_compute. reflexivity. Qed.

Example height_explicit :
  estimate_building_height 0 {[ "height" := Text "15m" ]} = Fin 15
  /\ estimate_building_height 0 {[ "height" := Text "20" ]} = Fin 20
  /\ estimate_building_height 0 {[ "height" := Text " 50 ft" ]} = Fin 50.
Proof. vm_compute. auto. Qed.

Example height_levels :
  estimate_building_height 0
    (<[ "height" := Text "abcm" ]> {[ "building:levels" := Text "4" ]}) = Fin 14.
Proof. vm_compute. reflexivity. Qed.

Example height_house :
  estimate_building_height (1 # 2) {[ "building" := Text "house" ]} = Fin (17 # 2).
Proof. vm_compute. reflexivity. Qed.

Example height_missing :
  estimate_building_height (1 # 2) (<[ "height" := NA ]> {[ "building" := NA ]})
  = Fin 13.
Proof. vm_compute. reflexivity. Qed.

(** * Color Scale Mapper *)

(** The page's own mapper returns the midpoint colour on an empty window. *)
Lemma getHeatmapColor_empty_window intensity m :
  getHeatmapColor intensity m m = [0; 255; 0].
Proof.
  unfold getHeatmapColor.
  assert (E : Qeq_bool m m = true) by (apply Qeq_bool_iff; reflexivity).
  rewrite E. reflexivity.
Qed.

(** C1 (fails on the code).  The claim wants [get_heatmap_color value m m]
    to return the t = 0.5 colour [0, 255, 0] without raising.  The Python
    mapper divides by [max - min] unguarded: for every value and every [m]
    the call raises ZeroDivisionError.  Only the page's [getHeatmapColor]
    has the guard. *)
Theorem get_heatmap_color_empty_window value m :
  get_heatmap_color value m m = Raise ZeroDivisionError.
Proof.
  unfold get_heatmap_color, Float.div.
  rewrite Float_sub_self. reflexivity.
Qed.

(** C2 (fails on the code).  The claim wants every channel within
    [0, 255] when min <= value <= max.  In the first segment the green
    channel is [int(t * 4 * 255) + 200]: at value 1 in the window [0, 8]
    (t = 0.125) it is 327. *)
Theorem get_heatmap_color_green_overflow :
  (0 < 8)%Q /\ (0 <= 1 <= 8)%Q
  /\ get_heatmap_color 1 0 8 = Ok [0; 327; 200]
  /\ ~ (0 <= 327 <= 255).
Proof.
  split; [reflexivity|]. split; [split; discriminate|].
  split; [reflexivity|]. lia.
Qed.

(** * Height Estimator *)

Lemma estimate_height_unparsable u building height_str :
  building !! "height" = Some (Text height_str) ->
  is_ok (parse_height height_str) = false ->
  estimate_building_height u building = estimate_from_levels u building.
Proof.
  intros Hh Hp. unfold estimate_building_height. rewrite Hh.
  destruct (parse_height height_str); [discriminate|reflexivity].
Qed.

Lemma estimate_from_levels_4 u building :
  building !! "building:levels" = Some (Text "4") ->
  estimate_from_levels u building = Fin 14.
Proof.
  intros Hl. unfold estimate_from_levels. rewrite Hl. reflexivity.
Qed.

(** C4, as the code has it.  A height tag that does not parse falls through
    to the levels rule, so with [building:levels = "4"] the estimate is
    4 * 3.5 = 14.0.  A height tag that parses to a value not above zero
    does not fall through: the estimate is the fixed 15, whatever the
    levels tag says. *)
Theorem estimate_building_height_bad_height u building height_str :
  building !! "height" = Some (Text height_str) ->
  (is_ok (parse_height height_str) = false ->
   estimate_building_height u building = estimate_from_levels u building
   /\ (building !! "building:levels" = Some (Text "4") ->
       estimate_building_height u building = Fin 14))
  /\ (forall v, parse_height height_str = Ok v -> PyFloat.gt0 v = false ->
      estimate_building_height u building = Fin 15).
Proof.
  intros Hh. split.
  - intros Hp.
    pose proof (estimate_height_unparsable u building height_str Hh Hp) as E.
    split; [exact E|].
    intros Hl. rewrite E. apply estimate_from_levels_4, Hl.
  - intros v Hv Hneg. unfold estimate_building_height.
    rewrite Hh, Hv, Hneg. reflexivity.
Qed.

Lemma estimate_building_height_bad_height_witness :
  estimate_building_height 0
    (<[ "height" := Text "abcm" ]> {[ "building:levels" := Text "4" ]}) = Fin 14
  /\ estimate_building_height 0
       (<[ "height" := Text "-3 m" ]> {[ "building:levels" := Text "4" ]}) = Fin 15.
Proof.
  split.
  - apply (estimate_building_height_bad_height 0
             (<[ "height" := Text "abcm" ]> {[ "building:levels" := Text "4" ]})
             "abcm"); reflexivity.
  - refine (proj2 (estimate_building_height_bad_height 0
                     (<[ "height" := Text "-3 m" ]> {[ "building:levels" := Text "4" ]})
                     "-3 m" _) (Fin (-3)) _ _); reflexivity.
Defined.

(** C4 as stated fails: the height tag "0" parses to 0, and with
    [building:levels = "4"] the estimate is 15, not 14.0. *)
Lemma estimate_building_height_zero_height :
  let building := <[ "height" := Text "0" ]> {[ "building:levels" := Text "4" ]} in
  bad_height building "0"
  /\ building !! "building:levels" = Some (Text "4")
  /\ estimate_building_height 0 building = Fin 15
  /\ estimate_building_height 0 building <> Fin 14.
Proof.
  split.
  - split; [reflexivity|]. right. exists (Fin 0). split; reflexivity.
  - split; [reflexivity|]. split; [reflexivity|]. discriminate.
Qed.

(** C5 (fails on the code).  The claim wants a strictly positive height for
    every tag set.  The levels rule returns [levels * 3.5] unchecked: a
    building tagged [building:levels = "0"] and nothing else gets height 0,
    whatever the random draw. *)
Theorem estimate_building_height_zero_levels u :
  estimate_building_height u {[ "building:levels" := Text "0" ]} = Fin 0
  /\ ~ PyFloat.positive (estimate_building_height u {[ "building:levels" := Text "0" ]}).
Proof.
  assert (E : estimate_building_height u {[ "building:levels" := Text "0" ]} = Fin 0)
    by reflexivity.
  split; [exact E|]. rewrite E. discriminate.
Qed.

(** * Slices and the cap on a city's buildings *)

Lemma slice_upto_len {A} (l : list A) (stop : Z) :
  len (slice_upto l stop)
  = if stop <? 0 then Z.max 0 (stop + len l) else Z.min stop (len l).
Proof.
  unfold slice_upto, len. rewrite length_take.
  destruct (stop <? 0) eqn:E.
  - apply Z.ltb_lt in E. lia.
  - apply Z.ltb_ge in E. lia.
Qed.

Lemma city_buildings_subset_len {A} (l : list A) :
  len (city_buildings_subset l) = Z.max 0 (Z.min (len l - 1) 20000).
Proof.
  unfold city_buildings_subset. rewrite slice_upto_len.
  unfold len. destruct (Z.min (Z.of_nat (length l) - 1) 20000 <? 0) eqn:E.
  - apply Z.ltb_lt in E. lia.
  - apply Z.ltb_ge in E. lia.
Qed.

Lemma city_buildings_subset_prefix {A} (l : list A) :
  city_buildings_subset l
  = take (Z.to_nat (Z.max 0 (Z.min (len l - 1) 20000))) l.
Proof.
  unfold city_buildings_subset, slice_upto, len.
  destruct (Z.min (Z.of_nat (length l) - 1) 20000 <? 0) eqn:E.
  - apply Z.ltb_lt in E. f_equal. lia.
  - apply Z.ltb_ge in E. f_equal. lia.
Qed.

Lemma get_city_coords_lookup geocode buildings_data city_names i e :
  get_city_coords geocode buildings_data city_names !! i = Some e ->
  exists city_buildings,
    buildings_data !! i = Some city_buildings
    /\ city_names !! i = Some (name e)
    /\ buildings e = city_buildings_subset city_buildings
    /\ index e = Z.of_nat i.
Proof.
  unfold get_city_coords. intros H.
  apply list_lookup_imap_Some in H as [[city_name city_buildings] [Hz ->]].
  apply lookup_zip_Some in Hz as [Hn Hb].
  apply lookup_take_Some in Hb as [Hb _].
  exists city_buildings.
  destruct (city_centre geocode city_name) as [la lo]. simpl.
  repeat split; assumption || reflexivity.
Qed.

(** C6, as the code has it.  The entry built for the i-th city keeps the
    first max(0, min(len - 1, 20000)) buildings of the i-th list: exactly
    min(len - 1, 20000) of a non-empty list, and none of the empty list. *)
Theorem get_city_coords_retained geocode buildings_data city_names i e :
  get_city_coords geocode buildings_data city_names !! i = Some e ->
  exists city_buildings,
    buildings_data !! i = Some city_buildings
    /\ city_names !! i = Some (name e)
    /\ buildings e
       = take (Z.to_nat (Z.max 0 (Z.min (len city_buildings - 1) 20000)))
              city_buildings
    /\ len (buildings e) = Z.max 0 (Z.min (len city_buildings - 1) 20000)
    /\ (city_buildings <> [] ->
        len (buildings e) <= Z.min (len city_buildings - 1) 20000).
Proof.
  intros H. apply get_city_coords_lookup in H as (bl & Hb & Hn & He & _).
  exists bl. rewrite He.
  pose proof (city_buildings_subset_len bl) as Hlen.
  repeat split; auto using city_buildings_subset_prefix.
  intros Hne. rewrite Hlen. destruct bl; [congruence|].
  unfold len. simpl length. lia.
Qed.

(** C6 as stated fails on the empty list: the entry keeps 0 buildings,
    and 0 is not at most min(0 - 1, 20000) = -1. *)
Lemma get_city_coords_empty_list :
  exists e,
    get_city_coords (fun _ => Ok (0, 0)%Q) [[]] ["Delhi, India"] = [e]
    /\ buildings e = []
    /\ ~ (len (buildings e) <= Z.min (len (@nil BuildingRecord) - 1) 20000).
Proof.
  eexists. split; [reflexivity|]. split; [reflexivity|]. vm_compute. auto.
Qed.

Lemma get_city_coords_retained_witness :
  let b := {| coordinates := []; height := Fin 10 |} in
  let e := {| name := "Pune"; lat := 0; lon := 0; buildings := [b; b]; index := 0 |} in
  exists city_buildings,
    [[b; b; b]] !! 0%nat = Some city_buildings
    /\ ["Pune"] !! 0%nat = Some (name e)
    /\ buildings e
       = take (Z.to_nat (Z.max 0 (Z.min (len city_buildings - 1) 20000)))
              city_buildings
    /\ len (buildings e) = Z.max 0 (Z.min (len city_buildings - 1) 20000)
    /\ (city_buildings <> [] ->
        len (buildings e) <= Z.min (len city_buildings - 1) 20000).
Proof.
  intros b e.
  apply (get_city_coords_retained (fun _ => Raise KeyError) [[b; b; b]] ["Pune"] 0%nat e).
  reflexivity.
Defined.

(** * Building Cache: the order after a cache load *)

Section Sorting.

Context {A : Type} (key : A -> nat).

Lemma insert_desc_perm x l : insert_desc key x l ≡ₚ x :: l.
Proof.
  induction l as [|y l IH]; simpl; [reflexivity|].
  destruct (key y <=? key x)%nat; [reflexivity|].
  rewrite IH. apply perm_swap.
Qed.

Lemma sort_desc_perm l : sort_desc key l ≡ₚ l.
Proof.
  induction l as [|x l IH]; simpl; [reflexivity|].
  rewrite insert_desc_perm, IH. reflexivity.
Qed.

Lemma insert_desc_sorted x l :
  StronglySorted (fun a b => (key b <= key a)%nat) l ->
  StronglySorted (fun a b => (key b <= key a)%nat) (insert_desc key x l).
Proof.
  induction 1 as [|y l Hs IH Hy]; simpl.
  - repeat constructor.
  - destruct (key y <=? key x)%nat eqn:E.
    + apply Nat.leb_le in E. constructor; [constructor; assumption|].
      constructor; [exact E|].
      eapply Forall_impl; [exact Hy|]. simpl. intros z Hz. lia.
    + apply Nat.leb_gt in E. constructor; [exact IH|].
      rewrite insert_desc_perm. constructor; [lia|exact Hy].
Qed.

Lemma sort_desc_sorted l :
  StronglySorted (fun a b => (key b <= key a)%nat) (sort_desc key l).
Proof.
  induction l as [|x l IH]; simpl; [constructor|].
  apply insert_desc_sorted, IH.
Qed.

(** Stability: elements with equal keys keep their input order. *)
Lemma insert_desc_filter x l k :
  filter (fun a => key a = k) (insert_desc key x l)
  = filter (fun a => key a = k) (x :: l).
Proof.
  induction l as [|y l IH]; simpl; [reflexivity|].
  destruct (key y <=? key x)%nat eqn:E; [reflexivity|].
  apply Nat.leb_gt in E.
  rewrite !filter_cons in *. rewrite IH.
  destruct (decide (key y = k)), (decide (key x = k)); try reflexivity.
  lia.
Qed.

Lemma sort_desc_stable l k :
  filter (fun a => key a = k) (sort_desc key l) = filter (fun a => key a = k) l.
Proof.
  induction l as [|x l IH]; simpl; [reflexivity|].
  rewrite insert_desc_filter, !filter_cons, IH. reflexivity.
Qed.

End Sorting.

Lemma longest_first_snd {N A} (pairs : list (N * list A)) :
  StronglySorted (fun a b => (length b.2 <= length a.2)%nat) pairs ->
  longest_first pairs.*2.
Proof.
  unfold longest_first. induction 1 as [|p l Hs IH Hp]; simpl; constructor.
  - exact IH.
  - apply Forall_fmap. exact Hp.
Qed.

Lemma get_buildings_data_load fetch cache city_names :
  get_buildings_data fetch cache city_names true
  = match zip city_names cache with
    | [] => Raise ValueError
    | pairs => Ok (sort_desc (fun x => length x.2) pairs).*2
    end.
Proof.
  unfold get_buildings_data. simpl negb. cbv iota.
  destruct (zip city_names cache) as [|p l] eqn:E; [reflexivity|].
  pose proof (sort_desc_perm (fun x : string * list BuildingRecord => length x.2) (p :: l)) as HP.
  destruct (sort_desc _ (p :: l)) as [|q l'] eqn:E'.
  - apply Permutation_nil_l in HP. discriminate.
  - reflexivity.
Qed.

(** C7.  On the load path, with one cached list per city name: whatever is
    returned is in non-increasing order of list length and is a reordering
    of the cached lists; and something is returned as soon as there is a
    city (with no city at all the unpacking of line 108 raises). *)
Theorem get_buildings_data_load_sorted fetch cache city_names :
  length cache = length city_names ->
  (forall buildings_data,
     get_buildings_data fetch cache city_names true = Ok buildings_data ->
     longest_first buildings_data /\ buildings_data ≡ₚ cache)
  /\ (city_names <> [] ->
      exists buildings_data,
        get_buildings_data fetch cache city_names true = Ok buildings_data).
Proof.
  intros Hlen. rewrite get_buildings_data_load.
  pose proof (snd_zip city_names cache ltac:(lia)) as Hsnd.
  destruct (zip city_names cache) as [|p l] eqn:E.
  - split; [discriminate|]. intros Hne.
    destruct city_names, cache; simpl in *; congruence.
  - split; [|eauto]. intros ls [= <-]. split.
    + apply longest_first_snd.
      exact (sort_desc_sorted (fun x : string * list BuildingRecord => length x.2) (p :: l)).
    + rewrite <- Hsnd. apply fmap_Permutation.
      exact (sort_desc_perm (fun x : string * list BuildingRecord => length x.2) (p :: l)).
Qed.

Lemma get_buildings_data_load_sorted_witness :
  let b := {| coordinates := []; height := Fin 10 |} in
  let cache := [[b]; [b; b; b]; [b; b]] in
  let city_names := ["Bengaluru, India"; "Delhi, India"; "Ahmedabad, India"] in
  let fetch := fun _ : string => @Raise (list BuildingRecord) KeyError in
  (forall buildings_data,
     get_buildings_data fetch cache city_names true = Ok buildings_data ->
     longest_first buildings_data /\ buildings_data ≡ₚ cache)
  /\ (city_names <> [] ->
      exists buildings_data,
        get_buildings_data fetch cache city_names true = Ok buildings_data).
Proof.
  intros b cache city_names fetch.
  apply (get_buildings_data_load_sorted fetch cache city_names).
  reflexivity.
Defined.

Example get_buildings_data_load_order :
  let b := {| coordinates := []; height := Fin 10 |} in
  get_buildings_data (fun _ => Raise KeyError) [[b]; [b; b; b]; [b; b]]
    ["Bengaluru, India"; "Delhi, India"; "Ahmedabad, India"] true
  = Ok [[b; b; b]; [b; b]; [b]].
Proof. reflexivity. Qed.

Example get_buildings_data_no_city :
  get_buildings_data (fun _ => Raise KeyError) [] [] true = Raise ValueError.
Proof. reflexivity. Qed.

(** * Cache order against the configured city order *)

Lemma get_buildings_data_two fetch (a b : string) (la lb : list BuildingRecord) :
  (length la < length lb)%nat ->
  get_buildings_data fetch [la; lb] [a; b] true = Ok [lb; la].
Proof.
  intros Hlt. rewrite get_buildings_data_load. simpl.
  apply Nat.leb_gt in Hlt. rewrite Hlt. reflexivity.
Qed.

(** C10.  Two configured cities [a], [b] whose cached lists [la], [lb] are
    not in descending order of length.  The cache load returns the bare
    lists [lb; la], without the names; joined by position to the configured
    names [a; b], the entry named [a] holds what line 241 keeps of [lb],
    the list cached for [b], and the entry named [b] what it keeps of [la]. *)
Theorem load_city_coords_crosses fetch geocode (a b : string)
  (la lb : list BuildingRecord) :
  (length la < length lb)%nat ->
  get_buildings_data fetch [la; lb] [a; b] true = Ok [lb; la]
  /\ exists ea eb,
       load_city_coords fetch geocode [la; lb] [a; b] = Ok [ea; eb]
       /\ name ea = a /\ buildings ea = city_buildings_subset lb
       /\ name eb = b /\ buildings eb = city_buildings_subset la.
Proof.
  intros Hlt. pose proof (get_buildings_data_two fetch a b la lb Hlt) as E.
  split; [exact E|].
  unfold load_city_coords. rewrite E. simpl.
  unfold get_city_coords. simpl.
  destruct (city_centre geocode a) as [xa ya], (city_centre geocode b) as [xb yb].
  eexists _, _. split; [reflexivity|]. simpl. auto.
Qed.

Lemma load_city_coords_crosses_witness :
  let small := {| coordinates := []; height := Fin 3 |} in
  let tall := {| coordinates := []; height := Fin 40 |} in
  let fetch := fun _ : string => @Raise (list BuildingRecord) KeyError in
  let geocode := fun _ : string => @Ok (Q * Q) (0, 0)%Q in
  get_buildings_data fetch [[small; small]; [tall; tall; tall]]
    ["Bengaluru, India"; "Delhi, India"] true
  = Ok [[tall; tall; tall]; [small; small]]
  /\ exists ea eb,
       load_city_coords fetch geocode [[small; small]; [tall; tall; tall]]
         ["Bengaluru, India"; "Delhi, India"] = Ok [ea; eb]
       /\ name ea = "Bengaluru, India"
       /\ buildings ea = city_buildings_subset [tall; tall; tall]
       /\ name eb = "Delhi, India"
       /\ buildings eb = city_buildings_subset [small; small].
Proof.
  intros small tall fetch geocode.
  apply (load_city_coords_crosses fetch geocode "Bengaluru, India" "Delhi, India"
           [small; small] [tall; tall; tall]).
  simpl. lia.
Defined.

Example load_city_coords_mismatch :
  let small := {| coordinates := []; height := Fin 3 |} in
  let tall := {| coordinates := []; height := Fin 40 |} in
  load_city_coords (fun _ => Raise KeyError) (fun _ => Raise KeyError)
    [[small; small]; [tall; tall; tall]] ["Bengaluru, India"; "Delhi, India"]
  = Ok [ {| name := "Bengaluru, India"; lat := 0; lon := 0;
            buildings := [tall; tall]; index := 0 |};
         {| name := "Delhi, India"; lat := 0; lon := 0;
            buildings := [small]; index := 1 |} ].
Proof. reflexivity. Qed.

(** * Scale range of a slice *)

Lemma foldl_min2_le rest : forall x,
  (foldl Float.min2 x rest <= x)%Q
  /\ Forall (fun v => (foldl Float.min2 x rest <= v)%Q) rest.
Proof.
  induction rest as [|y rest IH]; intros x; simpl.
  - split; [apply Qle_refl|constructor].
  - destruct (IH (Float.min2 x y)) as [H1 H2]. split; [|constructor].
    + eapply Qle_trans; [exact H1|apply Float_min2_le_l].
    + eapply Qle_trans; [exact H1|apply Float_min2_le_r].
    + exact H2.
Qed.

Lemma foldl_max2_ge rest : forall x,
  (x <= foldl Float.max2 x rest)%Q
  /\ Forall (fun v => (v <= foldl Float.max2 x rest)%Q) rest.
Proof.
  induction rest as [|y rest IH]; intros x; simpl.
  - split; [apply Qle_refl|constructor].
  - destruct (IH (Float.max2 x y)) as [H1 H2]. split; [|constructor].
    + eapply Qle_trans; [apply Float_max2_ge_l|exact H1].
    + eapply Qle_trans; [apply Float_max2_ge_r|exact H1].
    + exact H2.
Qed.

Lemma py_min_le values : values <> [] ->
  exists m, py_min values = Ok m /\ Forall (fun v => (m <= v)%Q) values.
Proof.
  destruct values as [|x rest]; [congruence|]. intros _.
  eexists. split; [reflexivity|].
  destruct (foldl_min2_le rest x). constructor; assumption.
Qed.

Lemma py_max_ge values : values <> [] ->
  exists m, py_max values = Ok m /\ Forall (fun v => (v <= m)%Q) values.
Proof.
  destruct values as [|x rest]; [congruence|]. intros _.
  eexists. split; [reflexivity|].
  destruct (foldl_max2_ge rest x). constructor; assumption.
Qed.

Lemma mean_defined values : values <> [] ->
  Float.div (py_sum values) (Float.of_Z (len values))
  = Ok (Qred (py_sum values / Float.of_Z (len values))).
Proof.
  intros Hne. unfold Float.div.
  destruct (Qeq_bool (Float.of_Z (len values)) 0) eqn:E; [|reflexivity].
  apply Qeq_bool_iff in E. unfold Qeq, Float.of_Z, len in E. simpl in E.
  destruct values; [congruence|]. simpl length in E. lia.
Qed.

Example scale_range_outliers : scale_range [10; 12; 50]%Q = Ok (10, 50)%Q.
Proof. reflexivity. Qed.

Example scale_range_tight : scale_range [30; 30.5; 31]%Q = Ok (59 # 2, 63 # 2).
Proof. vm_compute. reflexivity. Qed.

(** * Spending Aggregator *)

Lemma unique_from_subset seen l x : x ∈ unique_from seen l -> x ∈ l.
Proof.
  revert seen. induction l as [|y l IH]; intros seen; simpl.
  - intros Hx. exact Hx.
  - case_bool_decide.
    + intros Hx. right. eapply IH, Hx.
    + intros Hx. apply elem_of_cons in Hx as [->|Hx]; [left|right; eapply IH, Hx].
Qed.

Lemma unique_subset l x : x ∈ unique l -> x ∈ l.
Proof. apply unique_from_subset. Qed.

Lemma unique_from_complete seen l x :
  x ∈ l -> x ∉ seen -> x ∈ unique_from seen l.
Proof.
  revert seen. induction l as [|y l IH]; intros seen Hin Hseen; simpl.
  - inversion Hin.
  - apply elem_of_cons in Hin as [->|Hin].
    + rewrite bool_decide_eq_false_2 by exact Hseen. left.
    + case_bool_decide as Hy.
      * apply IH; assumption.
      * destruct (decide (x = y)) as [->|Hne]; [left|].
        right. apply IH; [assumption|]. apply not_elem_of_cons. auto.
Qed.

Lemma total_spending_lookup quarter_df city_names city :
  city ∈ city_names ->
  total_spending quarter_df city_names !! city
  = Some (amount_sum (filter (fun r => City r = city) quarter_df)).
Proof.
  unfold total_spending.
  generalize (∅ : gmap string Q) as acc.
  induction city_names as [|c l IH]; intros acc Hin; [inversion Hin|].
  simpl. destruct (decide (city ∈ l)) as [Hl|Hl]; [apply IH, Hl|].
  apply elem_of_cons in Hin as [->|Hin]; [|contradiction].
  clear IH. revert acc. induction l as [|d l IH]; intros acc; simpl.
  - apply lookup_insert_eq.
  - rewrite insert_insert_ne by set_solver.
    apply IH. set_solver.
Qed.

Lemma all_categories_100 total city_names : forall (sp0 pc0 sp pc : gmap string Q),
  for_each city_names
    (fun '(sp, pc) city_name =>
       t ← getitem total city_name;
       Ok (<[ city_name := t ]> sp, <[ city_name := 100%Q ]> pc))
    (sp0, pc0) = Ok (sp, pc) ->
  forall city, city ∈ city_names \/ pc0 !! city = Some 100%Q ->
  pc !! city = Some 100%Q.
Proof.
  induction city_names as [|c l IH]; intros sp0 pc0 sp pc; simpl.
  - intros [= <- <-] city [H|H]; [inversion H|exact H].
  - destruct (getitem total c) as [t|]; simpl; [|discriminate].
    intros H city Hc. eapply IH; [exact H|].
    destruct (decide (city = c)) as [->|Hne].
    + right. apply lookup_insert_eq.
    + destruct Hc as [Hc|Hc].
      * left. apply elem_of_cons in Hc as [?|?]; [contradiction|assumption].
      * right. rewrite lookup_insert_ne by congruence. exact Hc.
Qed.

Lemma for_each_categories_other {S} (rows : string -> result (S * gmap string Q))
  categories k : forall (sp0 : gmap string S) (pc0 : slice_table) sp pc,
  for_each categories
    (fun '(sp_q, pc_q) category =>
       '(s, p) ← rows category;
       Ok (<[ category := s ]> sp_q, <[ category := p ]> pc_q))
    (sp0, pc0) = Ok (sp, pc) ->
  k ∉ categories ->
  pc !! k = pc0 !! k.
Proof.
  induction categories as [|c l IH]; intros sp0 pc0 sp pc; simpl.
  - intros [= <- <-] _. reflexivity.
  - destruct (rows c) as [[s p]|]; simpl; [|discriminate].
    intros H Hk. rewrite (IH _ _ _ _ H) by set_solver.
    apply lookup_insert_ne. set_solver.
Qed.

Lemma quarter_tables_all_categories df city_names quarter sp_q pc_q :
  quarter_tables df city_names quarter = Ok (sp_q, pc_q) ->
  "All Categories" ∉ (ExpType <$> df) ->
  forall city, city ∈ city_names ->
  pc_q !! "All Categories" ≫= (.!! city) = Some 100%Q.
Proof.
  unfold quarter_tables. intros H Hfresh city Hc.
  destruct (all_categories _ city_names) as [[sp_all pc_all]|] eqn:Eall;
    simpl in H; [|discriminate].
  erewrite for_each_categories_other with
    (rows := category_rows (quarter_rows df quarter)
               (total_spending (quarter_rows df quarter) city_names) city_names);
    [| exact H | intros Hin; apply Hfresh, unique_subset, Hin].
  rewrite lookup_singleton_eq. simpl.
  eapply all_categories_100; [exact Eall|]. left. exact Hc.
Qed.

Lemma calculate_lookup df city_names quarters : forall (sd0 pd0 sd pd : table),
  for_each quarters
    (fun '(spending_data, percentage_data) quarter =>
       '(sp_q, pc_q) ← quarter_tables df city_names quarter;
       Ok (<[ quarter := sp_q ]> spending_data,
           <[ quarter := pc_q ]> percentage_data))
    (sd0, pd0) = Ok (sd, pd) ->
  forall quarter,
    (quarter ∈ quarters ->
     exists sp_q pc_q,
       quarter_tables df city_names quarter = Ok (sp_q, pc_q)
       /\ sd !! quarter = Some sp_q /\ pd !! quarter = Some pc_q)
    /\ (quarter ∉ quarters ->
        sd !! quarter = sd0 !! quarter /\ pd !! quarter = pd0 !! quarter).
Proof.
  induction quarters as [|q l IH]; intros sd0 pd0 sd pd; simpl.
  - intros [= <- <-] quarter. split; [intros Hq; inversion Hq|auto].
  - destruct (quarter_tables df city_names q) as [[sp_q pc_q]|] eqn:Eq;
      simpl; [|discriminate].
    intros Hrun quarter. destruct (IH _ _ _ _ Hrun quarter) as [Hin Hout].
    split.
    + intros Hq. destruct (decide (quarter ∈ l)) as [Hl|Hl]; [auto|].
      apply elem_of_cons in Hq as [->|Hq]; [|contradiction].
      exists sp_q, pc_q. destruct (Hout Hl) as [-> ->].
      rewrite !lookup_insert_eq. auto.
    + intros Hq. apply not_elem_of_cons in Hq as [Hne Hl].
      destruct (Hout Hl) as [-> ->].
      rewrite !lookup_insert_ne by congruence. auto.
Qed.

(** C8, as the code has it.  Whenever the aggregator returns its tables and
    no transaction carries the reserved label "All Categories" as its
    category, the "All Categories" percentage of every listed quarter and
    city is exactly 100.0. *)
Theorem all_categories_is_100 df city_names quarters spending_data percentage_data :
  calculate_spending_by_category_and_quarter df city_names quarters
  = Ok (spending_data, percentage_data) ->
  "All Categories" ∉ (ExpType <$> df) ->
  forall quarter city, quarter ∈ quarters -> city ∈ city_names ->
  entry percentage_data quarter "All Categories" city = Some 100%Q.
Proof.
  unfold calculate_spending_by_category_and_quarter.
  intros Hrun Hfresh quarter city Hq Hc.
  destruct (calculate_lookup _ _ _ _ _ _ _ Hrun quarter) as [Hin _].
  destruct (Hin Hq) as (sp_q & pc_q & Htab & _ & Hpd).
  unfold entry. rewrite Hpd. simpl.
  exact (quarter_tables_all_categories _ _ _ _ _ Htab Hfresh city Hc).
Qed.

Lemma all_categories_is_100_witness :
  let df := [ {| City := "Pune"; ExpType := "Food"; YearQuarter := "2014-Q1"; Amount := 10 |};
              {| City := "Pune"; ExpType := "Fuel"; YearQuarter := "2014-Q2"; Amount := 30 |} ] in
  exists spending_data percentage_data,
    calculate_spending_by_category_and_quarter df ["Pune"] ["All Time"; "2014-Q1"]
    = Ok (spending_data, percentage_data)
    /\ entry percentage_data "2014-Q1" "All Categories" "Pune" = Some 100%Q.
Proof.
  intros df. eexists _, _. split; [reflexivity|].
  apply (all_categories_is_100 df ["Pune"] ["All Time"; "2014-Q1"] _ _ eq_refl).
  - intros H. apply list_elem_of_In in H. simpl in H. intuition discriminate.
  - apply list_elem_of_In. simpl. auto.
  - apply list_elem_of_In. simpl. auto.
Defined.

(** C8 as stated fails when a transaction's category is itself labelled
    "All Categories": the loop over the categories overwrites the row of
    100.0 with that category's share, here 10 of 40. *)
Lemma all_categories_label_collision :
  let df := [ {| City := "Pune"; ExpType := "All Categories"; YearQuarter := "2014-Q1"; Amount := 10 |};
              {| City := "Pune"; ExpType := "Food"; YearQuarter := "2014-Q1"; Amount := 30 |} ] in
  exists spending_data percentage_data,
    calculate_spending_by_category_and_quarter df ["Pune"] ["All Time"]
    = Ok (spending_data, percentage_data)
    /\ entry percentage_data "All Time" "All Categories" "Pune" = Some 25%Q
    /\ entry percentage_data "All Time" "All Categories" "Pune" <> Some 100%Q.
Proof.
  intros df. eexists _, _. split; [reflexivity|].
  assert (E : forall x : option Q, x = Some 25%Q -> x = Some 25%Q /\ x <> Some 100%Q).
  { intros x ->. split; [reflexivity|discriminate]. }
  apply E. reflexivity.
Qed.

(** ** A zero total stops the aggregator *)

Lemma for_each_ok_or_zde {A S} (l : list A) (body : S -> A -> result S) :
  (forall s x, x ∈ l -> ok_or_zde (body s x)) ->
  forall s, ok_or_zde (for_each l body s).
Proof.
  induction l as [|y l IH]; intros Hbody s; simpl; [exact I|].
  pose proof (Hbody s y ltac:(left)) as Hy.
  destruct (body s y) as [s'|e]; simpl in *; [|exact Hy].
  apply IH. intros s0 x Hx. apply Hbody. right. exact Hx.
Qed.

Lemma for_each_raises {A S} (l : list A) (body : S -> A -> result S) x0 :
  x0 ∈ l ->
  (forall s, body s x0 = Raise ZeroDivisionError) ->
  (forall s x, x ∈ l -> ok_or_zde (body s x)) ->
  forall s, for_each l body s = Raise ZeroDivisionError.
Proof.
  induction l as [|y l IH]; intros Hin Hx0 Hbody s; [inversion Hin|].
  simpl. pose proof (Hbody s y ltac:(left)) as Hy.
  apply elem_of_cons in Hin as [->|Hin]; [rewrite Hx0; reflexivity|].
  destruct (body s y) as [s'|e]; simpl in *; [|congruence].
  apply IH; [exact Hin|exact Hx0|].
  intros s0 x Hx. apply Hbody. right. exact Hx.
Qed.

Lemma getitem_total quarter_df city_names city :
  city ∈ city_names ->
  getitem (total_spending quarter_df city_names) city
  = Ok (amount_sum (filter (fun r => City r = city) quarter_df)).
Proof.
  intros Hc. unfold getitem. rewrite total_spending_lookup by exact Hc.
  reflexivity.
Qed.

Lemma all_categories_defined (total : gmap string Q) city_names :
  (forall c, c ∈ city_names -> is_Some (total !! c)) ->
  forall acc : gmap string Q * gmap string Q,
  exists r,
    for_each city_names
      (fun '(sp, pc) city_name =>
         t ← getitem total city_name;
         Ok (<[ city_name := t ]> sp, <[ city_name := 100%Q ]> pc))
      acc = Ok r.
Proof.
  induction city_names as [|c l IH]; intros Hall acc; [simpl; eauto|].
  destruct acc as [sp pc]. cbn [for_each].
  destruct (Hall c ltac:(left)) as [t Ht].
  assert (E : getitem total c = Ok t) by (unfold getitem; rewrite Ht; reflexivity).
  rewrite E. simpl.
  apply IH. intros c' Hc'. apply Hall. right. exact Hc'.
Qed.

Lemma all_categories_ok quarter_df city_names :
  exists r, all_categories (total_spending quarter_df city_names) city_names = Ok r.
Proof.
  apply all_categories_defined. intros c Hc.
  rewrite total_spending_lookup by exact Hc. eauto.
Qed.

Lemma category_rows_ok_or_zde quarter_df city_names category :
  ok_or_zde
    (category_rows quarter_df (total_spending quarter_df city_names)
       city_names category).
Proof.
  unfold category_rows. apply for_each_ok_or_zde.
  intros [sp pc] c Hc. rewrite getitem_total by exact Hc. simpl.
  unfold Float.div. destruct (Qeq_bool _ 0); simpl; auto.
Qed.

Lemma category_rows_zero_total quarter_df city_names category city :
  city ∈ city_names ->
  (amount_sum (filter (fun r => City r = city) quarter_df) == 0)%Q ->
  category_rows quarter_df (total_spending quarter_df city_names)
    city_names category
  = Raise ZeroDivisionError.
Proof.
  intros Hc Hzero. unfold category_rows.
  apply for_each_raises with (x0 := city); [exact Hc| |].
  - intros [sp pc]. rewrite getitem_total by exact Hc. simpl.
    unfold Float.div. apply Qeq_bool_iff in Hzero. rewrite Hzero. reflexivity.
  - intros [sp pc] c Hc'. rewrite getitem_total by exact Hc'. simpl.
    unfold Float.div. destruct (Qeq_bool _ 0); simpl; auto.
Qed.

Lemma quarter_tables_ok_or_zde df city_names quarter :
  ok_or_zde (quarter_tables df city_names quarter).
Proof.
  unfold quarter_tables.
  destruct (all_categories_ok (quarter_rows df quarter) city_names)
    as [[sp_all pc_all] ->]. simpl.
  apply for_each_ok_or_zde. intros [sp_q pc_q] category _.
  pose proof (category_rows_ok_or_zde (quarter_rows df quarter) city_names category) as H.
  destruct (category_rows _ _ _ _) as [[sp pc]|e]; simpl in *; auto.
Qed.

Lemma quarter_tables_zero_total df city_names quarter city :
  df <> [] ->
  city ∈ city_names ->
  (city_total df quarter city == 0)%Q ->
  quarter_tables df city_names quarter = Raise ZeroDivisionError.
Proof.
  intros Hdf Hc Hzero. unfold quarter_tables.
  destruct (all_categories_ok (quarter_rows df quarter) city_names)
    as [[sp_all pc_all] ->]. simpl.
  destruct df as [|r df']; [congruence|].
  apply for_each_raises with (x0 := ExpType r).
  - apply unique_from_complete; [left|apply not_elem_of_nil].
  - intros [sp_q pc_q].
    rewrite (category_rows_zero_total _ _ _ city Hc Hzero). reflexivity.
  - intros [sp_q pc_q] category _.
    pose proof (category_rows_ok_or_zde (quarter_rows (r :: df') quarter)
                  city_names category) as H.
    destruct (category_rows _ _ _ _) as [[sp pc]|e]; simpl in *; auto.
Qed.

(** C3 (fails on the code).  The claim wants the aggregator to complete and
    to store NaN for a city whose quarter total is zero.  The shares are
    quotients of Python floats, so the division of line 160 raises: as soon
    as the data has a row and some listed city has a zero total in some
    listed quarter, the call ends in ZeroDivisionError and returns no table. *)
Theorem zero_total_raises df city_names quarters quarter city :
  df <> [] ->
  quarter ∈ quarters ->
  city ∈ city_names ->
  (city_total df quarter city == 0)%Q ->
  calculate_spending_by_category_and_quarter df city_names quarters
  = Raise ZeroDivisionError.
Proof.
  intros Hdf Hq Hc Hzero. unfold calculate_spending_by_category_and_quarter.
  apply for_each_raises with (x0 := quarter); [exact Hq| |].
  - intros [sd pd].
    rewrite (quarter_tables_zero_total df city_names quarter city Hdf Hc Hzero).
    reflexivity.
  - intros [sd pd] q _.
    pose proof (quarter_tables_ok_or_zde df city_names q) as H.
    destruct (quarter_tables df city_names q) as [[sp pc]|e]; simpl in *; auto.
Qed.

Lemma zero_total_raises_witness :
  calculate_spending_by_category_and_quarter
    [ {| City := "Pune"; ExpType := "Food"; YearQuarter := "2014-Q1"; Amount := 10 |};
      {| City := "Pune"; ExpType := "Food"; YearQuarter := "2014-Q2"; Amount := 5 |};
      {| City := "Delhi, India"; ExpType := "Food"; YearQuarter := "2014-Q1"; Amount := 7 |} ]
    ["Pune"; "Delhi, India"] ["All Time"; "2014-Q1"; "2014-Q2"]
  = Raise ZeroDivisionError.
Proof.
  apply (zero_total_raises _ _ _ "2014-Q2" "Delhi, India").
  - discriminate.
  - apply list_elem_of_In. simpl. auto.
  - apply list_elem_of_In. simpl. auto.
  - reflexivity.
Defined.

(** * Where the estimator and the mapper do behave *)

(** With a window that is not empty the mapper returns three channels. *)
Lemma get_heatmap_color_defined percentage min_percentage max_percentage :
  ~ (max_percentage == min_percentage)%Q ->
  exists r g b,
    get_heatmap_color percentage min_percentage max_percentage = Ok [r; g; b].
Proof.
  intros Hne. unfold get_heatmap_color, Float.div.
  destruct (Qeq_bool (Float.sub max_percentage min_percentage) 0) eqn:E.
  - exfalso. apply Hne. apply Qeq_bool_iff in E.
    unfold Float.sub in E. rewrite Qred_correct in E. lra.
  - simpl. repeat (destruct (Float.ltb _ _); [eauto|]). eauto.
Qed.

Lemma uniform_positive u low high :
  (0 <= u)%Q -> (0 < low)%Q -> (low <= high)%Q ->
  PyFloat.positive (Fin (uniform u low high)).
Proof.
  intros Hu Hlow Hhigh. unfold PyFloat.positive, PyFloat.gt0.
  apply Float_ltb_lt. unfold uniform, Float.add, Float.mul, Float.sub.
  rewrite !Qred_correct.
  assert (0 <= (high - low) * u)%Q by (apply Qmult_le_0_compat; lra).
  lra.
Qed.

Lemma estimate_from_type_positive u building :
  (0 <= u)%Q -> PyFloat.positive (estimate_from_type u building).
Proof.
  intros Hu. unfold estimate_from_type.
  repeat (destruct (cell_in _ _));
    apply uniform_positive; try exact Hu; reflexivity || discriminate.
Qed.

Lemma levels_height_positive levels :
  PyFloat.gt0 levels = true -> PyFloat.positive (PyFloat.mul levels (Fin 3.5)).
Proof.
  unfold PyFloat.positive. destruct levels as [q| | |]; simpl; try discriminate.
  - intros Hq. apply Float_ltb_lt in Hq. apply Float_ltb_lt.
    unfold Float.mul. rewrite Qred_correct. lra.
  - reflexivity.
Qed.

(** The estimate is strictly positive on every path but one: a levels tag
    that parses to a value not above zero. *)
Lemma estimate_building_height_positive_unless u building :
  (0 <= u)%Q ->
  PyFloat.positive (estimate_building_height u building)
  \/ exists levels_str levels,
       building !! "building:levels" = Some (Text levels_str)
       /\ PyFloat.of_string levels_str = Ok levels
       /\ PyFloat.gt0 levels = false.
Proof.
  intros Hu.
  assert (Hlev : PyFloat.positive (estimate_from_levels u building)
                 \/ exists levels_str levels,
                      building !! "building:levels" = Some (Text levels_str)
                      /\ PyFloat.of_string levels_str = Ok levels
                      /\ PyFloat.gt0 levels = false).
  { unfold estimate_from_levels.
    destruct (building !! "building:levels") as [[|levels_str]|] eqn:El;
      try (left; apply estimate_from_type_positive, Hu).
    destruct (PyFloat.of_string levels_str) as [levels|e] eqn:Ep;
      [|left; apply estimate_from_type_positive, Hu].
    destruct (PyFloat.gt0 levels) eqn:Eg.
    - left. apply levels_height_positive, Eg.
    - right. eauto. }
  unfold estimate_building_height.
  destruct (building !! "height") as [[|height_str]|]; try exact Hlev.
  destruct (parse_height height_str) as [height|e]; [|exact Hlev].
  destruct (PyFloat.gt0 height) eqn:Eg; left; [exact Eg|reflexivity].
Qed.

(** ** The colours of a slice are always computed *)

Lemma mapM_defined {A B} (f : A -> result B) (l : list A) :
  (forall x, x ∈ l -> exists y, f x = Ok y) ->
  exists ys, mapM f l = Ok ys /\ length ys = length l.
Proof.
  induction l as [|x l IH]; intros Hf.
  - exists []. split; reflexivity.
  - destruct (Hf x ltac:(left)) as [y Hy].
    destruct IH as (ys & Hys & Hlen).
    { intros x' Hx'. apply Hf. right. exact Hx'. }
    exists (y :: ys). cbn [mapM]. rewrite Hy, Hys. simpl.
    split; [reflexivity|]. rewrite Hlen. reflexivity.
Qed.

Lemma scale_range_proper_window percentage_values :
  percentage_values <> [] ->
  exists min_percentage max_percentage,
    scale_range percentage_values = Ok (min_percentage, max_percentage)
    /\ (min_percentage < max_percentage)%Q.
Proof.
  intros Hne. unfold scale_range. rewrite (mean_defined _ Hne). simpl.
  destruct (py_min_le _ Hne) as (dmin & -> & _).
  destruct (py_max_ge _ Hne) as (dmax & -> & _). simpl.
  set (avg := Qred (py_sum percentage_values / Float.of_Z (len percentage_values))).
  eexists _, _. split; [reflexivity|].
  pose proof (Float_min2_le_r dmin (Float.sub avg 1)) as Hlo.
  pose proof (Float_max2_ge_r dmax (Float.add avg 1)) as Hhi.
  unfold Float.sub in Hlo at 2. unfold Float.add in Hhi at 1.
  rewrite Qred_correct in Hlo, Hhi. lra.
Qed.

(** Inside [generate_citymaps] the window handed to the mapper is never
    empty: with at least one city, and a percentage recorded for every
    city, the range and the colour of every city are computed. *)
Lemma generate_citymaps_slice_defined (category_percentages : gmap string Q)
  (city_coords : list CityEntry) :
  city_coords <> [] ->
  (forall city, city ∈ city_coords ->
   is_Some (category_percentages !! name city)) ->
  exists range colors,
    generate_citymaps_slice category_percentages city_coords = Ok (range, colors)
    /\ length colors = length city_coords.
Proof.
  intros Hne Hall. unfold generate_citymaps_slice.
  assert (Hget : forall city, city ∈ city_coords ->
            exists p, getitem category_percentages (name city) = Ok p).
  { intros city Hc. destruct (Hall city Hc) as [p Hp].
    exists p. unfold getitem. rewrite Hp. reflexivity. }
  destruct (mapM_defined _ _ Hget) as (values & -> & Hlen). simpl.
  assert (Hvalues : values <> []).
  { destruct values; [|discriminate]. destruct city_coords; [congruence|discriminate]. }
  destruct (scale_range_proper_window values Hvalues) as (mn & mx & -> & Hlt).
  simpl.
  destruct (mapM_defined
              (fun city_info =>
                 percentage ← getitem category_percentages (name city_info);
                 color ← get_heatmap_color percentage mn mx;
                 Ok (index city_info, color)) city_coords) as (colors & -> & Hc).
  { intros city Hcity. destruct (Hget city Hcity) as [p ->]. simpl.
    destruct (get_heatmap_color_defined p mn mx) as (r & g & b & ->); [lra|].
    simpl. eauto. }
  simpl. eauto.
Qed.

(** * Further properties of the colour gradient *)

Lemma to_int_floor q : (0 <= q)%Q -> Float.to_int q = Qfloor q.
Proof.
  destruct q as [n d]. unfold Qle, Float.to_int, Qfloor. simpl.
  intros Hn. apply Z.quot_div_nonneg; lia.
Qed.

Lemma to_int_bounds q n :
  (0 <= q)%Q -> (q <= inject_Z n)%Q -> 0 <= Float.to_int q <= n.
Proof.
  intros H0 Hn. rewrite to_int_floor by exact H0. split.
  - change 0 with (Qfloor 0). apply Qfloor_resp_le, H0.
  - rewrite <- (Qfloor_Z n). apply Qfloor_resp_le, Hn.
Qed.

Lemma to_int_zero q : (q == 0)%Q -> Float.to_int q = 0.
Proof.
  intros Hq.
  assert (Hlo : (0 <= q)%Q) by (rewrite Hq; apply Qle_refl).
  assert (Hhi : (q <= inject_Z 0)%Q) by (rewrite Hq; apply Qle_refl).
  pose proof (to_int_bounds q 0 Hlo Hhi). lia.
Qed.

(** The normalised position of a value in a proper window. *)
Lemma normalized_defined percentage min_percentage max_percentage :
  (min_percentage < max_percentage)%Q ->
  exists normalized,
    Float.div (Float.sub percentage min_percentage)
              (Float.sub max_percentage min_percentage) = Ok normalized
    /\ (normalized * (max_percentage - min_percentage)
        == percentage - min_percentage)%Q.
Proof.
  intros Hlt. unfold Float.div.
  destruct (Qeq_bool (Float.sub max_percentage min_percentage) 0) eqn:E.
  - apply Qeq_bool_iff in E. unfold Float.sub in E.
    rewrite Qred_correct in E. lra.
  - eexists. split; [reflexivity|]. unfold Float.sub.
    rewrite !Qred_correct. field. lra.
Qed.


Lemma get_heatmap_color_unfold percentage min_percentage max_percentage normalized :
  Float.div (Float.sub percentage min_percentage)
            (Float.sub max_percentage min_percentage) = Ok normalized ->
  get_heatmap_color percentage min_percentage max_percentage
  = if Float.ltb normalized 0.25 then
      Ok [0; Float.to_int (Float.mul (Float.mul normalized 4) 255) + 200; 200]
    else if Float.ltb normalized 0.5 then
      Ok [0; 255; Float.to_int (Float.mul (Float.mul (Float.sub 0.5 normalized) 4) 255)]
    else if Float.ltb normalized 0.75 then
      Ok [Float.to_int (Float.mul (Float.mul (Float.sub normalized 0.5) 4) 255); 255; 0]
    else
      Ok [255; Float.to_int (Float.mul (Float.mul (Float.sub 1 normalized) 4) 255); 0].
Proof.
  intros E. unfold get_heatmap_color. rewrite E. reflexivity.
Qed.

Lemma to_int_lt q n :
  (0 <= q)%Q -> (q < inject_Z n)%Q -> 0 <= Float.to_int q < n.
Proof.
  intros H0 Hn. rewrite to_int_floor by exact H0. split.
  - change 0 with (Qfloor 0). apply Qfloor_resp_le, H0.
  - pose proof (Qfloor_le q) as Hf.
    assert (Hq : (inject_Z (Qfloor q) < inject_Z n)%Q) by lra.
    rewrite <- Zlt_Qlt in Hq. exact Hq.
Qed.

Ltac float_exact :=
  unfold Float.mul, Float.sub, Float.add, inject_Z; rewrite ?Qred_correct.

Lemma ltb_true a b : (a < b)%Q -> Float.ltb a b = true.
Proof. apply Float_ltb_lt. Qed.

Lemma ltb_false a b : (b <= a)%Q -> Float.ltb a b = false.
Proof. apply Float_ltb_ge. Qed.


(** Outside the window the two mappers part: below the lower end Python's
    [int] rounds towards zero where the page's [Math.floor] rounds down. *)
Example get_heatmap_color_differs_below :
  get_heatmap_color (-1) 0 1000 = Ok [0; 199; 200]
  /\ getHeatmapColor (-1) 0 1000 = [0; 198; 200].
Proof. split; reflexivity. Qed.

(** * Further properties of the height estimator *)

Lemma estimate_type_rule u building :
  height_usable building = false -> levels_usable building = false ->
  estimate_building_height u building = estimate_from_type u building.
Proof.
  unfold height_usable, levels_usable, estimate_building_height,
    estimate_from_levels.
  intros Hh Hl.
  destruct (building !! "height") as [[|height_str]|];
    [| destruct (parse_height height_str); [discriminate|] |];
    (destruct (building !! "building:levels") as [[|levels_str]|];
     [| destruct (PyFloat.of_string levels_str); [discriminate|] |]);
    reflexivity.
Qed.

Lemma uniform_within u low high :
  unit_sample u -> (low < high)%Q -> within (Fin (uniform u low high)) low high.
Proof.
  intros [H0 H1] Hlt. exists (uniform u low high). split; [reflexivity|].
  unfold uniform. float_exact. split; nra.
Qed.

Lemma within_weaken x low high low' high' :
  within x low high -> (low' <= low)%Q -> (high <= high')%Q ->
  within x low' high'.
Proof.
  intros (h & -> & Hl & Hh) Hlow Hhigh. exists h.
  split; [reflexivity|]. split; lra.
Qed.

Lemma cell_in_false x l : x ∉ Text <$> l -> cell_in x l = false.
Proof. intros H. unfold cell_in. apply bool_decide_eq_false_2. exact H. Qed.

Lemma estimate_from_type_eval u building (t : string) :
  building_type building = Text t ->
  estimate_from_type u building
  = if cell_in (Text t) high_buildings then Fin (uniform u 20 40)
    else if cell_in (Text t) medium_buildings then Fin (uniform u 10 20)
    else if cell_in (Text t) low_buildings then Fin (uniform u 5 12)
    else if cell_in (Text t) very_low_buildings then Fin (uniform u 3 6)
    else if cell_in (Text t) civic_buildings then Fin (uniform u 15 30)
    else Fin (uniform u 8 18).
Proof.
  unfold building_type, estimate_from_type. intros ->. reflexivity.
Qed.

Lemma estimate_from_type_missing u building :
  building_type building = NA ->
  estimate_from_type u building = Fin (uniform u 8 18).
Proof.
  unfold building_type, estimate_from_type. intros ->. reflexivity.
Qed.

Ltac bucket_cases Hin :=
  repeat (apply elem_of_cons in Hin as [->|Hin]);
  [..|apply elem_of_nil in Hin; contradiction].

(** With a usable height or levels tag the estimate does not depend on the
    random draw. *)
Theorem estimate_deterministic_with_data building :
  height_usable building = true \/ levels_usable building = true ->
  forall u u', estimate_building_height u building
               = estimate_building_height u' building.
Proof.
  unfold height_usable, levels_usable, estimate_building_height,
    estimate_from_levels.
  intros H u u'.
  destruct (building !! "height") as [[|height_str]|];
    [| destruct (parse_height height_str); [reflexivity|] |];
    (destruct (building !! "building:levels") as [[|levels_str]|];
     [| destruct (PyFloat.of_string levels_str); [reflexivity|] |]);
    destruct H; discriminate.
Qed.

Lemma estimate_deterministic_with_data_witness :
  estimate_building_height 0 {[ "building:levels" := Text "4" ]}
  = estimate_building_height (1 # 2) {[ "building:levels" := Text "4" ]}.
Proof.
  apply (estimate_deterministic_with_data {[ "building:levels" := Text "4" ]}).
  right. reflexivity.
Defined.

(** ** Numerals with a unit *)

Lemma chars_app s1 s2 : Str.chars (s1 +:+ s2) = Str.chars s1 ++ Str.chars s2.
Proof.
  unfold Str.chars. induction s1 as [|c s1 IH]; simpl; [reflexivity|].
  rewrite IH. reflexivity.
Qed.

Lemma digits_rest_digits ds : forall acc n,
  Forall is_digit ds ->
  PyFloat.digits_rest acc n ds
  = (digits_value acc ds, (n + length ds)%nat, []).
Proof.
  induction ds as [|c ds IH]; intros acc n Hds.
  - simpl. rewrite Nat.add_0_r. reflexivity.
  - inversion Hds as [|? ? [d Hd] Hrest]; subst.
    cbn [PyFloat.digits_rest]. rewrite Hd. rewrite IH by exact Hrest.
    unfold digits_value. cbn [foldl length]. rewrite Hd. cbn [default].
    replace (S n + length ds)%nat with (n + S (length ds))%nat by lia.
    reflexivity.
Qed.

Lemma digit_not_space c : is_digit c -> Str.is_space c = false.
Proof.
  unfold is_digit, PyFloat.digit_val, Str.is_space. intros [d Hd].
  destruct ((48 <=? nat_of_ascii c)%nat && (nat_of_ascii c <=? 57)%nat) eqn:E;
    [|discriminate].
  apply andb_true_iff in E as [E1 E2].
  apply Nat.leb_le in E1, E2.
  apply orb_false_iff. split; apply andb_false_iff.
  - right. apply Nat.leb_gt. lia.
  - right. apply Nat.leb_gt. lia.
Qed.

Lemma lstrip_digits ds : Forall is_digit ds -> Str.lstrip ds = ds.
Proof.
  intros Hds. destruct Hds as [|c ds Hc _]; simpl; [reflexivity|].
  rewrite (digit_not_space c Hc). reflexivity.
Qed.

Lemma strip_digits ds : Forall is_digit ds -> Str.strip ds = ds.
Proof.
  intros Hds. unfold Str.strip. rewrite (lstrip_digits ds Hds).
  rewrite lstrip_digits by (apply Forall_rev, Hds).
  apply rev_involutive.
Qed.

Lemma strip_digits_space ds :
  Forall is_digit ds -> Str.strip (ds ++ [" "%char]) = ds.
Proof.
  intros Hds. unfold Str.strip.
  destruct ds as [|c ds]; [reflexivity|].
  assert (E : Str.lstrip ((c :: ds) ++ [" "%char]) = (c :: ds) ++ [" "%char]).
  { simpl. rewrite (digit_not_space c) by (inversion Hds; assumption).
    reflexivity. }
  rewrite E, rev_app_distr.
  change (rev [" "%char]) with [" "%char]. cbn [app Str.lstrip].
  change (Str.is_space " ") with true. cbv iota.
  rewrite lstrip_digits by (apply Forall_rev, Hds).
  apply rev_involutive.
Qed.

Lemma digit_is_not c (x : ascii) :
  is_digit c -> PyFloat.digit_val x = None -> Ascii.eqb x c = false.
Proof.
  intros [d Hd] Hx. apply Ascii.eqb_neq. intros ->. congruence.
Qed.

Lemma replace_digits (old : ascii) rest new ds tail :
  PyFloat.digit_val old = None ->
  Forall is_digit ds ->
  Str.replace_from (old :: rest) new 0 (ds ++ tail)
  = ds ++ Str.replace_from (old :: rest) new 0 tail.
Proof.
  intros Hold Hds. induction Hds as [|c ds Hc _ IH]; [reflexivity|].
  cbn [app Str.replace_from Str.is_prefix].
  rewrite (digit_is_not c old Hc Hold). rewrite IH. reflexivity.
Qed.

Lemma replace_digits_only (old : ascii) rest new ds :
  PyFloat.digit_val old = None ->
  Forall is_digit ds ->
  Str.replace_from (old :: rest) new 0 ds = ds.
Proof.
  intros Hold Hds.
  rewrite <- (app_nil_r ds) at 1.
  rewrite replace_digits by assumption. simpl. apply app_nil_r.
Qed.

Lemma lower_digit c : is_digit c -> Str.lower c = c.
Proof.
  unfold is_digit, PyFloat.digit_val, Str.lower. intros [d Hd].
  destruct ((48 <=? nat_of_ascii c)%nat && (nat_of_ascii c <=? 57)%nat) eqn:E;
    [|discriminate].
  apply andb_true_iff in E as [E1 E2]. apply Nat.leb_le in E1, E2.
  replace (65 <=? nat_of_ascii c)%nat with false; [reflexivity|].
  symmetry. apply Nat.leb_gt. lia.
Qed.

Lemma eq_nocase_digit c ds (x : ascii) lit :
  is_digit c -> PyFloat.digit_val x = None ->
  Str.eq_nocase (c :: ds) (String x lit) = false.
Proof.
  intros Hc Hx. unfold Str.eq_nocase. apply bool_decide_eq_false_2.
  cbn [map]. rewrite (lower_digit c Hc).
  change (Str.chars (String x lit)) with (x :: Str.chars lit).
  intros [= -> _]. destruct Hc as [d Hd]. congruence.
Qed.

Lemma digit_differs c (x : ascii) :
  is_digit c -> PyFloat.digit_val x = None -> Ascii.eqb c x = false.
Proof.
  intros [d Hd] Hx. apply Ascii.eqb_neq. intros ->. congruence.
Qed.

Lemma Qred_inject_Z z : Qred (inject_Z z) = inject_Z z.
Proof.
  unfold Qred, inject_Z.
  pose proof (Z.ggcd_gcd z 1) as Hg.
  pose proof (Z.ggcd_correct_divisors z 1) as Hd.
  destruct (Z.ggcd z 1) as [g [a b]]. simpl in Hg, Hd. simpl.
  rewrite Z.gcd_1_r in Hg. destruct Hd as [Ha Hb].
  assert (a = z) by lia. assert (b = 1) by lia. subst a b g.
  reflexivity.
Qed.

(** [float] of a non-empty string of decimal digits is its value. *)
Lemma of_chars_digits c ds :
  Forall is_digit (c :: ds) ->
  PyFloat.of_chars (c :: ds) = Ok (Fin (inject_Z (digits_value 0 (c :: ds)))).
Proof.
  intros Hds. pose proof Hds as Hds'.
  inversion Hds' as [|? ? Hc Hrest]; subst. destruct (Hc) as [d Hd].
  unfold PyFloat.of_chars. rewrite (strip_digits _ Hds).
  unfold PyFloat.sign.
  rewrite (digit_differs c "-" Hc eq_refl), (digit_differs c "+" Hc eq_refl).
  unfold PyFloat.absfloatvalue.
  rewrite !(eq_nocase_digit c ds) by (exact Hc || reflexivity).
  cbn [orb].
  unfold PyFloat.number, PyFloat.digitpart. rewrite Hd.
  rewrite (digits_rest_digits ds d 1 Hrest).
  cbn [PyFloat.exponent]. unfold PyFloat.scale10.
  change (0 - Z.of_nat 0) with 0. change (0 <=? 0) with true. cbv iota.
  rewrite Z.pow_0_r, Z.mul_1_r, Qred_inject_Z.
  unfold digits_value. cbn [foldl]. rewrite Hd. reflexivity.
Qed.

Lemma pretty_char_digit x :
  (x < 10)%N -> PyFloat.digit_val (pretty_N_char x) = Some (Z.of_N x).
Proof.
  intros Hx.
  assert (x = 0 \/ x = 1 \/ x = 2 \/ x = 3 \/ x = 4 \/ x = 5 \/ x = 6
          \/ x = 7 \/ x = 8 \/ x = 9)%N as H by lia.
  repeat (destruct H as [->|H]; [reflexivity|]). subst. reflexivity.
Qed.

Lemma digits_value_snoc acc ds c :
  digits_value acc (ds ++ [c])
  = 10 * digits_value acc ds + default 0 (PyFloat.digit_val c).
Proof. unfold digits_value. rewrite foldl_app. reflexivity. Qed.

Lemma pretty_go_digits x : forall s,
  exists pre,
    Str.chars (pretty_N_go x s) = pre ++ Str.chars s
    /\ Forall is_digit pre
    /\ digits_value 0 pre = Z.of_N x
    /\ ((0 < x)%N -> pre <> []).
Proof.
  induction (N.lt_wf_0 x) as [x _ IH]. intros s.
  assert (x = 0 \/ 0 < x)%N as [->|Hpos] by lia.
  - exists []. rewrite pretty_N_go_0. repeat split; [constructor|lia].
  - rewrite pretty_N_go_step by exact Hpos.
    destruct (IH (x `div` 10)%N ltac:(apply N.div_lt; lia)
                (String (pretty_N_char (x `mod` 10)) s))
      as (pre & Hchars & Hpre & Hval & _).
    pose proof (pretty_char_digit (x `mod` 10)%N ltac:(apply N.mod_lt; lia)) as Hd.
    exists (pre ++ [pretty_N_char (x `mod` 10)]). repeat split.
    + rewrite Hchars. rewrite <- app_assoc. reflexivity.
    + apply Forall_app. split; [exact Hpre|].
      constructor; [|constructor]. unfold is_digit. rewrite Hd. eauto.
    + rewrite digits_value_snoc, Hval, Hd. cbn [default].
      pose proof (N.div_mod x 10 ltac:(lia)) as Hx. unfold id. lia.
    + intros _ E. apply app_eq_nil in E as [_ E]. discriminate.
Qed.

Lemma pretty_positive_digits (n : positive) :
  exists c ds,
    Str.chars (py_str (Zpos n)) = c :: ds
    /\ Forall is_digit (c :: ds)
    /\ digits_value 0 (c :: ds) = Zpos n.
Proof.
  destruct (pretty_go_digits (Npos n) "") as (pre & Hchars & Hpre & Hval & Hne).
  unfold py_str, pretty, pretty_Z, pretty, pretty_positive, pretty, pretty_N.
  rewrite decide_False by discriminate.
  rewrite Hchars. change (Str.chars "") with (@nil ascii). rewrite app_nil_r.
  destruct pre as [|c ds]; [exfalso; apply Hne; [lia|reflexivity]|].
  exists c, ds. repeat split; assumption.
Qed.

Lemma parse_height_numeral (n : positive) unit :
  unit ∈ [""; "m"; " m"; "ft"; " ft"] ->
  parse_height (py_str (Zpos n) +:+ unit) = Ok (Fin (inject_Z (Zpos n))).
Proof.
  intros Hunit.
  destruct (pretty_positive_digits n) as (c & ds & Hchars & Hds & Hval).
  unfold parse_height, Str.replace. rewrite chars_app, Hchars.
  change (Str.chars "m") with ["m"%char].
  change (Str.chars "ft") with ["f"%char; "t"%char].
  change (Str.chars "") with (@nil ascii).
  rewrite (replace_digits "m" [] [] (c :: ds)) by (reflexivity || exact Hds).
  rewrite (replace_digits "f" ["t"%char] [] (c :: ds)) by (reflexivity || exact Hds).
  assert (Hres :
    Str.replace_from ["f"%char; "t"%char] [] 0
      (Str.replace_from ["m"%char] [] 0 (Str.chars unit)) = []
    \/ Str.replace_from ["f"%char; "t"%char] [] 0
         (Str.replace_from ["m"%char] [] 0 (Str.chars unit)) = [" "%char]).
  { bucket_cases Hunit; [left|left|right|left|right]; reflexivity. }
  destruct Hres as [-> | ->].
  - rewrite app_nil_r, (strip_digits _ Hds), (of_chars_digits c ds Hds), Hval.
    reflexivity.
  - rewrite (strip_digits_space _ Hds), (of_chars_digits c ds Hds), Hval.
    reflexivity.
Qed.

(** * Further properties of the building cache *)

Lemma fetch_all_length fetch city_names :
  length (fetch_all fetch city_names)
  = length (filter (fun city => is_ok (fetch city) = true) city_names).
Proof.
  induction city_names as [|city rest IH]; [reflexivity|].
  cbn [fetch_all]. rewrite filter_cons.
  destruct (fetch city) as [converted|e].
  - rewrite decide_True by reflexivity. cbn [length]. rewrite IH. reflexivity.
  - rewrite decide_False by discriminate. exact IH.
Qed.

Lemma fetch_all_aligned fetch city_names :
  Forall (fun city => is_ok (fetch city) = true) city_names ->
  Forall2 (fun city converted => fetch city = Ok converted)
          city_names (fetch_all fetch city_names).
Proof.
  induction 1 as [|city rest Hc _ IH]; [constructor|].
  cbn [fetch_all]. destruct (fetch city) as [converted|e] eqn:E;
    [|discriminate].
  constructor; [exact E|exact IH].
Qed.

Lemma sort_desc_sorted_id {A} (key : A -> nat) l :
  StronglySorted (fun a b => (key b <= key a)%nat) l -> sort_desc key l = l.
Proof.
  induction 1 as [|x l Hs IH Hx]; [reflexivity|].
  cbn [sort_desc]. rewrite IH.
  destruct Hx as [|y l' Hy _]; [reflexivity|].
  cbn [insert_desc]. apply Nat.leb_le in Hy. rewrite Hy. reflexivity.
Qed.

Lemma zip_longest_first {N A} (names : list N) (cache : list (list A)) :
  longest_first cache ->
  StronglySorted (fun a b : N * list A => (length b.2 <= length a.2)%nat)
                 (zip names cache).
Proof.
  unfold longest_first. intros Hs. revert names.
  induction Hs as [|x l Hs IH Hx]; intros [|n names]; simpl; try constructor.
  - apply IH.
  - apply Forall_forall. intros [n' y] Hin. simpl.
    rewrite Forall_forall in Hx. apply Hx.
    apply elem_of_zip_r in Hin. exact Hin.
Qed.

(** A cache already in non-increasing order of length is returned as it
    is, and a cache in any other order is not: the lists stay aligned with
    the configured city names exactly when the cache is already ordered. *)
Theorem get_buildings_data_load_fixpoint fetch cache city_names :
  length cache = length city_names -> city_names <> [] ->
  (get_buildings_data fetch cache city_names true = Ok cache
   <-> longest_first cache).
Proof.
  intros Hlen Hne. rewrite get_buildings_data_load.
  pose proof (snd_zip city_names cache ltac:(lia)) as Hsnd.
  destruct (zip city_names cache) as [|p l] eqn:E.
  { destruct city_names, cache; simpl in *; congruence. }
  split.
  - intros [= Hres]. rewrite <- Hres.
    apply longest_first_snd.
    exact (sort_desc_sorted (fun x : string * list BuildingRecord => length x.2) (p :: l)).
  - intros Hs. rewrite <- E.
    rewrite (sort_desc_sorted_id _ _ (zip_longest_first city_names cache Hs)).
    rewrite E, Hsnd. reflexivity.
Qed.

Lemma get_buildings_data_load_fixpoint_witness :
  let b := {| coordinates := []; height := Fin 10 |} in
  get_buildings_data (fun _ => Raise KeyError) [[b; b]; [b]] ["Pune"; "Delhi, India"] true
  = Ok [[b; b]; [b]]
  <-> longest_first [[b; b]; [b]].
Proof.
  intros b.
  apply (get_buildings_data_load_fixpoint (fun _ => Raise KeyError)
           [[b; b]; [b]] ["Pune"; "Delhi, India"]); [reflexivity|discriminate].
Defined.

Lemma filter_snd_length {N A} (pairs : list (N * list A)) k :
  filter (fun l => length l = k) pairs.*2
  = (filter (fun x : N * list A => length x.2 = k) pairs).*2.
Proof.
  induction pairs as [|p pairs IH]; [reflexivity|].
  rewrite fmap_cons, !filter_cons, IH.
  destruct (decide (length p.2 = k)); reflexivity.
Qed.

(** Cached lists of the same length come back in their cache order. *)
Theorem get_buildings_data_load_stable fetch cache city_names buildings_data k :
  length cache = length city_names ->
  get_buildings_data fetch cache city_names true = Ok buildings_data ->
  filter (fun l => length l = k) buildings_data
  = filter (fun l => length l = k) cache.
Proof.
  intros Hlen. rewrite get_buildings_data_load.
  pose proof (snd_zip city_names cache ltac:(lia)) as Hsnd.
  destruct (zip city_names cache) as [|p l] eqn:E; [discriminate|].
  intros [= <-]. rewrite <- Hsnd.
  rewrite !filter_snd_length. f_equal.
  exact (sort_desc_stable (fun x : string * list BuildingRecord => length x.2) (p :: l) k).
Qed.

Lemma get_buildings_data_load_stable_witness :
  let a := {| coordinates := []; height := Fin 10 |} in
  let b := {| coordinates := []; height := Fin 20 |} in
  let c := {| coordinates := []; height := Fin 30 |} in
  filter (fun l => length l = 1%nat) [[c; c]; [a]; [b]]
  = filter (fun l => length l = 1%nat) [[a]; [c; c]; [b]].
Proof.
  intros a b c.
  apply (get_buildings_data_load_stable (fun _ => Raise KeyError)
           [[a]; [c; c]; [b]] ["Pune"; "Delhi, India"; "Ahmedabad, India"]
           [[c; c]; [a]; [b]] 1%nat); reflexivity.
Defined.

(** * Further properties of the city entries *)

Lemma get_city_coords_length geocode buildings_data city_names :
  length (get_city_coords geocode buildings_data city_names)
  = (length city_names `min` length buildings_data)%nat.
Proof.
  unfold get_city_coords, slice_upto, len.
  rewrite length_imap, length_zip_with, length_take.
  destruct (Z.of_nat (length city_names) <? 0) eqn:E.
  - apply Z.ltb_lt in E. lia.
  - lia.
Qed.

(** There is one entry per city that has a cached list at its position,
    in city order: the i-th entry carries the i-th configured name and the
    index i, for every i below both the number of names and the number of
    lists; cities beyond the cached lists get no entry. *)
Theorem get_city_coords_entries geocode buildings_data city_names :
  length (get_city_coords geocode buildings_data city_names)
  = (length city_names `min` length buildings_data)%nat
  /\ name <$> get_city_coords geocode buildings_data city_names
     = take (length buildings_data) city_names
  /\ index <$> get_city_coords geocode buildings_data city_names
     = Z.of_nat <$> seq 0 (length city_names `min` length buildings_data).
Proof.
  split; [apply get_city_coords_length|].
  pose proof (get_city_coords_length geocode buildings_data city_names) as Hlen.
  split.
  - apply list_eq. intros i. rewrite list_lookup_fmap.
    destruct (get_city_coords geocode buildings_data city_names !! i) as [e|] eqn:E.
    + apply get_city_coords_lookup in E as (bl & Hb & Hn & _).
      simpl. symmetry. apply lookup_take_Some. split; [exact Hn|].
      apply lookup_lt_Some in Hb. exact Hb.
    + simpl. symmetry. apply lookup_ge_None. apply lookup_ge_None in E.
      rewrite length_take. lia.
  - apply list_eq. intros i. rewrite !list_lookup_fmap.
    destruct (get_city_coords geocode buildings_data city_names !! i) as [e|] eqn:E.
    + pose proof (lookup_lt_Some _ _ _ E) as Hi.
      apply get_city_coords_lookup in E as (bl & _ & _ & _ & Hidx).
      rewrite lookup_seq_lt by lia. simpl. rewrite Hidx. reflexivity.
    + apply lookup_ge_None in E. rewrite lookup_seq_ge by lia. reflexivity.
Qed.

Lemma get_city_coords_centre geocode buildings_data city_names i e :
  get_city_coords geocode buildings_data city_names !! i = Some e ->
  (lat e, lon e) = city_centre geocode (name e).
Proof.
  unfold get_city_coords. intros H.
  apply list_lookup_imap_Some in H as [[city_name city_buildings] [_ ->]].
  destruct (city_centre geocode city_name) as [la lo] eqn:E. simpl.
  rewrite E. reflexivity.
Qed.

(** Where an entry's coordinates come from.  When the geocoder raises for
    the entry's city the entry sits at (0.0, 0.0), also for the two cities
    with fixed coordinates; when it answers, Ahmedabad and Delhi get their
    fixed coordinates whatever the answer, and every other city gets the
    answer. *)
Theorem get_city_coords_centres geocode buildings_data city_names i e :
  get_city_coords geocode buildings_data city_names !! i = Some e ->
  (forall err, geocode (name e) = Raise err -> lat e = 0%Q /\ lon e = 0%Q)
  /\ (forall la lo, geocode (name e) = Ok (la, lo) ->
      (name e = "Ahmedabad, India" ->
       lat e = 23.021537%Q /\ lon e = 72.580057%Q)
      /\ (name e = "Delhi, India" ->
          lat e = 28.6448%Q /\ lon e = 77.2164%Q)
      /\ (name e <> "Ahmedabad, India" -> name e <> "Delhi, India" ->
          lat e = la /\ lon e = lo)).
Proof.
  intros H. apply get_city_coords_centre in H. unfold city_centre in H.
  split.
  - intros err Herr. rewrite Herr in H. injection H as -> ->. auto.
  - intros la lo Hok. rewrite Hok in H. split; [|split].
    + intros Hn. rewrite Hn in H. simpl in H.
      injection H as -> ->. auto.
    + intros Hn. rewrite Hn in H. simpl in H.
      injection H as -> ->. auto.
    + intros Ha Hd.
      destruct (String.eqb_spec (name e) "Ahmedabad, India"); [contradiction|].
      destruct (String.eqb_spec (name e) "Delhi, India"); [contradiction|].
      injection H as -> ->. auto.
Qed.

Lemma get_city_coords_centres_witness :
  let e := {| name := "Delhi, India"; lat := 0; lon := 0; buildings := []; index := 0 |} in
  (forall err, @Raise (Q * Q) KeyError = Raise err -> lat e = 0%Q /\ lon e = 0%Q)
  /\ (forall la lo, @Raise (Q * Q) KeyError = Ok (la, lo) ->
      (name e = "Ahmedabad, India" ->
       lat e = 23.021537%Q /\ lon e = 72.580057%Q)
      /\ (name e = "Delhi, India" ->
          lat e = 28.6448%Q /\ lon e = 77.2164%Q)
      /\ (name e <> "Ahmedabad, India" -> name e <> "Delhi, India" ->
          lat e = la /\ lon e = lo)).
Proof.
  intros e.
  apply (get_city_coords_centres (fun _ => Raise KeyError) [[]] ["Delhi, India"] 0%nat e).
  reflexivity.
Defined.

(** * Further properties of the spending aggregator *)

Lemma for_each_ext {A S} (l : list A) (body1 body2 : S -> A -> result S) :
  (forall s x, body1 s x = body2 s x) ->
  forall s, for_each l body1 s = for_each l body2 s.
Proof.
  intros Hext. induction l as [|x l IH]; intros s; [reflexivity|].
  cbn [for_each]. rewrite Hext. destruct (body2 s x); simpl; auto.
Qed.

Lemma for_each_defined {A S} (l : list A) (body : S -> A -> result S) :
  (forall s x, x ∈ l -> exists s', body s x = Ok s') ->
  forall s, exists r, for_each l body s = Ok r.
Proof.
  induction l as [|x l IH]; intros Hbody s; [simpl; eauto|].
  cbn [for_each]. destruct (Hbody s x ltac:(left)) as [s' ->]. simpl.
  apply IH. intros s0 y Hy. apply Hbody. right. exact Hy.
Qed.

(** A loop that stores a pair of values under each key it visits. *)
Lemma for_each_insert2 {V1 V2} (f : string -> result (V1 * V2)) l :
  forall (m1 r1 : gmap string V1) (m2 r2 : gmap string V2),
  for_each l
    (fun '(a, b) k => '(x, y) ← f k; Ok (<[ k := x ]> a, <[ k := y ]> b))
    (m1, m2) = Ok (r1, r2) ->
  forall k,
    (k ∈ l -> exists x y, f k = Ok (x, y)
                          /\ r1 !! k = Some x /\ r2 !! k = Some y)
    /\ (k ∉ l -> r1 !! k = m1 !! k /\ r2 !! k = m2 !! k).
Proof.
  induction l as [|q l IH]; intros m1 r1 m2 r2; simpl.
  - intros [= <- <-] k. split; [intros Hk; inversion Hk|auto].
  - destruct (f q) as [[x y]|] eqn:Eq; simpl; [|discriminate].
    intros Hrun k. destruct (IH _ _ _ _ Hrun k) as [Hin Hout].
    split.
    + intros Hk. destruct (decide (k ∈ l)) as [Hl|Hl]; [auto|].
      apply elem_of_cons in Hk as [->|Hk]; [|contradiction].
      exists x, y. destruct (Hout Hl) as [-> ->].
      rewrite !lookup_insert_eq. auto.
    + intros Hk. apply not_elem_of_cons in Hk as [Hne Hl].
      destruct (Hout Hl) as [-> ->].
      rewrite !lookup_insert_ne by congruence. auto.
Qed.

Lemma category_rows_lookup quarter_df total city_names category sp pc :
  category_rows quarter_df total city_names category = Ok (sp, pc) ->
  forall city,
    (city ∈ city_names ->
     exists t share,
       getitem total city = Ok t
       /\ Float.div
            (amount_sum (filter (fun r => City r = city /\ ExpType r = category)
                                quarter_df)) t = Ok share
       /\ sp !! city
          = Some (amount_sum (filter (fun r => City r = city /\ ExpType r = category)
                                     quarter_df))
       /\ pc !! city = Some (Float.mul share 100))
    /\ (city ∉ city_names -> sp !! city = None /\ pc !! city = None).
Proof.
  unfold category_rows. intros Hrun.
  erewrite for_each_ext with
    (body2 := fun '(a, b) k =>
       '(x, y) ← (t ← getitem total k;
                  share ← Float.div
                    (amount_sum (filter (fun r => City r = k /\ ExpType r = category)
                                        quarter_df)) t;
                  Ok (amount_sum (filter (fun r => City r = k /\ ExpType r = category)
                                         quarter_df),
                      Float.mul share 100));
       Ok (<[ k := x ]> a, <[ k := y ]> b)) in Hrun.
  2:{ intros [a b] k. destruct (getitem total k) as [t|]; simpl; [|reflexivity].
      destruct (Float.div _ t); reflexivity. }
  intros city. destruct (for_each_insert2 _ _ _ _ _ _ Hrun city) as [Hin Hout].
  split.
  - intros Hc. destruct (Hin Hc) as (x & y & Hf & Hx & Hy).
    destruct (getitem total city) as [t|]; simpl in Hf; [|discriminate].
    destruct (Float.div _ t) as [share|] eqn:Ed; simpl in Hf; [|discriminate].
    injection Hf as <- <-. exists t, share. auto.
  - intros Hc. destruct (Hout Hc) as [-> ->]. rewrite !lookup_empty. auto.
Qed.

Lemma all_categories_lookup total city_names sp pc :
  all_categories total city_names = Ok (sp, pc) ->
  forall city,
    (city ∈ city_names ->
     exists t, getitem total city = Ok t
               /\ sp !! city = Some t /\ pc !! city = Some 100%Q)
    /\ (city ∉ city_names -> sp !! city = None /\ pc !! city = None).
Proof.
  unfold all_categories. intros Hrun.
  erewrite for_each_ext with
    (body2 := fun '(a, b) k =>
       '(x, y) ← (t ← getitem total k; Ok (t, 100%Q));
       Ok (<[ k := x ]> a, <[ k := y ]> b)) in Hrun.
  2:{ intros [a b] k. destruct (getitem total k); reflexivity. }
  intros city. destruct (for_each_insert2 _ _ _ _ _ _ Hrun city) as [Hin Hout].
  split.
  - intros Hc. destruct (Hin Hc) as (x & y & Hf & Hx & Hy).
    destruct (getitem total city) as [t|]; simpl in Hf; [|discriminate].
    injection Hf as <- <-. exists t. auto.
  - intros Hc. destruct (Hout Hc) as [-> ->]. rewrite !lookup_empty. auto.
Qed.

Lemma unique_elem l x : x ∈ unique l <-> x ∈ l.
Proof.
  split; [apply unique_subset|].
  intros H. apply unique_from_complete; [exact H|apply not_elem_of_nil].
Qed.

Lemma quarter_tables_lookup df city_names quarter sp_q pc_q :
  quarter_tables df city_names quarter = Ok (sp_q, pc_q) ->
  exists sp_all pc_all,
    all_categories (total_spending (quarter_rows df quarter) city_names)
      city_names = Ok (sp_all, pc_all)
    /\ forall category,
         (category ∈ (ExpType <$> df) ->
          exists sp pc,
            category_rows (quarter_rows df quarter)
              (total_spending (quarter_rows df quarter) city_names)
              city_names category = Ok (sp, pc)
            /\ sp_q !! category = Some sp /\ pc_q !! category = Some pc)
         /\ (category ∉ (ExpType <$> df) ->
             sp_q !! category
             = ({[ "All Categories" := sp_all ]} : slice_table) !! category
             /\ pc_q !! category
                = ({[ "All Categories" := pc_all ]} : slice_table) !! category).
Proof.
  unfold quarter_tables. intros Hrun.
  destruct (all_categories _ city_names) as [[sp_all pc_all]|];
    simpl in Hrun; [|discriminate].
  exists sp_all, pc_all. split; [reflexivity|]. intros category.
  destruct (for_each_insert2 _ _ _ _ _ _ Hrun category) as [Hin Hout].
  rewrite unique_elem in Hin, Hout. split; assumption.
Qed.

Lemma calculate_tables df city_names quarters spending_data percentage_data :
  calculate_spending_by_category_and_quarter df city_names quarters
  = Ok (spending_data, percentage_data) ->
  forall quarter,
    (quarter ∈ quarters ->
     exists sp_q pc_q,
       quarter_tables df city_names quarter = Ok (sp_q, pc_q)
       /\ spending_data !! quarter = Some sp_q
       /\ percentage_data !! quarter = Some pc_q)
    /\ (quarter ∉ quarters ->
        spending_data !! quarter = None /\ percentage_data !! quarter = None).
Proof.
  unfold calculate_spending_by_category_and_quarter. intros Hrun quarter.
  destruct (for_each_insert2 _ _ _ _ _ _ Hrun quarter) as [Hin Hout].
  split; [exact Hin|]. intros Hq. destruct (Hout Hq) as [-> ->].
  rewrite !lookup_empty. auto.
Qed.

(** Which entries exist.  The two returned tables have an entry exactly
    for the listed quarters, the categories of the data together with
    "All Categories", and the listed cities. *)
Theorem entries_domain df city_names quarters spending_data percentage_data :
  calculate_spending_by_category_and_quarter df city_names quarters
  = Ok (spending_data, percentage_data) ->
  forall quarter category city,
    (is_Some (entry spending_data quarter category city)
     <-> quarter ∈ quarters
         /\ (category = "All Categories" \/ category ∈ (ExpType <$> df))
         /\ city ∈ city_names)
    /\ (is_Some (entry percentage_data quarter category city)
        <-> quarter ∈ quarters
            /\ (category = "All Categories" \/ category ∈ (ExpType <$> df))
            /\ city ∈ city_names).
Proof.
  intros Hrun quarter category city.
  destruct (calculate_tables _ _ _ _ _ Hrun quarter) as [Hin Hout].
  unfold entry.
  destruct (decide (quarter ∈ quarters)) as [Hq|Hq].
  2:{ destruct (Hout Hq) as [-> ->]. simpl.
      split; (split; [intros [x Hx]; discriminate|tauto]). }
  destruct (Hin Hq) as (sp_q & pc_q & Htab & -> & ->). simpl.
  destruct (quarter_tables_lookup _ _ _ _ _ Htab) as (sp_all & pc_all & Hall & Hcats).
  destruct (Hcats category) as [Hreal Hsynth].
  destruct (decide (category ∈ (ExpType <$> df))) as [Hcat|Hcat].
  - destruct (Hreal Hcat) as (sp & pc & Hrows & -> & ->). simpl.
    destruct (category_rows_lookup _ _ _ _ _ _ Hrows city) as [Hcity Hnone].
    destruct (decide (city ∈ city_names)) as [Hc|Hc].
    + destruct (Hcity Hc) as (t & share & _ & _ & -> & ->).
      split; (split; [tauto|eauto]).
    + destruct (Hnone Hc) as [-> ->].
      split; (split; [intros [x Hx]; discriminate|tauto]).
  - destruct (Hsynth Hcat) as [-> ->].
    destruct (decide (category = "All Categories")) as [->|Hne].
    + rewrite !lookup_singleton_eq. simpl.
      destruct (all_categories_lookup _ _ _ _ Hall city) as [Hcity Hnone].
      destruct (decide (city ∈ city_names)) as [Hc|Hc].
      * destruct (Hcity Hc) as (t & _ & -> & ->).
        split; (split; [tauto|eauto]).
      * destruct (Hnone Hc) as [-> ->].
        split; (split; [intros [x Hx]; discriminate|tauto]).
    + rewrite !lookup_singleton_ne by congruence. simpl.
      split; (split; [intros [x Hx]; discriminate|tauto]).
Qed.

Lemma entries_domain_witness :
  let df := [ {| City := "Pune"; ExpType := "Food"; YearQuarter := "2014-Q1"; Amount := 10 |} ] in
  exists spending_data percentage_data,
    calculate_spending_by_category_and_quarter df ["Pune"] ["All Time"]
    = Ok (spending_data, percentage_data)
    /\ (is_Some (entry spending_data "2014-Q1" "Food" "Pune")
        <-> "2014-Q1" ∈ ["All Time"]
            /\ ("Food" = "All Categories" \/ "Food" ∈ (ExpType <$> df))
            /\ "Pune" ∈ ["Pune"]).
Proof.
  intros df. eexists _, _. split; [reflexivity|].
  apply (entries_domain df ["Pune"] ["All Time"] _ _ eq_refl).
Defined.

Lemma category_rows_defined quarter_df city_names category :
  (forall city, city ∈ city_names ->
   ~ (amount_sum (filter (fun r => City r = city) quarter_df) == 0)%Q) ->
  exists r,
    category_rows quarter_df (total_spending quarter_df city_names)
      city_names category = Ok r.
Proof.
  intros Hnz. unfold category_rows. apply for_each_defined.
  intros [sp pc] city Hc. rewrite getitem_total by exact Hc. simpl.
  unfold Float.div.
  destruct (Qeq_bool (amount_sum (filter (fun r => City r = city) quarter_df)) 0)
    eqn:E.
  - apply Qeq_bool_iff in E. destruct (Hnz city Hc E).
  - simpl. eauto.
Qed.

Lemma quarter_tables_defined df city_names quarter :
  df = [] \/ (forall city, city ∈ city_names ->
              ~ (city_total df quarter city == 0)%Q) ->
  exists r, quarter_tables df city_names quarter = Ok r.
Proof.
  intros H. unfold quarter_tables.
  destruct (all_categories_ok (quarter_rows df quarter) city_names)
    as [[sp_all pc_all] ->]. simpl.
  destruct H as [->|Hnz]; [simpl; eauto|].
  apply for_each_defined. intros [sp_q pc_q] category _.
  destruct (category_rows_defined (quarter_rows df quarter) city_names category Hnz)
    as [[sp pc] ->].
  simpl. eauto.
Qed.

(** ** Category amounts add up *)

Lemma qsum_cons x l : qsum (x :: l) = (x + qsum l)%Q.
Proof. reflexivity. Qed.

Lemma amount_sum_from rows : forall acc,
  (foldl (fun acc r => Float.add acc (Amount r)) acc rows
   == acc + qsum (Amount <$> rows))%Q.
Proof.
  induction rows as [|r rows IH]; intros acc.
  - cbn [foldl fmap list_fmap]. unfold qsum. cbn [foldr]. ring.
  - cbn [foldl]. rewrite IH, fmap_cons, qsum_cons.
    unfold Float.add. rewrite Qred_correct. ring.
Qed.

Lemma amount_sum_exact rows : (amount_sum rows == qsum (Amount <$> rows))%Q.
Proof. unfold amount_sum. rewrite amount_sum_from. ring. Qed.

Lemma qsum_ext {A} (f g : A -> Q) l :
  (forall x, x ∈ l -> (f x == g x)%Q) -> (qsum (f <$> l) == qsum (g <$> l))%Q.
Proof.
  induction l as [|x l IH]; intros H; [reflexivity|].
  rewrite !fmap_cons, !qsum_cons. rewrite (H x) by left. rewrite IH; [reflexivity|].
  intros y Hy. apply H. right. exact Hy.
Qed.

Lemma qsum_plus {A} (f g : A -> Q) l :
  (qsum ((fun x => f x + g x) <$> l) == qsum (f <$> l) + qsum (g <$> l))%Q.
Proof.
  induction l as [|x l IH]; [unfold qsum; simpl; ring|].
  rewrite !fmap_cons, !qsum_cons, IH. ring.
Qed.

Lemma qsum_scale {A} (f : A -> Q) (k : Q) l :
  (qsum ((fun x => f x * k) <$> l) == qsum (f <$> l) * k)%Q.
Proof.
  induction l as [|x l IH]; [unfold qsum; simpl; ring|].
  rewrite !fmap_cons, !qsum_cons, IH. ring.
Qed.

Lemma qsum_zero {A} (l : list A) : (qsum ((fun _ => 0) <$> l) == 0)%Q.
Proof.
  induction l as [|x l IH]; [reflexivity|].
  rewrite fmap_cons, qsum_cons, IH. ring.
Qed.

(** One amount counted under the one category that matches. *)
Lemma qsum_indicator (label : string) (a : Q) categories :
  NoDup categories -> label ∈ categories ->
  (qsum ((fun category => if decide (label = category) then a else 0)
         <$> categories) == a)%Q.
Proof.
  induction 1 as [|c l Hc _ IH]; intros Hin; [inversion Hin|].
  rewrite fmap_cons, qsum_cons. destruct (decide (label = c)) as [->|Hne].
  - rewrite (qsum_ext _ (fun _ => 0%Q)); [rewrite qsum_zero; ring|].
    intros x Hx. destruct (decide (c = x)) as [->|]; [contradiction|reflexivity].
  - apply elem_of_cons in Hin as [?|Hin]; [contradiction|].
    rewrite (IH Hin). ring.
Qed.

Lemma qsum_indicator_none (label : string) (a : Q) categories :
  (qsum ((fun category => if decide (False /\ label = category) then a else 0)
         <$> categories) == 0)%Q.
Proof.
  rewrite (qsum_ext _ (fun _ => 0%Q)); [apply qsum_zero|].
  intros x _. destruct (decide (False /\ label = x)); [tauto|reflexivity].
Qed.

Lemma unique_from_NoDup seen l :
  NoDup (unique_from seen l) /\ forall x, x ∈ unique_from seen l -> x ∉ seen.
Proof.
  revert seen. induction l as [|y l IH]; intros seen; simpl.
  - split; [constructor|]. intros x Hx. inversion Hx.
  - case_bool_decide as Hy; [apply IH|].
    destruct (IH (y :: seen)) as [Hnd Hfresh]. split.
    + constructor; [|exact Hnd]. intros Hin.
      apply Hfresh in Hin. apply Hin. left.
    + intros x Hx. apply elem_of_cons in Hx as [->|Hx]; [exact Hy|].
      apply Hfresh in Hx. intros Hs. apply Hx. right. exact Hs.
Qed.

Lemma unique_NoDup l : NoDup (unique l).
Proof. apply unique_from_NoDup. Qed.

(** The amounts of a city split by category add up to the city's amounts. *)
Lemma category_partition (city : string) rows categories :
  NoDup categories ->
  (forall r, r ∈ rows -> ExpType r ∈ categories) ->
  (qsum ((fun category =>
            qsum (Amount <$> filter (fun r => City r = city /\ ExpType r = category) rows))
         <$> categories)
   == qsum (Amount <$> filter (fun r => City r = city) rows))%Q.
Proof.
  intros Hnd. induction rows as [|r rows IH]; intros Hlabels.
  - simpl. apply qsum_zero.
  - assert (IH' := IH (fun r' Hr' => Hlabels r' ltac:(right; exact Hr'))).
    rewrite (qsum_ext _
      (fun category =>
         (if decide (City r = city /\ ExpType r = category) then Amount r else 0)
         + qsum (Amount <$> filter (fun r => City r = city /\ ExpType r = category) rows))%Q).
    2:{ intros category _. rewrite filter_cons.
        destruct (decide (City r = city /\ ExpType r = category));
          [rewrite fmap_cons, qsum_cons; reflexivity|ring]. }
    rewrite qsum_plus, IH'. rewrite filter_cons.
    destruct (decide (City r = city)) as [Hc|Hc].
    + rewrite (qsum_ext _ (fun category =>
                 if decide (ExpType r = category) then Amount r else 0%Q)).
      2:{ intros category _.
          destruct (decide (City r = city /\ ExpType r = category)),
                   (decide (ExpType r = category)); tauto || reflexivity. }
      rewrite qsum_indicator by (exact Hnd || (apply Hlabels; left)).
      rewrite fmap_cons, qsum_cons. reflexivity.
    + rewrite (qsum_ext _ (fun _ => 0%Q)).
      2:{ intros category _.
          destruct (decide (City r = city /\ ExpType r = category));
            tauto || reflexivity. }
      rewrite qsum_zero. ring.
Qed.

Lemma category_entry_lookup df city_names quarters spending_data percentage_data :
  calculate_spending_by_category_and_quarter df city_names quarters
  = Ok (spending_data, percentage_data) ->
  forall quarter category city,
    quarter ∈ quarters -> category ∈ (ExpType <$> df) -> city ∈ city_names ->
    exists share,
      Float.div
        (amount_sum (filter (fun r => City r = city /\ ExpType r = category)
                            (quarter_rows df quarter)))
        (city_total df quarter city) = Ok share
      /\ entry spending_data quarter category city
         = Some (amount_sum (filter (fun r => City r = city /\ ExpType r = category)
                                    (quarter_rows df quarter)))
      /\ entry percentage_data quarter category city = Some (Float.mul share 100).
Proof.
  intros Hrun quarter category city Hq Hcat Hc.
  destruct (calculate_tables _ _ _ _ _ Hrun quarter) as [Hin _].
  destruct (Hin Hq) as (sp_q & pc_q & Htab & Hsd & Hpd).
  destruct (quarter_tables_lookup _ _ _ _ _ Htab) as (sp_all & pc_all & _ & Hcats).
  destruct (Hcats category) as [Hreal _].
  destruct (Hreal Hcat) as (sp & pc & Hrows & Hsp & Hpc).
  destruct (category_rows_lookup _ _ _ _ _ _ Hrows city) as [Hcity _].
  destruct (Hcity Hc) as (t & share & Ht & Hdiv & Hs & Hp).
  rewrite getitem_total in Ht by exact Hc. injection Ht as <-.
  exists share. unfold entry. rewrite Hsd, Hpd. simpl. rewrite Hsp, Hpc. simpl.
  auto.
Qed.

Lemma quarter_rows_subset df quarter r : r ∈ quarter_rows df quarter -> r ∈ df.
Proof.
  unfold quarter_rows. destruct (String.eqb quarter "All Time"); [auto|].
  intros H. apply list_elem_of_filter in H as [_ H]. exact H.
Qed.

Lemma div_exact a b share :
  Float.div a b = Ok share -> ~ (b == 0)%Q /\ (share == a / b)%Q.
Proof.
  unfold Float.div. destruct (Qeq_bool b 0) eqn:E; [discriminate|].
  intros [= <-]. split.
  - intros Hz. apply Qeq_bool_iff in Hz. congruence.
  - apply Qred_correct.
Qed.

(** * Geometry converter *)

Lemma footprint_records_length geom height :
  length (footprint_records geom height) = parts geom.
Proof.
  destruct geom as [shape|geoms|t]; simpl; [reflexivity| |reflexivity].
  apply length_fmap.
Qed.

Lemma footprint_records_ring geom height :
  Forall (fun record => exists ring, coordinates record = [ring])
         (footprint_records geom height).
Proof.
  destruct geom as [shape|geoms|t]; simpl.
  - repeat constructor. eauto.
  - apply Forall_fmap, Forall_forall. intros poly _. simpl. eauto.
  - constructor.
Qed.

Lemma convert_building_data_cons simplify tol draws row rest n :
  convert_building_data simplify tol draws (row :: rest) n
  = (footprint_records (simplify tol (geometry row))
       (estimate_building_height (draws n) (tags row))
     ++ (convert_building_data simplify tol draws rest
           (if uses_draw (tags row) then S n else n)).1,
     (convert_building_data simplify tol draws rest
        (if uses_draw (tags row) then S n else n)).2).
Proof.
  cbn [convert_building_data]. unfold estimate_building_height_rng.
  destruct (convert_building_data simplify tol draws rest _). reflexivity.
Qed.

(** What the converter emits.  One record per polygon and one per part of
    a multi-polygon of the simplified footprints, none for any other
    geometry type; every record holds exactly one ring, so holes are never
    kept; and the generator advances once per footprint that has neither a
    usable height nor usable levels, whatever its geometry type. *)
Theorem convert_building_data_shape simplify tol draws buildings n :
  length (convert_building_data simplify tol draws buildings n).1
  = sum_list ((fun row => parts (simplify tol (geometry row))) <$> buildings)
  /\ Forall (fun record => exists ring, coordinates record = [ring])
            (convert_building_data simplify tol draws buildings n).1
  /\ (convert_building_data simplify tol draws buildings n).2
     = (n + length (filter (fun row => uses_draw (tags row) = true) buildings))%nat.
Proof.
  revert n. induction buildings as [|row rest IH]; intros n.
  - simpl. repeat split; [constructor|lia].
  - rewrite convert_building_data_cons. cbn [fst snd].
    destruct (IH (if uses_draw (tags row) then S n else n)) as (Hlen & Hring & Hn).
    repeat split.
    + rewrite length_app, footprint_records_length, Hlen. reflexivity.
    + apply Forall_app. split; [apply footprint_records_ring|exact Hring].
    + rewrite Hn, filter_cons.
      destruct (uses_draw (tags row)).
      * rewrite decide_True by reflexivity. simpl. lia.
      * rewrite decide_False by discriminate. reflexivity.
Qed.

Lemma footprint_records_height geom h :
  Forall (fun record => height record = h) (footprint_records geom h).
Proof.
  destruct geom as [shape|geoms|t]; simpl.
  - repeat constructor.
  - apply Forall_fmap, Forall_forall. intros poly _. reflexivity.
  - constructor.
Qed.

(** One height per footprint.  The output is the concatenation, in input
    order, of each footprint's group of records; all records of a group
    carry the same height, and that height is an estimate for the
    footprint's tags. *)
Theorem convert_building_data_heights simplify tol draws buildings n :
  exists groups,
    (convert_building_data simplify tol draws buildings n).1 = mjoin groups
    /\ Forall2 (fun row group =>
                  length group = parts (simplify tol (geometry row))
                  /\ exists k,
                       Forall (fun record =>
                                 height record
                                 = estimate_building_height (draws k) (tags row))
                              group)
               buildings groups.
Proof.
  revert n. induction buildings as [|row rest IH]; intros n.
  - exists []. split; [reflexivity|constructor].
  - rewrite convert_building_data_cons. cbn [fst].
    destruct (IH (if uses_draw (tags row) then S n else n)) as (groups & -> & Hgroups).
    exists (footprint_records (simplify tol (geometry row))
              (estimate_building_height (draws n) (tags row)) :: groups).
    split; [reflexivity|].
    constructor; [|exact Hgroups].
    split; [apply footprint_records_length|].
    exists n. apply footprint_records_height.
Qed.

(** * Report generator: the colours of a slice *)

Lemma mapM_Ok_Forall2 {A B} (f : A -> result B) (l : list A) ys :
  mapM f l = Ok ys -> Forall2 (fun x y => f x = Ok y) l ys.
Proof.
  revert ys. induction l as [|x l IH]; intros ys.
  - intros [= <-]. constructor.
  - cbn [mapM]. destruct (f x) as [y|] eqn:Ex; [|discriminate]. simpl.
    destruct (mapM f l) as [ys'|]; [|discriminate]. simpl.
    intros [= <-]. constructor; [exact Ex|]. apply IH. reflexivity.
Qed.






Lemma heatmap_color_mid percentage min_percentage max_percentage :
  (min_percentage < max_percentage)%Q ->
  (percentage == (min_percentage + max_percentage) / 2)%Q ->
  get_heatmap_color percentage min_percentage max_percentage = Ok [0; 255; 0].
Proof.
  intros Hlt Hmid.
  destruct (normalized_defined percentage _ _ Hlt) as (n & Hdiv & Hn).
  assert (Hn2 : (n == 1 # 2)%Q).
  { rewrite Hmid in Hn.
    assert (E : ((min_percentage + max_percentage) / 2 - min_percentage
                 == (1 # 2) * (max_percentage - min_percentage))%Q) by field.
    rewrite E in Hn. nra. }
  rewrite (get_heatmap_color_unfold _ _ _ _ Hdiv).
  rewrite (ltb_false n 0.25) by lra. rewrite (ltb_false n 0.5) by lra.
  rewrite (ltb_true n 0.75) by lra.
  rewrite to_int_zero by (float_exact; lra). reflexivity.
Qed.

Lemma py_sum_from values : forall acc,
  (foldl Float.add acc values == acc + qsum values)%Q.
Proof.
  induction values as [|v values IH]; intros acc.
  - unfold qsum. simpl. ring.
  - cbn [foldl]. rewrite IH, qsum_cons. unfold Float.add.
    rewrite Qred_correct. ring.
Qed.

Lemma qsum_constant p values :
  Forall (fun v => v = p) values ->
  (qsum values == inject_Z (len values) * p)%Q.
Proof.
  induction 1 as [|v values -> _ IH].
  - unfold qsum, len. simpl. ring.
  - rewrite qsum_cons, IH. unfold len. cbn [length].
    rewrite Nat2Z.inj_succ. unfold Z.succ. rewrite inject_Z_plus. ring.
Qed.

Lemma foldl_min2_constant p rest :
  Forall (fun v => v = p) rest -> foldl Float.min2 p rest = p.
Proof.
  induction 1 as [|v rest -> _ IH]; [reflexivity|].
  cbn [foldl]. unfold Float.min2 at 2.
  rewrite (ltb_false p p) by apply Qle_refl. exact IH.
Qed.

Lemma foldl_max2_constant p rest :
  Forall (fun v => v = p) rest -> foldl Float.max2 p rest = p.
Proof.
  induction 1 as [|v rest -> _ IH]; [reflexivity|].
  cbn [foldl]. unfold Float.max2 at 2, Float.gtb.
  rewrite (ltb_false p p) by apply Qle_refl. exact IH.
Qed.

Lemma scale_range_constant p values :
  values <> [] -> Forall (fun v => v = p) values ->
  exists min_percentage max_percentage,
    scale_range values = Ok (min_percentage, max_percentage)
    /\ (min_percentage == p - 1)%Q /\ (max_percentage == p + 1)%Q.
Proof.
  intros Hne Hall. unfold scale_range. rewrite (mean_defined _ Hne). simpl.
  set (avg := Qred (py_sum values / Float.of_Z (len values))).
  assert (Havg : (avg == p)%Q).
  { unfold avg, py_sum. rewrite Qred_correct, py_sum_from.
    rewrite (qsum_constant p values Hall). unfold Float.of_Z.
    assert (Hlen : ~ (inject_Z (len values) == 0)%Q).
    { unfold Qeq, len. simpl. destruct values; [congruence|]. simpl length. lia. }
    field. exact Hlen. }
  destruct values as [|v rest]; [congruence|].
  apply Forall_cons in Hall as [Hv Hrest]. subst v.
  cbn [py_min py_max]. rewrite (foldl_min2_constant p rest Hrest),
    (foldl_max2_constant p rest Hrest). simpl.
  eexists _, _. split; [reflexivity|].
  unfold Float.min2, Float.max2, Float.gtb.
  rewrite (ltb_true (Float.sub avg 1) p) by (float_exact; lra).
  rewrite (ltb_true p (Float.add avg 1)) by (float_exact; lra).
  split; float_exact; lra.
Qed.

(** * Report generator: the artifact index *)

Lemma kept_refl fs : kept fs fs.
Proof. intros path H. exact H. Qed.

Lemma kept_trans fs1 fs2 fs3 : kept fs1 fs2 -> kept fs2 fs3 -> kept fs1 fs3.
Proof. intros H12 H23 path H. apply H23, H12, H. Qed.

Lemma kept_insert fs path content : kept fs (<[ path := content ]> fs).
Proof.
  intros path' H. destruct (decide (path = path')) as [->|Hne].
  - rewrite lookup_insert_eq. eauto.
  - rewrite lookup_insert_ne by exact Hne. exact H.
Qed.

Lemma citymap_for_city_inv create_citymap quarter category
  (category_percentages : gmap string Q) mn mx category_files fs city_info r :
  citymap_for_city create_citymap quarter category category_percentages mn mx
    (category_files, fs) city_info = Ok r ->
  exists html_code,
    r = (<[ index city_info := map_filename quarter category (index city_info) ]>
           category_files,
         <[ map_filename quarter category (index city_info) := html_code ]> fs).
Proof.
  unfold citymap_for_city.
  destruct (getitem category_percentages (name city_info)); [|discriminate].
  simpl. destruct (get_heatmap_color _ mn mx); [|discriminate]. simpl.
  intros [= <-]. eauto.
Qed.

Lemma city_loop create_citymap quarter category
  (category_percentages : gmap string Q) mn mx city_coords :
  forall category_files0 fs0 category_files fs,
  for_each city_coords
    (citymap_for_city create_citymap quarter category category_percentages mn mx)
    (category_files0, fs0) = Ok (category_files, fs) ->
  kept fs0 fs
  /\ (forall city, city ∈ city_coords ->
      category_files !! index city
      = Some (map_filename quarter category (index city))
      /\ is_Some (fs !! map_filename quarter category (index city)))
  /\ (forall city_idx, city_idx ∉ (index <$> city_coords) ->
      category_files !! city_idx = category_files0 !! city_idx).
Proof.
  induction city_coords as [|c l IH]; intros cf0 fs0 cf fs.
  - intros [= <- <-]. split; [apply kept_refl|].
    split; [intros city Hc; inversion Hc|auto].
  - cbn [for_each].
    destruct (citymap_for_city _ _ _ _ _ _ (cf0, fs0) c) as [[cf1 fs1]|] eqn:Ec;
      [|discriminate].
    simpl. intros Hrun.
    apply citymap_for_city_inv in Ec as (html & [= -> ->]).
    destruct (IH _ _ _ _ Hrun) as (Hkept & Hin & Hout).
    split; [eapply kept_trans; [apply kept_insert|exact Hkept]|]. split.
    + intros city Hcity. apply elem_of_cons in Hcity as [->|Hcity]; [|auto].
      destruct (decide (index c ∈ (index <$> l))) as [Hdup|Hfresh].
      * apply list_elem_of_fmap in Hdup as (c' & Hidx & Hc').
        rewrite Hidx. apply Hin, Hc'.
      * rewrite (Hout _ Hfresh), lookup_insert_eq. split; [reflexivity|].
        apply Hkept. rewrite lookup_insert_eq. eauto.
    + intros i Hi. change (index <$> c :: l) with (index c :: (index <$> l)) in Hi.
      apply not_elem_of_cons in Hi as [Hne Hi].
      rewrite (Hout _ Hi). apply lookup_insert_ne. congruence.
Qed.

Lemma slice_artifacts_kept percentage_data city_coords quarter category
  category_files range fs fs' :
  slice_artifacts percentage_data city_coords quarter category
    category_files range fs ->
  kept fs fs' ->
  slice_artifacts percentage_data city_coords quarter category
    category_files range fs'.
Proof.
  intros (Hrange & Hfiles & Hkeys) Hkept. split; [exact Hrange|].
  split; [|exact Hkeys].
  intros city Hc. destruct (Hfiles city Hc) as [Hidx Hfile].
  split; [exact Hidx|apply Hkept, Hfile].
Qed.

Lemma citymaps_for_category_inv create_citymap percentage_data city_coords
  quarter quarter_files quarter_ranges fs0 category quarter_files'
  quarter_ranges' fs1 :
  citymaps_for_category create_citymap percentage_data city_coords quarter
    (quarter_files, quarter_ranges, fs0) category
  = Ok (quarter_files', quarter_ranges', fs1) ->
  exists category_files range,
    quarter_files' = <[ category := category_files ]> quarter_files
    /\ quarter_ranges' = <[ category := range ]> quarter_ranges
    /\ kept fs0 fs1
    /\ slice_artifacts percentage_data city_coords quarter category
         category_files range fs1.
Proof.
  unfold citymaps_for_category. intros Hrun.
  destruct (getitem percentage_data quarter) as [pq|] eqn:Eq;
    [|discriminate]. simpl in Hrun.
  destruct (getitem pq category) as [cp|] eqn:Ec; [|discriminate].
  simpl in Hrun.
  destruct (mapM _ city_coords) as [values|] eqn:Ev; [|discriminate].
  simpl in Hrun.
  destruct (scale_range values) as [[mn mx]|] eqn:Er; [|discriminate].
  simpl in Hrun.
  destruct (for_each city_coords _ (∅, fs0)) as [[cf fs]|] eqn:El;
    [|discriminate].
  simpl in Hrun. injection Hrun as <- <- <-.
  destruct (city_loop _ _ _ _ _ _ _ _ _ _ _ El) as (Hkept & Hin & Hout).
  exists cf, (mn, mx).
  split; [reflexivity|]. split; [reflexivity|]. split; [exact Hkept|].
  split; [|split; [exact Hin|]].
  - exists cp, values. split; [|split; assumption].
    unfold getitem in Eq, Ec.
    destruct (percentage_data !! quarter) as [pq'|]; [|discriminate].
    injection Eq as ->. simpl.
    destruct (pq !! category) as [cp'|]; [|discriminate].
    injection Ec as ->. reflexivity.
  - intros i Hi. destruct (decide (i ∈ (index <$> city_coords))) as [|Hno];
      [assumption|].
    rewrite (Hout i Hno), lookup_empty in Hi. destruct Hi. discriminate.
Qed.

Lemma category_loop create_citymap percentage_data city_coords quarter
  categories :
  forall quarter_files0 quarter_ranges0 fs0 quarter_files quarter_ranges fs,
  for_each categories
    (citymaps_for_category create_citymap percentage_data city_coords quarter)
    (quarter_files0, quarter_ranges0, fs0)
  = Ok (quarter_files, quarter_ranges, fs) ->
  kept fs0 fs
  /\ forall category,
       category ∈ categories
       \/ (exists category_files range,
             quarter_files0 !! category = Some category_files
             /\ quarter_ranges0 !! category = Some range
             /\ slice_artifacts percentage_data city_coords quarter category
                  category_files range fs0) ->
       exists category_files range,
         quarter_files !! category = Some category_files
         /\ quarter_ranges !! category = Some range
         /\ slice_artifacts percentage_data city_coords quarter category
              category_files range fs.
Proof.
  induction categories as [|c l IH]; intros qf0 qr0 fs0 qf qr fs.
  - intros [= <- <- <-]. split; [apply kept_refl|].
    intros category [Hc|H]; [inversion Hc|exact H].
  - cbn [for_each].
    destruct (citymaps_for_category _ _ _ _ (qf0, qr0, fs0) c)
      as [[[qf1 qr1] fs1]|] eqn:Ec; [|discriminate].
    simpl. intros Hrun.
    apply citymaps_for_category_inv in Ec as (cf & range & -> & -> & Hk1 & Hart).
    destruct (IH _ _ _ _ _ _ Hrun) as [Hk Hrest].
    split; [eapply kept_trans; eassumption|].
    intros category Hcat. apply Hrest.
    destruct (decide (category = c)) as [->|Hne].
    + right. exists cf, range. rewrite !lookup_insert_eq. auto.
    + destruct Hcat as [Hcat|(cf' & range' & Hf & Hr & Hart')].
      * left. apply elem_of_cons in Hcat as [?|?]; [contradiction|assumption].
      * right. exists cf', range'.
        rewrite !lookup_insert_ne by congruence.
        split; [exact Hf|]. split; [exact Hr|].
        eapply slice_artifacts_kept; eassumption.
Qed.

Lemma citymaps_for_quarter_inv create_citymap categories percentage_data
  city_coords map_files scale_ranges fs0 quarter r :
  citymaps_for_quarter create_citymap categories percentage_data city_coords
    (map_files, scale_ranges, fs0) quarter = Ok r ->
  exists quarter_files quarter_ranges fs1,
    for_each categories
      (citymaps_for_category create_citymap percentage_data city_coords
         quarter)
      (∅, ∅, fs0) = Ok (quarter_files, quarter_ranges, fs1)
    /\ r = (<[ quarter := quarter_files ]> map_files,
            <[ quarter := quarter_ranges ]> scale_ranges, fs1).
Proof.
  unfold citymaps_for_quarter.
  destruct (for_each categories _ _) as [[[qf qr] fs1]|]; [|discriminate].
  simpl. intros [= <-]. eauto.
Qed.

Lemma quarter_loop create_citymap categories percentage_data city_coords
  quarters :
  forall (map_files0 : gmap string slice_files)
    (scale_ranges0 : gmap string slice_ranges) fs0 map_files scale_ranges fs,
  for_each quarters
    (citymaps_for_quarter create_citymap categories percentage_data
       city_coords)
    (map_files0, scale_ranges0, fs0)
  = Ok (map_files, scale_ranges, fs) ->
  kept fs0 fs
  /\ forall quarter category,
       category ∈ categories ->
       quarter ∈ quarters
       \/ (exists category_files range,
             map_files0 !! quarter ≫= (.!! category) = Some category_files
             /\ scale_ranges0 !! quarter ≫= (.!! category) = Some range
             /\ slice_artifacts percentage_data city_coords quarter category
                  category_files range fs0) ->
       exists category_files range,
         map_files !! quarter ≫= (.!! category) = Some category_files
         /\ scale_ranges !! quarter ≫= (.!! category) = Some range
         /\ slice_artifacts percentage_data city_coords quarter category
              category_files range fs.
Proof.
  induction quarters as [|q l IH]; intros mf0 sr0 fs0 mf sr fs.
  - intros [= <- <- <-]. split; [apply kept_refl|].
    intros quarter category _ [Hq|H]; [inversion Hq|exact H].
  - cbn [for_each].
    destruct (citymaps_for_quarter _ _ _ _ (mf0, sr0, fs0) q)
      as [[[mf1 sr1] fs1]|] eqn:Eq; [|discriminate].
    simpl. intros Hrun.
    apply citymaps_for_quarter_inv in Eq
      as (qf & qr & fs1' & Hcats & [= -> -> ->]).
    destruct (category_loop _ _ _ _ _ _ _ _ _ _ _ Hcats) as [Hk1 Hslices].
    destruct (IH _ _ _ _ _ _ Hrun) as [Hk Hrest].
    split; [eapply kept_trans; eassumption|].
    intros quarter category Hcat Hq. apply Hrest; [exact Hcat|].
    destruct (decide (quarter = q)) as [->|Hne].
    + right. destruct (Hslices category (or_introl Hcat))
        as (cf & range & Hf & Hr & Hart).
      exists cf, range. rewrite !lookup_insert_eq. simpl. auto.
    + destruct Hq as [Hq|(cf' & range' & Hf & Hr & Hart')].
      * left. apply elem_of_cons in Hq as [?|?]; [contradiction|assumption].
      * right. exists cf', range'.
        rewrite !lookup_insert_ne by congruence.
        split; [exact Hf|]. split; [exact Hr|].
        eapply slice_artifacts_kept; eassumption.
Qed.

(** The files outside the generated names. *)

Lemma city_frame create_citymap quarter category
  (category_percentages : gmap string Q) mn mx city_coords :
  forall category_files0 fs0 category_files fs,
  for_each city_coords
    (citymap_for_city create_citymap quarter category category_percentages
       mn mx)
    (category_files0, fs0) = Ok (category_files, fs) ->
  forall path,
    (forall city, city ∈ city_coords ->
       path <> map_filename quarter category (index city)) ->
    fs !! path = fs0 !! path.
Proof.
  induction city_coords as [|c l IH]; intros cf0 fs0 cf fs.
  - intros [= <- <-]. reflexivity.
  - cbn [for_each].
    destruct (citymap_for_city _ _ _ _ _ _ (cf0, fs0) c) as [[cf1 fs1]|] eqn:Ec;
      [|discriminate].
    simpl. intros Hrun path Hpath.
    apply citymap_for_city_inv in Ec as (html & [= -> ->]).
    rewrite (IH _ _ _ _ Hrun path).
    + apply lookup_insert_ne. intros Heq. apply (Hpath c); [left|congruence].
    + intros city Hc. apply Hpath. right. exact Hc.
Qed.

Lemma category_frame create_citymap percentage_data city_coords quarter
  categories :
  forall quarter_files0 quarter_ranges0 fs0 quarter_files quarter_ranges fs,
  for_each categories
    (citymaps_for_category create_citymap percentage_data city_coords quarter)
    (quarter_files0, quarter_ranges0, fs0)
  = Ok (quarter_files, quarter_ranges, fs) ->
  forall path,
    (forall category city, category ∈ categories -> city ∈ city_coords ->
       path <> map_filename quarter category (index city)) ->
    fs !! path = fs0 !! path.
Proof.
  induction categories as [|c l IH]; intros qf0 qr0 fs0 qf qr fs.
  - intros [= <- <- <-]. reflexivity.
  - cbn [for_each].
    destruct (citymaps_for_category _ _ _ _ (qf0, qr0, fs0) c)
      as [[[qf1 qr1] fs1]|] eqn:Ec; [|discriminate].
    simpl. intros Hrun path Hpath.
    rewrite (IH _ _ _ _ _ _ Hrun path)
      by (intros category city Hcat; apply Hpath; right; exact Hcat).
    unfold citymaps_for_category in Ec.
    destruct (getitem percentage_data quarter) as [pq|]; [|discriminate].
    simpl in Ec.
    destruct (getitem pq c) as [cp|]; [|discriminate]. simpl in Ec.
    destruct (mapM _ city_coords) as [values|]; [|discriminate].
    simpl in Ec.
    destruct (scale_range values) as [[mn mx]|]; [|discriminate].
    simpl in Ec.
    destruct (for_each city_coords _ (∅, fs0)) as [[cf fs']|] eqn:El;
      [|discriminate].
    simpl in Ec. injection Ec as <- <- <-.
    apply (city_frame _ _ _ _ _ _ _ _ _ _ _ El).
    intros city Hc. apply Hpath; [left|exact Hc].
Qed.

Lemma quarter_frame create_citymap categories percentage_data city_coords
  quarters :
  forall (map_files0 : gmap string slice_files)
    (scale_ranges0 : gmap string slice_ranges) fs0 map_files scale_ranges fs,
  for_each quarters
    (citymaps_for_quarter create_citymap categories percentage_data
       city_coords)
    (map_files0, scale_ranges0, fs0)
  = Ok (map_files, scale_ranges, fs) ->
  forall path,
    (forall quarter category city,
       quarter ∈ quarters -> category ∈ categories -> city ∈ city_coords ->
       path <> map_filename quarter category (index city)) ->
    fs !! path = fs0 !! path.
Proof.
  induction quarters as [|q l IH]; intros mf0 sr0 fs0 mf sr fs.
  - intros [= <- <- <-]. reflexivity.
  - cbn [for_each].
    destruct (citymaps_for_quarter _ _ _ _ (mf0, sr0, fs0) q)
      as [[[mf1 sr1] fs1]|] eqn:Eq; [|discriminate].
    simpl. intros Hrun path Hpath.
    apply citymaps_for_quarter_inv in Eq
      as (qf & qr & fs1' & Hcats & [= -> -> ->]).
    rewrite (IH _ _ _ _ _ _ Hrun path)
      by (intros quarter category city Hq; apply Hpath; right; exact Hq).
    apply (category_frame _ _ _ _ _ _ _ _ _ _ _ Hcats).
    intros category city. apply Hpath. left.
Qed.

(** generate_citymaps (lines 252-309), the returned index: when the call
    returns, every file that existed before still exists, and for every
    listed quarter and category the two returned dictionaries have an
    entry: the scale range computed from the cities' percentages of that
    slice, and a dictionary whose keys are exactly the city indices, each
    mapped to the name of a file that exists after the run. *)
Theorem generate_citymaps_index create_citymap quarters categories
  percentage_data city_coords fs0 scale_ranges map_files fs :
  generate_citymaps create_citymap quarters categories percentage_data
    city_coords fs0 = Ok (scale_ranges, map_files, fs) ->
  kept fs0 fs
  /\ forall quarter category,
       quarter ∈ quarters -> category ∈ categories ->
       exists category_files range,
         map_files !! quarter ≫= (.!! category) = Some category_files
         /\ scale_ranges !! quarter ≫= (.!! category) = Some range
         /\ slice_artifacts percentage_data city_coords quarter category
              category_files range fs.
Proof.
  unfold generate_citymaps. intros Hrun.
  destruct (for_each quarters _ _) as [[[mf sr] fs1]|] eqn:El;
    [|discriminate].
  simpl in Hrun. injection Hrun as <- <- <-.
  destruct (quarter_loop _ _ _ _ _ _ _ _ _ _ _ El) as [Hk Hall].
  split; [exact Hk|].
  intros quarter category Hq Hcat. apply Hall; [exact Hcat|left; exact Hq].
Qed.

(** generate_citymaps (lines 252-309), what it leaves alone: a path that
    is not the file name of a listed quarter, category and city index has
    the same content (or is as absent) after the run as before. *)
Theorem generate_citymaps_frame create_citymap quarters categories
  percentage_data city_coords fs0 scale_ranges map_files fs path :
  generate_citymaps create_citymap quarters categories percentage_data
    city_coords fs0 = Ok (scale_ranges, map_files, fs) ->
  (forall quarter category city,
     quarter ∈ quarters -> category ∈ categories -> city ∈ city_coords ->
     path <> map_filename quarter category (index city)) ->
  fs !! path = fs0 !! path.
Proof.
  unfold generate_citymaps. intros Hrun Hpath.
  destruct (for_each quarters _ _) as [[[mf sr] fs1]|] eqn:El;
    [|discriminate].
  simpl in Hrun. injection Hrun as <- <- <-.
  exact (quarter_frame _ _ _ _ _ _ _ _ _ _ _ El path Hpath).
Qed.

Lemma generate_citymaps_index_witness :
  let city := {| name := "Pune"; lat := 0; lon := 0; buildings := []; index := 0 |} in
  let percentage_data : table :=
    {[ "All Time" := {[ "Food" := {[ "Pune" := 25%Q ]} ]} ]} in
  exists scale_ranges map_files fs,
    generate_citymaps (fun _ _ _ _ _ => "page") ["All Time"] ["Food"]
      percentage_data [city] ∅ = Ok (scale_ranges, map_files, fs)
    /\ kept ∅ fs
    /\ exists category_files range,
         map_files !! "All Time" ≫= (.!! "Food") = Some category_files
         /\ scale_ranges !! "All Time" ≫= (.!! "Food") = Some range
         /\ slice_artifacts percentage_data [city] "All Time" "Food"
              category_files range fs.
Proof.
  intros city percentage_data. eexists _, _, _. split; [reflexivity|].
  edestruct (generate_citymaps_index (fun _ _ _ _ _ => "page")
               ["All Time"] ["Food"] percentage_data [city] ∅)
    as [Hkept Hall]; [reflexivity|].
  split; [exact Hkept|].
  apply Hall; apply list_elem_of_In; simpl; auto.
Defined.

Lemma generate_citymaps_frame_witness :
  let city := {| name := "Pune"; lat := 0; lon := 0; buildings := []; index := 0 |} in
  let percentage_data : table :=
    {[ "All Time" := {[ "Food" := {[ "Pune" := 25%Q ]} ]} ]} in
  exists scale_ranges map_files fs,
    generate_citymaps (fun _ _ _ _ _ => "page") ["All Time"] ["Food"]
      percentage_data [city] {[ "notes.txt" := "kept" ]}
    = Ok (scale_ranges, map_files, fs)
    /\ fs !! "notes.txt" = Some "kept".
Proof.
  intros city percentage_data. eexists _, _, _. split; [reflexivity|].
  etrans;
    [eapply (generate_citymaps_frame (fun _ _ _ _ _ => "page")
               ["All Time"] ["Food"] percentage_data [city]
               {[ "notes.txt" := "kept" ]} _ _ _ "notes.txt");
     [reflexivity|]
    |reflexivity].
  intros quarter category c _ _ _. unfold map_filename. simpl. discriminate.
Defined.

(** * Report generator: when it returns *)

Lemma citymaps_for_category_defined create_citymap percentage_data
  city_coords quarter category (category_percentages : gmap string Q) :
  city_coords <> [] ->
  percentage_data !! quarter ≫= (.!! category) = Some category_percentages ->
  (forall city, city ∈ city_coords ->
     is_Some (category_percentages !! name city)) ->
  forall state, exists state',
    citymaps_for_category create_citymap percentage_data city_coords quarter
      state category = Ok state'.
Proof.
  intros Hne Hcp Hnames [[qf qr] fs]. unfold citymaps_for_category.
  destruct (percentage_data !! quarter) as [pq|] eqn:Eq; [|discriminate].
  simpl in Hcp.
  assert (Hq : getitem percentage_data quarter = Ok pq)
    by (unfold getitem; rewrite Eq; reflexivity).
  assert (Hcat : getitem pq category = Ok category_percentages)
    by (unfold getitem; rewrite Hcp; reflexivity).
  rewrite Hq. simpl. rewrite Hcat. simpl.
  destruct (mapM_defined
              (fun city => getitem category_percentages (name city))
              city_coords) as (values & -> & Hlen).
  { intros city Hc. destruct (Hnames city Hc) as [p Hp].
    exists p. unfold getitem. rewrite Hp. reflexivity. }
  simpl.
  destruct (scale_range_proper_window values) as (mn & mx & -> & Hlt).
  { intros ->. destruct city_coords; [congruence|discriminate]. }
  simpl.
  destruct (for_each_defined city_coords
              (citymap_for_city create_citymap quarter category
                 category_percentages mn mx)) with (s := (∅ : gmap Z string, fs))
    as [[cf fs'] ->].
  { intros [cf0 fs0] city Hc. unfold citymap_for_city.
    destruct (Hnames city Hc) as [p Hp].
    unfold getitem. rewrite Hp. simpl.
    destruct (get_heatmap_color_defined p mn mx) as (r & g & b & ->).
    { intros Heq. rewrite Heq in Hlt. apply (Qlt_irrefl _ Hlt). }
    simpl. eauto. }
  simpl. eauto.
Qed.

Lemma generate_citymaps_defined create_citymap quarters categories
  percentage_data city_coords fs :
  city_coords <> [] ->
  (forall quarter category,
     quarter ∈ quarters -> category ∈ categories ->
     exists category_percentages : gmap string Q,
       percentage_data !! quarter ≫= (.!! category)
       = Some category_percentages
       /\ forall city, city ∈ city_coords ->
            is_Some (category_percentages !! name city)) ->
  exists scale_ranges map_files fs',
    generate_citymaps create_citymap quarters categories percentage_data
      city_coords fs = Ok (scale_ranges, map_files, fs').
Proof.
  intros Hne Hall. unfold generate_citymaps.
  destruct (for_each_defined quarters
              (citymaps_for_quarter create_citymap categories percentage_data
                 city_coords))
    with (s := (∅ : gmap string slice_files, ∅ : gmap string slice_ranges, fs))
    as [[[mf sr] fs'] ->].
  { intros [[mf0 sr0] fs0] quarter Hq. unfold citymaps_for_quarter.
    destruct (for_each_defined categories
                (citymaps_for_category create_citymap percentage_data
                   city_coords quarter))
      with (s := (∅ : slice_files, ∅ : slice_ranges, fs0))
      as [[[qf qr] fs1] ->].
    { intros state category Hcat.
      destruct (Hall quarter category Hq Hcat) as (cp & Hcp & Hnames).
      eapply citymaps_for_category_defined; eassumption. }
    simpl. eauto. }
  simpl. eauto.
Qed.

Lemma get_city_coords_names geocode buildings_data city_names city :
  city ∈ get_city_coords geocode buildings_data city_names ->
  name city ∈ city_names.
Proof.
  intros Hc. apply list_elem_of_lookup in Hc as [i Hi].
  apply get_city_coords_lookup in Hi as (bs & _ & Hn & _).
  eapply list_elem_of_lookup_2. exact Hn.
Qed.

Lemma aggregated_rows df city_names quarters spending_data percentage_data :
  calculate_spending_by_category_and_quarter df city_names quarters
  = Ok (spending_data, percentage_data) ->
  forall quarter category,
    quarter ∈ quarters ->
    category = "All Categories" \/ category ∈ (ExpType <$> df) ->
    exists category_percentages : gmap string Q,
      percentage_data !! quarter ≫= (.!! category) = Some category_percentages
      /\ forall city, city ∈ city_names ->
           is_Some (category_percentages !! city).
Proof.
  intros Hrun quarter category Hq Hcat.
  destruct (calculate_tables _ _ _ _ _ Hrun quarter) as [Hin _].
  destruct (Hin Hq) as (sp_q & pc_q & Htab & _ & Hpd).
  rewrite Hpd. simpl.
  destruct (quarter_tables_lookup _ _ _ _ _ Htab)
    as (sp_all & pc_all & Hallc & Hcats).
  destruct (Hcats category) as [Hdata Hother].
  destruct (decide (category ∈ (ExpType <$> df))) as [Hd|Hnd].
  - destruct (Hdata Hd) as (sp & pc & Hrows & _ & Hpc).
    exists pc. split; [exact Hpc|].
    intros city Hc.
    destruct (category_rows_lookup _ _ _ _ _ _ Hrows city) as [Hcity _].
    destruct (Hcity Hc) as (t & share & _ & _ & _ & ->). eauto.
  - destruct Hcat as [->|Hd]; [|contradiction].
    destruct (Hother Hnd) as [_ Hpc].
    rewrite lookup_singleton_eq in Hpc.
    exists pc_all. split; [exact Hpc|].
    intros city Hc.
    destruct (all_categories_lookup _ _ _ _ Hallc city) as [Hcity _].
    destruct (Hcity Hc) as (t & _ & _ & ->). eauto.
Qed.

Lemma citymaps_for_category_no_cities create_citymap percentage_data quarter
  category (category_percentages : gmap string Q) state :
  percentage_data !! quarter ≫= (.!! category) = Some category_percentages ->
  citymaps_for_category create_citymap percentage_data [] quarter state
    category = Raise ZeroDivisionError.
Proof.
  intros Hcp. destruct state as [[qf qr] fs]. unfold citymaps_for_category.
  destruct (percentage_data !! quarter) as [pq|] eqn:Eq; [|discriminate].
  simpl in Hcp.
  assert (Hq : getitem percentage_data quarter = Ok pq)
    by (unfold getitem; rewrite Eq; reflexivity).
  assert (Hcat : getitem pq category = Ok category_percentages)
    by (unfold getitem; rewrite Hcp; reflexivity).
  rewrite Hq. simpl. rewrite Hcat. reflexivity.
Qed.

(** generate_citymaps (lines 264-272) with no city entry: for the first
    quarter and category, found in the percentage table, the list of
    percentage values is empty and its mean divides by zero. *)
Theorem generate_citymaps_no_cities create_citymap quarter quarters category
  categories percentage_data (category_percentages : gmap string Q) fs :
  percentage_data !! quarter ≫= (.!! category) = Some category_percentages ->
  generate_citymaps create_citymap (quarter :: quarters)
    (category :: categories) percentage_data [] fs
  = Raise ZeroDivisionError.
Proof.
  intros Hcp. unfold generate_citymaps. cbn [for_each].
  assert (Hq : citymaps_for_quarter create_citymap (category :: categories)
                 percentage_data []
                 (∅ : gmap string slice_files, ∅ : gmap string slice_ranges, fs)
                 quarter = Raise ZeroDivisionError).
  { unfold citymaps_for_quarter. cbn [for_each].
    rewrite (citymaps_for_category_no_cities _ _ _ _ _ _ Hcp). reflexivity. }
  rewrite Hq. reflexivity.
Qed.

Lemma generate_citymaps_no_cities_witness :
  generate_citymaps (fun _ _ _ _ _ => "page") ["All Time"] ["Food"]
    {[ "All Time" := {[ "Food" := ∅ ]} ]} [] ∅
  = Raise ZeroDivisionError.
Proof.
  apply (generate_citymaps_no_cities (fun _ _ _ _ _ => "page") "All Time" []
           "Food" [] {[ "All Time" := {[ "Food" := ∅ ]} ]} ∅ ∅).
  reflexivity.
Defined.

(** * File names *)

Lemma chars_string_of l : Str.chars (string_of l) = l.
Proof. apply String.list_ascii_of_string_of_list_ascii. Qed.

Lemma string_of_chars s : string_of (Str.chars s) = s.
Proof. apply String.string_of_list_ascii_of_string. Qed.

Lemma chars_inj s1 s2 : Str.chars s1 = Str.chars s2 -> s1 = s2.
Proof.
  intros H. rewrite <- (string_of_chars s1), <- (string_of_chars s2).
  now rewrite H.
Qed.

Lemma replace_char (a b : ascii) s :
  Str.replace_from [a] [b] 0 s
  = (fun c => if Ascii.eqb a c then b else c) <$> s.
Proof.
  induction s as [|c s IH]; [reflexivity|].
  cbn [Str.replace_from Str.is_prefix length]. rewrite fmap_cons.
  destruct (Ascii.eqb a c); simpl; rewrite IH; reflexivity.
Qed.

Lemma safe_category_chars category :
  Str.chars (safe_category category)
  = (fun c => if Ascii.eqb "/" c then "-"%char
              else if Ascii.eqb " " c then "_"%char else c)
    <$> Str.chars category.
Proof.
  unfold safe_category, Str.replace. rewrite chars_string_of.
  change (Str.chars "/") with ["/"%char].
  change (Str.chars "-") with ["-"%char].
  change (Str.chars " ") with [" "%char].
  change (Str.chars "_") with ["_"%char].
  rewrite !replace_char, <- list_fmap_compose.
  apply list_fmap_ext. intros _ c _. unfold compose.
  destruct (Ascii.eqb_spec " " c) as [<-|_]; reflexivity.
Qed.

Lemma safe_quarter_chars quarter :
  Str.chars (safe_quarter quarter)
  = (fun c => if Ascii.eqb " " c then "_"%char else c) <$> Str.chars quarter.
Proof.
  unfold safe_quarter, Str.replace. rewrite chars_string_of.
  change (Str.chars " ") with [" "%char].
  change (Str.chars "_") with ["_"%char].
  apply replace_char.
Qed.

(** generate_citymaps (lines 301-302), the sanitised labels: the category
    part of a file name contains neither a space nor a slash, and the
    quarter part contains no space. *)
Theorem safe_labels_clean quarter category :
  Forall (fun c => c <> " "%char /\ c <> "/"%char)
         (Str.chars (safe_category category))
  /\ Forall (fun c => c <> " "%char) (Str.chars (safe_quarter quarter)).
Proof.
  rewrite safe_category_chars, safe_quarter_chars. split.
  - apply Forall_fmap, Forall_forall. intros c _. unfold compose.
    destruct (Ascii.eqb_spec "/" c) as [_|H1]; [split; discriminate|].
    destruct (Ascii.eqb_spec " " c) as [_|H2]; [split; discriminate|].
    split; congruence.
  - apply Forall_fmap, Forall_forall. intros c _. unfold compose.
    destruct (Ascii.eqb_spec " " c) as [_|H]; [discriminate|congruence].
Qed.

(** generate_citymaps (lines 301-303), labels that share a file: a
    quarter and a category give the same file name as their sanitised
    forms, so a label with a space or a slash and the label with the
    replacement character in its place are written to one path. *)
Theorem map_filename_sanitised quarter category city_idx :
  map_filename (safe_quarter quarter) (safe_category category) city_idx
  = map_filename quarter category city_idx.
Proof.
  assert (Hq : safe_quarter (safe_quarter quarter) = safe_quarter quarter).
  { apply chars_inj. rewrite (safe_quarter_chars (safe_quarter quarter)).
    rewrite safe_quarter_chars, <- list_fmap_compose.
    apply list_fmap_ext. intros _ c _. unfold compose.
    destruct (Ascii.eqb_spec " " c) as [_|H]; [reflexivity|].
    destruct (Ascii.eqb_spec " " c) as [?|_]; [contradiction|reflexivity]. }
  assert (Hc : safe_category (safe_category category) = safe_category category).
  { apply chars_inj. rewrite (safe_category_chars (safe_category category)).
    rewrite safe_category_chars, <- list_fmap_compose.
    apply list_fmap_ext. intros _ c _. unfold compose.
    destruct (Ascii.eqb_spec "/" c) as [_|H1]; [reflexivity|].
    destruct (Ascii.eqb_spec " " c) as [_|H2]; [reflexivity|].
    destruct (Ascii.eqb_spec "/" c) as [?|_]; [contradiction|].
    destruct (Ascii.eqb_spec " " c) as [?|_]; [contradiction|reflexivity]. }
  unfold map_filename. rewrite Hq, Hc. reflexivity.
Qed.

(** generate_citymaps (line 303), one file per city of a slice: within
    one quarter and category, two different city indices give two
    different file names. *)
Theorem map_filename_city_distinct quarter category (i j : Z) :
  i <> j ->
  map_filename quarter category i <> map_filename quarter category j.
Proof.
  intros Hij Heq. apply Hij. unfold map_filename in Heq.
  apply (f_equal Str.chars) in Heq. rewrite !chars_app in Heq.
  do 3 apply app_inv_head in Heq. apply app_inv_tail in Heq.
  apply chars_inj in Heq. unfold py_str in Heq.
  exact (pretty_Z_inj _ _ Heq).
Qed.

Lemma map_filename_city_distinct_witness :
  map_filename "2014-Q1" "Food" 0 <> map_filename "2014-Q1" "Food" 1.
Proof.
  apply (map_filename_city_distinct "2014-Q1" "Food" 0 1). discriminate.
Defined.

(** * The page script on the generated tables *)

Lemma aggregated_spending_rows df city_names quarters spending_data
  percentage_data quarter category (category_percentages : gmap string Q) :
  calculate_spending_by_category_and_quarter df city_names quarters
  = Ok (spending_data, percentage_data) ->
  quarter ∈ quarters ->
  percentage_data !! quarter ≫= (.!! category) = Some category_percentages ->
  exists category_spending : gmap string Q,
    spending_data !! quarter ≫= (.!! category) = Some category_spending
    /\ forall city, city ∈ city_names ->
         is_Some (category_spending !! city).
Proof.
  intros Hrun Hq Hcp.
  destruct (calculate_tables _ _ _ _ _ Hrun quarter) as [Hin _].
  destruct (Hin Hq) as (sp_q & pc_q & Htab & Hsd & Hpd).
  rewrite Hpd in Hcp. simpl in Hcp. rewrite Hsd. simpl.
  destruct (quarter_tables_lookup _ _ _ _ _ Htab)
    as (sp_all & pc_all & Hallc & Hcats).
  destruct (Hcats category) as [Hdata Hother].
  destruct (decide (category ∈ (ExpType <$> df))) as [Hd|Hnd].
  - destruct (Hdata Hd) as (sp & pc & Hrows & Hsp & _).
    exists sp. split; [exact Hsp|].
    intros city Hc.
    destruct (category_rows_lookup _ _ _ _ _ _ Hrows city) as [Hcity _].
    destruct (Hcity Hc) as (t & share & _ & _ & -> & _). eauto.
  - destruct (Hother Hnd) as [Hsp Hpc].
    rewrite Hpc in Hcp. apply lookup_singleton_Some in Hcp as [<- _].
    rewrite lookup_singleton_eq in Hsp.
    exists sp_all. split; [exact Hsp|].
    intros city Hc.
    destruct (all_categories_lookup _ _ _ _ Hallc city) as [Hcity _].
    destruct (Hcity Hc) as (t & _ & -> & _). eauto.
Qed.

Lemma js_index_of_nat {A} (l : list A) (i : nat) :
  js_index l (Z.of_nat i) = l !! i.
Proof.
  unfold js_index. destruct (Z.ltb_spec (Z.of_nat i) 0) as [H|_]; [lia|].
  rewrite Nat2Z.id. reflexivity.
Qed.

(** The page script's [updateHeatmap] (lines 567-603) on the values of the
    main block (lines 326-340): with the tables of the aggregator, the city
    entries of [get_city_coords] and the two dictionaries returned by the
    generator, every lookup of the script succeeds for a listed quarter and
    category; the legend shows the stored range, and the view of each city
    entry, in order, shows that city's amount and percentage, the colour of
    the percentage within the range, and the file generated for the city,
    which exists. *)
Theorem updateHeatmap_after_generation create_citymap geocode buildings_data
  df city_names quarters categories spending_data percentage_data fs
  scale_ranges map_files fs' quarter category :
  calculate_spending_by_category_and_quarter df city_names quarters
  = Ok (spending_data, percentage_data) ->
  generate_citymaps create_citymap quarters categories percentage_data
    (get_city_coords geocode buildings_data city_names) fs
  = Ok (scale_ranges, map_files, fs') ->
  quarter ∈ quarters -> category ∈ categories ->
  exists range views,
    updateHeatmap spending_data percentage_data scale_ranges map_files
      (cityNames (get_city_coords geocode buildings_data city_names))
      (cityIndices (get_city_coords geocode buildings_data city_names))
      quarter category = Some (range, views)
    /\ scale_ranges !! quarter ≫= (.!! category) = Some range
    /\ Forall2 (fun city view =>
                  entry spending_data quarter category (name city)
                  = Some (spending view)
                  /\ entry percentage_data quarter category (name city)
                     = Some (percentage view)
                  /\ color view
                     = getHeatmapColor (percentage view) range.1 range.2
                  /\ newSrc view = map_filename quarter category (index city)
                  /\ is_Some (fs' !! newSrc view))
               (get_city_coords geocode buildings_data city_names) views.
Proof.
  intros Hagg Hgen Hq Hcat.
  set (city_coords := get_city_coords geocode buildings_data city_names) in *.
  unfold generate_citymaps in Hgen.
  destruct (for_each quarters _ _) as [[[mf sr] fs1]|] eqn:El;
    [|discriminate].
  simpl in Hgen. injection Hgen as <- <- <-.
  destruct (quarter_loop _ _ _ _ _ _ _ _ _ _ _ El) as [_ Hall].
  destruct (Hall quarter category Hcat (or_introl Hq))
    as (cf & [mn mx] & Hmf & Hsr & (cp & values & Hcp & Hvalues & _)
        & Hfiles & _).
  destruct (aggregated_spending_rows _ _ _ _ _ _ _ _ Hagg Hq Hcp)
    as (sp & Hsp & Hspending).
  assert (Hnames : forall city, city ∈ city_coords ->
            is_Some (sp !! name city) /\ is_Some (cp !! name city)).
  { intros city Hc. split.
    - apply Hspending. eapply get_city_coords_names. exact Hc.
    - apply mapM_Ok_Forall2 in Hvalues.
      apply list_elem_of_lookup in Hc as [i Hi].
      destruct (Forall2_lookup_l _ _ _ _ _ Hvalues Hi) as (v & _ & Hv).
      unfold getitem in Hv. destruct (cp !! name city); [eauto|discriminate]. }
  set (view := fun city : CityEntry =>
         {| spending := default 0%Q (sp !! name city);
            percentage := default 0%Q (cp !! name city);
            color := getHeatmapColor (default 0%Q (cp !! name city)) mn mx;
            newSrc := map_filename quarter category (index city) |}).
  exists (mn, mx), (view <$> city_coords).
  split; [|split; [exact Hsr|]].
  - unfold updateHeatmap. rewrite Hsp, Hcp, Hmf, Hsr. simpl.
    assert (Hviews :
      mapM (updateCity (cityNames city_coords) sp cp cf mn mx)
           (cityIndices city_coords) = Some (view <$> city_coords)).
    { apply mapM_Some. unfold cityIndices.
      apply Forall2_fmap, Forall_Forall2_diag, Forall_lookup.
      intros i city Hi.
      assert (Hc : city ∈ city_coords) by (eapply list_elem_of_lookup_2; eauto).
      destruct (Hnames city Hc) as [[s Hs] [p Hp]].
      destruct (Hfiles city Hc) as [Hfile _].
      pose proof Hi as Hi'. unfold city_coords in Hi'.
      apply get_city_coords_lookup in Hi' as (_ & _ & _ & _ & Hidx).
      unfold updateCity. rewrite Hidx, js_index_of_nat.
      unfold cityNames. rewrite list_lookup_fmap, Hi. simpl.
      rewrite Hs, Hp. simpl. rewrite <- Hidx, Hfile. simpl.
      unfold view. rewrite Hs, Hp. reflexivity. }
    rewrite Hviews. reflexivity.
  - apply Forall2_fmap_r, Forall_Forall2_diag, Forall_forall.
    intros city Hc.
    destruct (Hnames city Hc) as [[s Hs] [p Hp]].
    destruct (Hfiles city Hc) as [_ Hexists].
    unfold entry, view. simpl.
    apply bind_Some in Hsp as (sq & -> & Hsq).
    apply bind_Some in Hcp as (pq & -> & Hpq).
    simpl. rewrite Hsq, Hpq. simpl. rewrite Hs, Hp. simpl.
    repeat split; assumption.
Qed.

Lemma updateHeatmap_after_generation_witness :
  let df := [ {| City := "Pune"; ExpType := "Food"; YearQuarter := "2014-Q1"; Amount := 10 |};
              {| City := "Pune"; ExpType := "Fuel"; YearQuarter := "2014-Q2"; Amount := 30 |} ] in
  let city_coords := get_city_coords (fun _ => Raise KeyError) [[]] ["Pune"] in
  let spending_data : table :=
    {[ "All Time" := {[ "All Categories" := {[ "Pune" := 40%Q ]};
                        "Food" := {[ "Pune" := 10%Q ]};
                        "Fuel" := {[ "Pune" := 30%Q ]} ]} ]} in
  let percentage_data : table :=
    {[ "All Time" := {[ "All Categories" := {[ "Pune" := 100%Q ]};
                        "Food" := {[ "Pune" := 25%Q ]};
                        "Fuel" := {[ "Pune" := 75%Q ]} ]} ]} in
  calculate_spending_by_category_and_quarter df ["Pune"] ["All Time"]
  = Ok (spending_data, percentage_data)
  /\ exists scale_ranges map_files fs',
    generate_citymaps (fun _ _ _ _ _ => "page") ["All Time"]
         ["All Categories"; "Food"] percentage_data city_coords ∅
       = Ok (scale_ranges, map_files, fs')
    /\ exists range views,
         updateHeatmap spending_data percentage_data scale_ranges map_files
           (cityNames city_coords) (cityIndices city_coords)
           "All Time" "Food" = Some (range, views)
         /\ scale_ranges !! "All Time" ≫= (.!! "Food") = Some range
         /\ Forall2 (fun city view =>
                       entry spending_data "All Time" "Food" (name city)
                       = Some (spending view)
                       /\ entry percentage_data "All Time" "Food" (name city)
                          = Some (percentage view)
                       /\ color view
                          = getHeatmapColor (percentage view) range.1 range.2
                       /\ newSrc view
                          = map_filename "All Time" "Food" (index city)
                       /\ is_Some (fs' !! newSrc view))
                    city_coords views.
Proof.
  intros df city_coords spending_data percentage_data.
  assert (Hagg : calculate_spending_by_category_and_quarter df ["Pune"] ["All Time"]
                 = Ok (spending_data, percentage_data)) by reflexivity.
  assert (Hgen : exists scale_ranges map_files fs',
            generate_citymaps (fun _ _ _ _ _ => "page") ["All Time"]
              ["All Categories"; "Food"] percentage_data city_coords ∅
            = Ok (scale_ranges, map_files, fs'))
    by (eexists _, _, _; reflexivity).
  destruct Hgen as (scale_ranges & map_files & fs' & Hgen).
  split; [exact Hagg|]. exists scale_ranges, map_files, fs'.
  split; [exact Hgen|].
  apply (updateHeatmap_after_generation (fun _ _ _ _ _ => "page")
           (fun _ => Raise KeyError) [[]] df ["Pune"] ["All Time"]
           ["All Categories"; "Food"] spending_data percentage_data ∅
           scale_ranges map_files fs' "All Time" "Food" Hagg Hgen).
  - apply list_elem_of_In. simpl. auto.
  - apply list_elem_of_In. simpl. auto.
Defined.

(** * Quarter labels *)

Lemma py_str_neg (n : positive) : py_str (Zneg n) = "-" +:+ py_str (Zpos n).
Proof. reflexivity. Qed.

Lemma py_str_chars (z : Z) :
  exists c ds,
    Str.chars (py_str z) = c :: ds
    /\ Forall (fun c => is_digit c \/ c = "-"%char) (c :: ds).
Proof.
  destruct z as [|n|n].
  - exists "0"%char, []. split; [reflexivity|].
    repeat constructor. unfold is_digit. simpl. eauto.
  - destruct (pretty_positive_digits n) as (c & ds & -> & Hd & _).
    exists c, ds. split; [reflexivity|].
    eapply Forall_impl; [exact Hd|]. auto.
  - rewrite py_str_neg, chars_app.
    destruct (pretty_positive_digits n) as (c & ds & -> & Hd & _).
    exists "-"%char, (c :: ds). split; [reflexivity|].
    constructor; [right; reflexivity|].
    eapply Forall_impl; [exact Hd|]. auto.
Qed.

Lemma digit_or_minus_not (c x : ascii) :
  PyFloat.digit_val x = None -> x <> "-"%char ->
  is_digit c \/ c = "-"%char -> c <> x.
Proof.
  intros Hx Hm [[d Hd]|Hc] Heq; subst x; [congruence|contradiction].
Qed.

Lemma year_quarter_not_all_time year quarter :
  year_quarter year quarter <> "All Time".
Proof.
  intros Heq. apply (f_equal Str.chars) in Heq.
  unfold year_quarter in Heq. rewrite chars_app in Heq.
  destruct (py_str_chars year) as (c & ds & Hc & Hall).
  rewrite Hc in Heq. injection Heq as Hhead _.
  apply Forall_cons in Hall as [Hfirst _].
  apply (digit_or_minus_not c "A"%char) in Hfirst;
    [contradiction|reflexivity|discriminate].
Qed.

Lemma split_at_first {A} (x : A) (l1 l2 r1 r2 : list A) :
  x ∉ l1 -> x ∉ l2 -> l1 ++ x :: r1 = l2 ++ x :: r2 -> l1 = l2 /\ r1 = r2.
Proof.
  revert l2. induction l1 as [|a l1 IH]; intros [|b l2] H1 H2 Heq.
  - injection Heq as ->. auto.
  - injection Heq as <- _. exfalso. apply H2. left.
  - injection Heq as -> _. exfalso. apply H1. left.
  - injection Heq as -> Heq.
    destruct (IH l2) as [-> ->]; [| |exact Heq|auto].
    + intros H. apply H1. right. exact H.
    + intros H. apply H2. right. exact H.
Qed.

Lemma py_str_no_Q (z : Z) : "Q"%char ∉ Str.chars (py_str z) ++ ["-"%char].
Proof.
  destruct (py_str_chars z) as (c & ds & -> & Hall).
  intros Hin. apply elem_of_app in Hin as [Hin|Hin].
  - rewrite Forall_forall in Hall. specialize (Hall _ Hin).
    apply (digit_or_minus_not _ "Q"%char) in Hall;
      [contradiction|reflexivity|discriminate].
  - apply list_elem_of_singleton in Hin. discriminate.
Qed.

(** The main block's quarter labels (lines 318-320) in the aggregator
    (lines 131-134): a label made of a year and a quarter number is never
    the label of the whole period, so its slice holds exactly the rows that
    carry the label. *)
Theorem year_quarter_rows df year quarter :
  quarter_rows df (year_quarter year quarter)
  = filter (fun r => YearQuarter r = year_quarter year quarter) df.
Proof.
  unfold quarter_rows.
  destruct (String.eqb_spec (year_quarter year quarter) "All Time") as [H|_];
    [|reflexivity].
  exfalso. exact (year_quarter_not_all_time _ _ H).
Qed.

(** The main block's quarter labels (lines 318-320): two rows that
    differ in the year or in the quarter number get different labels. *)
Theorem year_quarter_distinct (year quarter year' quarter' : Z) :
  (year, quarter) <> (year', quarter') ->
  year_quarter year quarter <> year_quarter year' quarter'.
Proof.
  intros Hne Heq. apply Hne.
  apply (f_equal Str.chars) in Heq. unfold year_quarter in Heq.
  rewrite !chars_app in Heq.
  change (Str.chars "-Q") with (["-"%char] ++ ["Q"%char]) in Heq.
  rewrite <- !app_assoc in Heq.
  rewrite !(app_assoc (Str.chars (py_str _)) ["-"%char]) in Heq.
  apply split_at_first in Heq as [Hy Hq];
    [|apply py_str_no_Q|apply py_str_no_Q].
  apply app_inv_tail in Hy. apply chars_inj in Hy. apply chars_inj in Hq.
  unfold py_str in Hy, Hq.
  rewrite (pretty_Z_inj _ _ Hy), (pretty_Z_inj _ _ Hq). reflexivity.
Qed.

Lemma year_quarter_distinct_witness :
  year_quarter 2014 1 <> year_quarter 2014 2.
Proof.
  apply (year_quarter_distinct 2014 1 2014 2). discriminate.
Defined.

(** * Binary64 arithmetic: rounding and its consequences *)


Section Binary64.
Local Open Scope Q_scope.

Lemma pow2_pos e : 0 < B64.pow2 e.
Proof. apply Qpower_0_lt. reflexivity. Qed.

Lemma pow2_add a b : B64.pow2 (a + b) == B64.pow2 a * B64.pow2 b.
Proof. apply Qpower_plus. intros H. discriminate H. Qed.

Lemma pow2_le a b : (a <= b)%Z -> B64.pow2 a <= B64.pow2 b.
Proof. intros H. apply Qpower_le_compat_l; [exact H|discriminate]. Qed.

Lemma pow2_lt a b : (a < b)%Z -> B64.pow2 a < B64.pow2 b.
Proof. intros H. apply Qpower_lt_compat_l; [exact H|reflexivity]. Qed.

Lemma pow2_lt_inv a b : B64.pow2 a < B64.pow2 b -> (a < b)%Z.
Proof. intros H. eapply Qpower_lt_compat_l_inv; [exact H|reflexivity]. Qed.

Lemma pow2_Z e : (0 <= e)%Z -> B64.pow2 e == inject_Z (2 ^ e).
Proof. intros H. unfold B64.pow2. rewrite Zpower_Qpower by exact H. reflexivity. Qed.

Lemma pow2_0 : B64.pow2 0 == 1.
Proof. reflexivity. Qed.

Lemma pow2_cancel a : B64.pow2 a * B64.pow2 (- a) == 1.
Proof. rewrite <- pow2_add. replace (a + - a)%Z with 0%Z by lia. reflexivity. Qed.

(** ** The magnitude *)

Lemma Q_as_fraction (a : Q) : a * inject_Z (Zpos (Qden a)) == inject_Z (Qnum a).
Proof.
  destruct a as [n d]. unfold Qeq, Qmult, inject_Z. simpl.
  rewrite Pos.mul_1_r. ring.
Qed.

Lemma log2_bounds (n : Z) : (0 < n)%Z ->
  B64.pow2 (Z.log2 n) <= inject_Z n /\ inject_Z n < B64.pow2 (Z.log2 n + 1).
Proof.
  intros Hn. destruct (Z.log2_spec n Hn) as [Hlo Hhi].
  pose proof (Z.log2_nonneg n) as Hl.
  rewrite !pow2_Z by lia. rewrite <- Zle_Qle, <- Zlt_Qlt.
  replace (Z.log2 n + 1)%Z with (Z.succ (Z.log2 n)) by lia. auto.
Qed.

Lemma mag_spec a : 0 < a ->
  B64.pow2 (B64.mag a - 1) <= a /\ a < B64.pow2 (B64.mag a).
Proof.
  intros Ha.
  assert (Hn : (0 < Qnum a)%Z).
  { destruct a as [n d]. unfold Qlt in Ha. simpl in *. lia. }
  destruct (log2_bounds (Qnum a) Hn) as [Hn1 Hn2].
  destruct (log2_bounds (Zpos (Qden a)) eq_refl) as [Hd1 Hd2].
  pose proof (Q_as_fraction a) as Hfrac.
  set (ln := Z.log2 (Qnum a)) in *. set (ld := Z.log2 (Zpos (Qden a))) in *.
  set (N := inject_Z (Qnum a)) in *. set (D := inject_Z (Zpos (Qden a))) in *.
  assert (Hup : a < B64.pow2 (ln - ld + 1)).
  { pose proof (pow2_add (ln - ld + 1) ld) as E.
    replace (ln - ld + 1 + ld)%Z with (ln + 1)%Z in E by lia.
    pose proof (pow2_pos ld). pose proof (pow2_pos (ln - ld + 1)).
    apply Qnot_le_lt. intros Hc.
    assert (B64.pow2 (ln - ld + 1) * B64.pow2 ld <= a * D) by nra.
    lra. }
  assert (Hlow : B64.pow2 (ln - ld - 1) < a).
  { pose proof (pow2_add (ln - ld - 1) (ld + 1)) as E.
    replace (ln - ld - 1 + (ld + 1))%Z with ln in E by lia.
    pose proof (pow2_pos (ld + 1)). pose proof (pow2_pos (ln - ld - 1)).
    apply Qnot_le_lt. intros Hc.
    assert (a * D < B64.pow2 (ln - ld - 1) * B64.pow2 (ld + 1)) by nra.
    lra. }
  unfold B64.mag. fold ln ld.
  destruct (Qle_bool (B64.pow2 (ln - ld)) a) eqn:E.
  - apply Qle_bool_iff in E.
    replace (ln - ld + 1 - 1)%Z with (ln - ld)%Z by lia. split; assumption.
  - assert (a < B64.pow2 (ln - ld)).
    { apply Qnot_le_lt. intros H. apply Qle_bool_iff in H. congruence. }
    split; [apply Qlt_le_weak; exact Hlow|assumption].
Qed.

Lemma mag_le x y : 0 < x -> x <= y -> (B64.mag x <= B64.mag y)%Z.
Proof.
  intros Hx Hxy.
  destruct (mag_spec x Hx) as [Hx1 _].
  destruct (mag_spec y) as [_ Hy2]; [lra|].
  assert (B64.pow2 (B64.mag x - 1) < B64.pow2 (B64.mag y)) by lra.
  apply pow2_lt_inv in H. lia.
Qed.

Lemma mag_lt_pow2 a e : 0 < a -> a < B64.pow2 e -> (B64.mag a <= e)%Z.
Proof.
  intros Ha H. destruct (mag_spec a Ha) as [H1 _].
  assert (B64.pow2 (B64.mag a - 1) < B64.pow2 e) by lra.
  apply pow2_lt_inv in H0. lia.
Qed.

(** ** Rounding to the nearest integer, ties to even *)

Lemma rne_comp x y : x == y -> B64.rne x = B64.rne y.
Proof.
  intros H. unfold B64.rne. rewrite (Qfloor_comp x y H).
  assert (E : x - inject_Z (Qfloor y) == y - inject_Z (Qfloor y)) by (rewrite H; reflexivity).
  rewrite (Qcompare_comp _ _ E _ _ (Qeq_refl _)). reflexivity.
Qed.

Lemma rne_Z z : B64.rne (inject_Z z) = z.
Proof.
  unfold B64.rne. rewrite Qfloor_Z.
  assert (E : ((inject_Z z - inject_Z z) ?= (1 # 2)) = Lt).
  { rewrite <- Qlt_alt. ring_simplify (inject_Z z - inject_Z z). reflexivity. }
  rewrite E. reflexivity.
Qed.

Lemma rne_cases x :
  (B64.rne x = Qfloor x /\ x - inject_Z (Qfloor x) <= 1 # 2)
  \/ (B64.rne x = (Qfloor x + 1)%Z /\ 1 # 2 <= x - inject_Z (Qfloor x)).
Proof.
  unfold B64.rne.
  destruct (Qcompare_spec (x - inject_Z (Qfloor x)) (1 # 2)) as [H|H|H].
  - destruct (Z.even (Qfloor x)); [left|right]; split; auto; lra.
  - left. split; [reflexivity|lra].
  - right. split; [reflexivity|lra].
Qed.

Lemma rne_mono x y : x <= y -> (B64.rne x <= B64.rne y)%Z.
Proof.
  intros Hxy. pose proof (Qfloor_resp_le x y Hxy) as Hf.
  destruct (Z.eq_dec (Qfloor x) (Qfloor y)) as [E|E].
  - unfold B64.rne. rewrite <- E.
    destruct (Qcompare_spec (x - inject_Z (Qfloor x)) (1 # 2)) as [Hx|Hx|Hx];
    destruct (Qcompare_spec (y - inject_Z (Qfloor x)) (1 # 2)) as [Hy|Hy|Hy];
      try lia; try lra;
      destruct (Z.even (Qfloor x)); lia.
  - destruct (rne_cases x) as [[-> _]|[-> _]];
    destruct (rne_cases y) as [[-> _]|[-> _]]; lia.
Qed.

Lemma rne_le_Z x z : x <= inject_Z z -> (B64.rne x <= z)%Z.
Proof. intros H. rewrite <- (rne_Z z). apply rne_mono, H. Qed.

Lemma rne_ge_Z x z : inject_Z z <= x -> (z <= B64.rne x)%Z.
Proof. intros H. rewrite <- (rne_Z z). apply rne_mono, H. Qed.

(** ** Rounding a positive number, exponent unbounded above *)

Lemma cexp_ge a : (-1074 <= B64.cexp a)%Z.
Proof. unfold B64.cexp. lia. Qed.

Lemma round_pos_nonneg a : 0 <= a -> 0 <= B64.round_pos a.
Proof.
  intros Ha. unfold B64.round_pos.
  pose proof (pow2_pos (B64.cexp a)). pose proof (pow2_pos (- B64.cexp a)).
  assert (0 <= B64.rne (a * B64.pow2 (- B64.cexp a)))%Z.
  { apply rne_ge_Z. change (inject_Z 0) with 0. nra. }
  rewrite Zle_Qle in H1. change (inject_Z 0) with 0 in H1. nra.
Qed.

Lemma round_pos_mono x y : 0 < x -> x <= y ->
  B64.round_pos x <= B64.round_pos y.
Proof.
  intros Hx Hxy. assert (Hy : 0 < y) by lra.
  pose proof (mag_le x y Hx Hxy) as Hmag.
  destruct (mag_spec x Hx) as [Hx1 Hx2]. destruct (mag_spec y Hy) as [Hy1 Hy2].
  unfold B64.round_pos.
  set (ex := B64.cexp x). set (ey := B64.cexp y).
  assert (Hex : ex = Z.max (B64.mag x - 53) (-1074)) by reflexivity.
  assert (Hey : ey = Z.max (B64.mag y - 53) (-1074)) by reflexivity.
  pose proof (pow2_pos ex) as Pex. pose proof (pow2_pos ey) as Pey.
  pose proof (pow2_pos (- ex)) as Pnex. pose proof (pow2_pos (- ey)) as Pney.
  destruct (Z.eq_dec ex ey) as [E|E].
  - rewrite <- E.
    assert (H : (B64.rne (x * B64.pow2 (- ex)) <= B64.rne (y * B64.pow2 (- ex)))%Z).
    { apply rne_mono. nra. }
    rewrite Zle_Qle in H. nra.
  - assert (Hlt : (ex < ey)%Z) by lia.
    assert (Hey' : ey = (B64.mag y - 53)%Z) by lia.
    apply Qle_trans with (B64.pow2 (B64.mag y - 1)).
    + set (k := (B64.mag x - ex)%Z).
      assert (Hs : x * B64.pow2 (- ex) < B64.pow2 k).
      { unfold k. replace (B64.mag x - ex)%Z with (B64.mag x + - ex)%Z by lia.
        rewrite pow2_add. nra. }
      destruct (Z_le_gt_dec 0 k) as [Hk|Hk].
      * assert (H : (B64.rne (x * B64.pow2 (- ex)) <= 2 ^ k)%Z).
        { apply rne_le_Z. rewrite <- pow2_Z by exact Hk. lra. }
        rewrite Zle_Qle in H. rewrite <- pow2_Z in H by exact Hk.
        assert (E2 : B64.pow2 k * B64.pow2 ex == B64.pow2 (B64.mag x)).
        { rewrite <- pow2_add. unfold k.
          replace (B64.mag x - ex + ex)%Z with (B64.mag x) by lia. reflexivity. }
        assert (B64.pow2 (B64.mag x) <= B64.pow2 (B64.mag y - 1))
          by (apply pow2_le; lia).
        nra.
      * assert (H : (B64.rne (x * B64.pow2 (- ex)) <= 1)%Z).
        { apply rne_le_Z. assert (B64.pow2 k <= B64.pow2 0) by (apply pow2_le; lia).
          rewrite pow2_0 in H. change (inject_Z 1) with 1. lra. }
        rewrite Zle_Qle in H. change (inject_Z 1) with 1 in H.
        assert (B64.pow2 ex <= B64.pow2 (B64.mag y - 1))
          by (apply pow2_le; lia).
        nra.
    + assert (Hs : B64.pow2 52 <= y * B64.pow2 (- ey)).
      { assert (E2 : B64.pow2 (B64.mag y - 1) * B64.pow2 (- ey) == B64.pow2 52).
        { rewrite <- pow2_add. replace (B64.mag y - 1 + - ey)%Z with 52%Z by lia.
          reflexivity. }
        nra. }
      assert (H : (2 ^ 52 <= B64.rne (y * B64.pow2 (- ey)))%Z).
      { apply rne_ge_Z. rewrite <- pow2_Z by lia. exact Hs. }
      rewrite Zle_Qle in H. rewrite <- pow2_Z in H by lia.
      assert (E2 : B64.pow2 52 * B64.pow2 ey == B64.pow2 (B64.mag y - 1)).
      { rewrite <- pow2_add. replace (52 + ey)%Z with (B64.mag y - 1)%Z by lia.
        reflexivity. }
      nra.
Qed.

Lemma round_pos_exact a m e :
  (0 < m < 2 ^ 53)%Z -> (-1074 <= e)%Z ->
  a == inject_Z m * B64.pow2 e ->
  B64.round_pos a == a.
Proof.
  intros Hm He Ha.
  pose proof (pow2_pos e) as Pe.
  assert (Hm1 : 0 < inject_Z m).
  { change 0 with (inject_Z 0). rewrite <- Zlt_Qlt. lia. }
  assert (Hm2 : inject_Z m < B64.pow2 53).
  { rewrite pow2_Z by lia. rewrite <- Zlt_Qlt. lia. }
  assert (Hpos : 0 < a) by (rewrite Ha; nra).
  assert (Hmag : (B64.mag a <= 53 + e)%Z).
  { apply mag_lt_pow2; [exact Hpos|]. rewrite pow2_add, Ha. nra. }
  unfold B64.round_pos. set (c := B64.cexp a).
  assert (Hc : (c <= e)%Z) by (unfold c, B64.cexp; lia).
  assert (Hs : a * B64.pow2 (- c) == inject_Z (m * 2 ^ (e - c))).
  { rewrite inject_Z_mult, <- pow2_Z by lia.
    replace (e - c)%Z with (e + - c)%Z by lia. rewrite pow2_add, Ha. ring. }
  rewrite (rne_comp _ _ Hs), rne_Z.
  rewrite inject_Z_mult, <- pow2_Z by lia.
  rewrite <- Qmult_assoc, <- pow2_add.
  replace (e - c + c)%Z with e by lia. rewrite Ha. reflexivity.
Qed.

(** ** Rounding to binary64 *)

Lemma mag_comp a b : 0 < a -> a == b -> B64.mag a = B64.mag b.
Proof.
  intros Ha E. assert (Hb : 0 < b) by lra.
  destruct (mag_spec a Ha) as [A1 A2]. destruct (mag_spec b Hb) as [B1 B2].
  assert (H1 : B64.pow2 (B64.mag a - 1) < B64.pow2 (B64.mag b)) by lra.
  assert (H2 : B64.pow2 (B64.mag b - 1) < B64.pow2 (B64.mag a)) by lra.
  apply pow2_lt_inv in H1, H2. lia.
Qed.

Lemma round_pos_comp a b : 0 < a -> a == b -> B64.round_pos a == B64.round_pos b.
Proof.
  intros Ha E. unfold B64.round_pos, B64.cexp.
  rewrite (mag_comp a b Ha E).
  assert (E2 : a * B64.pow2 (- Z.max (B64.mag b - 53) (-1074))
               == b * B64.pow2 (- Z.max (B64.mag b - 53) (-1074)))
    by (rewrite E; reflexivity).
  rewrite (rne_comp _ _ E2). reflexivity.
Qed.

Lemma round_comp a b : a == b -> B64.round a = B64.round b.
Proof.
  intros E. unfold B64.round.
  rewrite (Qcompare_comp _ _ E _ _ (Qeq_refl 0)).
  destruct (Qcompare_spec b 0) as [H|H|H]; [reflexivity| |].
  - assert (Ha : 0 < - a) by (rewrite E; lra).
    assert (E' : - a == - b) by (rewrite E; reflexivity).
    pose proof (round_pos_comp _ _ Ha E') as Hr. cbv zeta.
    assert (Hb : Qle_bool (B64.pow2 1024) (B64.round_pos (- a))
                 = Qle_bool (B64.pow2 1024) (B64.round_pos (- b))).
    { apply eq_true_iff_eq. rewrite !Qle_bool_iff, Hr. reflexivity. }
    rewrite Hb. clear Hb.
    destruct (Qle_bool (B64.pow2 1024) (B64.round_pos (- b))); [reflexivity|].
    f_equal. apply Qred_complete. rewrite Hr. reflexivity.
  - assert (Ha : 0 < a) by (rewrite E; lra).
    pose proof (round_pos_comp _ _ Ha E) as Hr. cbv zeta.
    assert (Hb : Qle_bool (B64.pow2 1024) (B64.round_pos a)
                 = Qle_bool (B64.pow2 1024) (B64.round_pos b)).
    { apply eq_true_iff_eq. rewrite !Qle_bool_iff, Hr. reflexivity. }
    rewrite Hb. clear Hb.
    destruct (Qle_bool (B64.pow2 1024) (B64.round_pos b)); [reflexivity|].
    f_equal. apply Qred_complete. exact Hr.
Qed.

(** The three shapes of a rounded number. *)
Lemma round_cases q :
  (q == 0 /\ B64.round q = Fin 0)
  \/ (0 < q /\ ((B64.pow2 1024 <= B64.round_pos q /\ B64.round q = PInf)
                \/ (B64.round_pos q < B64.pow2 1024
                    /\ B64.round q = Fin (Qred (B64.round_pos q)))))
  \/ (q < 0 /\ ((B64.pow2 1024 <= B64.round_pos (- q) /\ B64.round q = NInf)
                \/ (B64.round_pos (- q) < B64.pow2 1024
                    /\ B64.round q = Fin (Qred (- B64.round_pos (- q)))))).
Proof.
  unfold B64.round. destruct (Qcompare_spec q 0) as [H|H|H].
  - left. auto.
  - right. right. split; [exact H|]. cbv zeta.
    destruct (Qle_bool (B64.pow2 1024) (B64.round_pos (- q))) eqn:E.
    + left. apply Qle_bool_iff in E. auto.
    + right. split; [|reflexivity]. apply Qnot_le_lt. intros Hc.
      apply Qle_bool_iff in Hc. congruence.
  - right. left. split; [exact H|]. cbv zeta.
    destruct (Qle_bool (B64.pow2 1024) (B64.round_pos q)) eqn:E.
    + left. apply Qle_bool_iff in E. auto.
    + right. split; [|reflexivity]. apply Qnot_le_lt. intros Hc.
      apply Qle_bool_iff in Hc. congruence.
Qed.

Lemma round_not_nan q : B64.round q <> NaN.
Proof.
  destruct (round_cases q) as [[_ ->]|[[_ [[_ ->]|[_ ->]]]|[_ [[_ ->]|[_ ->]]]]];
    discriminate.
Qed.

Lemma round_mono x y : x <= y -> B64.le (B64.round x) (B64.round y).
Proof.
  intros Hxy.
  destruct (round_cases x) as [[Hx ->]|[[Hx Rx]|[Hx Rx]]];
  destruct (round_cases y) as [[Hy ->]|[[Hy Ry]|[Hy Ry]]]; try lra.
  - simpl. lra.
  - pose proof (round_pos_nonneg y (Qlt_le_weak _ _ Hy)).
    destruct Ry as [[_ ->]|[_ ->]]; simpl; [exact I|].
    rewrite Qred_correct. exact H.
  - pose proof (round_pos_mono x y Hx Hxy) as Hm.
    destruct Rx as [[Hx1 ->]|[Hx1 ->]]; destruct Ry as [[Hy1 ->]|[Hy1 ->]];
      simpl; try exact I; [lra|].
    rewrite !Qred_correct. exact Hm.
  - assert (Hnx : 0 <= - x) by lra.
    pose proof (round_pos_nonneg (- x) Hnx).
    destruct Rx as [[_ ->]|[_ ->]]; simpl; [exact I|].
    rewrite Qred_correct. lra.
  - assert (Hnx : 0 <= - x) by lra.
    pose proof (round_pos_nonneg (- x) Hnx).
    pose proof (round_pos_nonneg y (Qlt_le_weak _ _ Hy)).
    destruct Rx as [[_ ->]|[_ ->]]; destruct Ry as [[_ ->]|[_ ->]];
      simpl; try exact I.
    rewrite !Qred_correct. lra.
  - assert (Hny : 0 < - y) by lra. assert (Hyx : - y <= - x) by lra.
    pose proof (round_pos_mono (- y) (- x) Hny Hyx) as Hm.
    destruct Rx as [[Hx1 ->]|[Hx1 ->]]; destruct Ry as [[Hy1 ->]|[Hy1 ->]];
      simpl; try exact I; [lra|].
    rewrite !Qred_correct. lra.
Qed.

Lemma round_exact_below a m e :
  (Z.abs m <= 2 ^ 53)%Z -> (-1074 <= e)%Z ->
  a == inject_Z m * B64.pow2 e ->
  Qabs a < B64.pow2 1024 ->
  B64.round a = Fin (Qred a).
Proof.
  assert (Hpos : forall a m e, (0 < m <= 2 ^ 53)%Z -> (-1074 <= e)%Z ->
            a == inject_Z m * B64.pow2 e -> B64.round_pos a == a).
  { clear. intros a m e Hm He Ha. pose proof (pow2_pos e) as Pe.
    destruct (Z.eq_dec m (2 ^ 53)%Z) as [->|Hne].
    - apply (round_pos_exact a (2 ^ 52)%Z (e + 1)%Z); [lia|lia|].
      rewrite Ha, pow2_add. change (B64.pow2 1) with 2.
      assert (E : inject_Z (2 ^ 53) == 2 * inject_Z (2 ^ 52)) by reflexivity.
      rewrite E. ring.
    - apply (round_pos_exact a m e); [lia|lia|exact Ha]. }
  intros Hm He Ha Hlt. pose proof (pow2_pos e) as Pe.
  apply Qabs_Qlt_condition in Hlt as [Hlt1 Hlt2].
  destruct (Z.lt_trichotomy m 0) as [Hneg|[->|Hp]].
  - assert (Hna : - a == inject_Z (- m) * B64.pow2 e).
    { rewrite Ha, inject_Z_opp. ring. }
    pose proof (Hpos (- a) (- m)%Z e ltac:(lia) He Hna) as Hr.
    assert (Ha0 : a < 0).
    { assert (0 < inject_Z (- m)).
      { change 0 with (inject_Z 0). rewrite <- Zlt_Qlt. lia. }
      assert (0 < - a) by (rewrite Hna; nra). lra. }
    destruct (round_cases a) as [[H _]|[[H _]|[_ [[H _]|[_ ->]]]]]; try lra.
    f_equal. apply Qred_complete. rewrite Hr. ring.
  - assert (a == 0) by (rewrite Ha; change (inject_Z 0) with 0; ring).
    rewrite (round_comp a 0 H). transitivity (Fin (Qred 0)); [reflexivity|].
    f_equal. symmetry. apply Qred_complete. exact H.
  - pose proof (Hpos a m e ltac:(lia) He Ha) as Hr.
    assert (Ha0 : 0 < a).
    { assert (0 < inject_Z m).
      { change 0 with (inject_Z 0). rewrite <- Zlt_Qlt. lia. }
      rewrite Ha. nra. }
    destruct (round_cases a) as [[H _]|[[_ [[H _]|[_ ->]]]|[H _]]]; try lra.
    f_equal. apply Qred_complete. exact Hr.
Qed.

Lemma round_exact a m e :
  (Z.abs m <= 2 ^ 53)%Z -> (-1074 <= e <= 970)%Z ->
  a == inject_Z m * B64.pow2 e ->
  B64.round a = Fin (Qred a).
Proof.
  intros Hm He Ha. apply (round_exact_below a m e Hm); [lia|exact Ha|].
  pose proof (pow2_pos e) as Pe.
  assert (H53 : B64.pow2 53 * B64.pow2 e < B64.pow2 1024).
  { rewrite <- pow2_add. apply pow2_lt. lia. }
  assert (Hm1 : inject_Z m <= B64.pow2 53).
  { rewrite pow2_Z by lia. rewrite <- Zle_Qle. lia. }
  assert (Hm2 : - B64.pow2 53 <= inject_Z m).
  { rewrite pow2_Z by lia. rewrite <- inject_Z_opp, <- Zle_Qle. lia. }
  apply Qabs_Qlt_condition. rewrite Ha. split; nra.
Qed.

Lemma round_Z z : (Z.abs z <= 2 ^ 53)%Z -> B64.round (inject_Z z) = Fin (inject_Z z).
Proof.
  intros Hz. rewrite (round_exact (inject_Z z) z 0 Hz); [|lia|].
  - rewrite Qred_inject_Z. reflexivity.
  - rewrite pow2_0. ring.
Qed.

(** A rounded number lies between the rounded bounds. *)
Lemma round_between lo hi x l h :
  lo <= x -> x <= hi ->
  B64.round lo = Fin l -> B64.round hi = Fin h ->
  exists r, B64.round x = Fin r /\ l <= r /\ r <= h.
Proof.
  intros H1 H2 Hl Hh.
  pose proof (round_mono lo x H1) as M1. pose proof (round_mono x hi H2) as M2.
  rewrite Hl in M1. rewrite Hh in M2.
  destruct (B64.round x) as [r| | |]; simpl in *; try contradiction.
  exists r. auto.
Qed.

(** Rounding moves a number by at most one step of any grid [2^-k] whose
    points of that magnitude are binary64 numbers. *)
Lemma round_near x k :
  (0 <= k <= 1074)%Z -> Qabs x < B64.pow2 (53 - k) ->
  exists r, B64.round x = Fin r
            /\ x - B64.pow2 (- k) <= r /\ r <= x + B64.pow2 (- k).
Proof.
  intros Hk Hx.
  pose proof (pow2_pos k) as Pk. pose proof (pow2_pos (- k)) as Pnk.
  pose proof (pow2_cancel k) as Hc.
  assert (E53 : B64.pow2 (53 - k) * B64.pow2 k == B64.pow2 53).
  { rewrite <- pow2_add. replace (53 - k + k)%Z with 53%Z by lia. reflexivity. }
  assert (P53 : B64.pow2 53 == inject_Z (2 ^ 53)) by (apply pow2_Z; lia).
  apply Qabs_Qlt_condition in Hx as [Hx1 Hx2].
  set (g := Qfloor (x * B64.pow2 k)).
  pose proof (Qfloor_le (x * B64.pow2 k)) as Hg1.
  pose proof (Qlt_floor (x * B64.pow2 k)) as Hg2. fold g in Hg1, Hg2.
  assert (Hgb : (- 2 ^ 53 <= g <= 2 ^ 53 - 1)%Z).
  { split.
    - assert (H : (- 2 ^ 53 <= Qfloor (x * B64.pow2 k))%Z).
      { rewrite <- (Qfloor_Z (- 2 ^ 53)). apply Qfloor_resp_le.
        rewrite inject_Z_opp, <- P53. nra. }
      exact H.
    - assert (H : inject_Z g < inject_Z (2 ^ 53)) by (rewrite <- P53; nra).
      rewrite <- Zlt_Qlt in H. lia. }
  rewrite inject_Z_plus in Hg2. change (inject_Z 1) with 1 in Hg2.
  assert (Hlo : B64.round (inject_Z g * B64.pow2 (- k))
                = Fin (Qred (inject_Z g * B64.pow2 (- k)))).
  { apply (round_exact _ g (- k)); [lia|lia|reflexivity]. }
  assert (Hhi : B64.round (inject_Z (g + 1) * B64.pow2 (- k))
                = Fin (Qred (inject_Z (g + 1) * B64.pow2 (- k)))).
  { apply (round_exact _ (g + 1) (- k)); [lia|lia|reflexivity]. }
  assert (Hxk : x == x * B64.pow2 k * B64.pow2 (- k)).
  { rewrite <- Qmult_assoc, Hc. ring. }
  assert (H1 : inject_Z g * B64.pow2 (- k) <= x) by nra.
  assert (H2 : x <= inject_Z (g + 1) * B64.pow2 (- k)).
  { rewrite inject_Z_plus. change (inject_Z 1) with 1. nra. }
  destruct (round_between _ _ x _ _ H1 H2 Hlo Hhi) as (r & Hr & Hr1 & Hr2).
  exists r. split; [exact Hr|].
  rewrite Qred_correct in Hr1, Hr2. rewrite inject_Z_plus in Hr2.
  change (inject_Z 1) with 1 in Hr2. split; nra.
Qed.

(** A binary64 number is a multiple of the smallest subnormal number. *)
Lemma is_float_grid q : B64.is_float q ->
  exists z, q == inject_Z z * B64.pow2 (-1074).
Proof.
  unfold B64.is_float. intros Hq.
  assert (Hgrid : forall a, exists z,
            B64.round_pos a == inject_Z z * B64.pow2 (-1074)).
  { intros a. unfold B64.round_pos. pose proof (cexp_ge a) as Hc.
    exists (B64.rne (a * B64.pow2 (- B64.cexp a)) * 2 ^ (B64.cexp a + 1074))%Z.
    rewrite inject_Z_mult, <- pow2_Z by lia.
    rewrite <- Qmult_assoc, <- pow2_add.
    replace (B64.cexp a + 1074 + -1074)%Z with (B64.cexp a) by lia. reflexivity. }
  destruct (round_cases q) as [[H _]|[[_ [[_ R]|[_ R]]]|[_ [[_ R]|[_ R]]]]];
    try congruence.
  - exists 0%Z. rewrite H. reflexivity.
  - rewrite R in Hq. injection Hq as Hq. destruct (Hgrid q) as [z Hz].
    exists z. rewrite <- Hz, <- Hq at 1. apply Qred_correct.
  - rewrite R in Hq. injection Hq as Hq. destruct (Hgrid (- q)) as [z Hz].
    exists (- z)%Z. rewrite inject_Z_opp.
    assert (E : q == - B64.round_pos (- q)).
    { rewrite <- Hq at 1. apply Qred_correct. }
    rewrite E, Hz. ring.
Qed.

(** Gradual underflow: the difference of two different binary64 numbers
    does not round to zero. *)
Lemma round_sub_pos a b : B64.is_float a -> B64.is_float b -> a < b ->
  B64.round (b - a) = PInf
  \/ exists d, B64.round (b - a) = Fin d /\ B64.pow2 (-1074) <= d.
Proof.
  intros Ha Hb Hab.
  destruct (is_float_grid a Ha) as [za Hza].
  destruct (is_float_grid b Hb) as [zb Hzb].
  pose proof (pow2_pos (-1074)) as P.
  assert (Hz : (za < zb)%Z).
  { apply Z.lt_nge. intros Hc. rewrite Zle_Qle in Hc. nra. }
  assert (Hd : B64.pow2 (-1074) <= b - a).
  { assert (H : inject_Z 1 <= inject_Z (zb - za)) by (rewrite <- Zle_Qle; lia).
    unfold Z.sub in H. rewrite inject_Z_plus, inject_Z_opp in H.
    change (inject_Z 1) with 1 in H.
    rewrite Hza, Hzb. nra. }
  pose proof (round_mono _ _ Hd) as M.
  rewrite (round_exact (B64.pow2 (-1074)) 1 (-1074)) in M;
    [|simpl; lia|lia|change (inject_Z 1) with 1; ring].
  destruct (B64.round (b - a)) as [d| | |]; simpl in M; try contradiction.
  - right. exists d. split; [reflexivity|].
    rewrite Qred_correct in M. exact M.
  - left. reflexivity.
Qed.

(** ** The order of floats *)

Lemma b64_le_not_nan x y : B64.le x y -> x <> NaN /\ y <> NaN.
Proof. destruct x, y; simpl; intros H; try contradiction; split; discriminate. Qed.

Lemma b64_le_refl x : x <> NaN -> B64.le x x.
Proof. destruct x; simpl; intros H; try exact I; [lra|congruence]. Qed.

Lemma b64_le_trans x y z : B64.le x y -> B64.le y z -> B64.le x z.
Proof.
  destruct x, y, z; simpl; intros H1 H2; try contradiction; try exact I. lra.
Qed.

Lemma b64_ltb_true_le x y : B64.ltb x y = true -> B64.le x y.
Proof.
  destruct x as [a| | |], y as [b| | |]; simpl; intros H;
    try discriminate; try exact I.
  apply negb_true_iff in H.
  destruct (Qlt_le_dec a b) as [Hlt|Hle]; [lra|].
  apply Qle_bool_iff in Hle. congruence.
Qed.

Lemma b64_ltb_false_le x y : x <> NaN -> y <> NaN ->
  B64.ltb x y = false -> B64.le y x.
Proof.
  destruct x as [a| | |], y as [b| | |]; simpl; intros Hx Hy H;
    try discriminate; try exact I; try congruence.
  apply negb_false_iff, Qle_bool_iff in H. exact H.
Qed.

Lemma b64_ltb_lt a b : B64.ltb (Fin a) (Fin b) = true <-> a < b.
Proof.
  simpl. rewrite negb_true_iff. split.
  - intros H. apply Qnot_le_lt. intros Hc. apply Qle_bool_iff in Hc. congruence.
  - intros H. destruct (Qle_bool b a) eqn:E; [|reflexivity].
    apply Qle_bool_iff in E. lra.
Qed.

Lemma b64_ltb_ge a b : B64.ltb (Fin a) (Fin b) = false <-> b <= a.
Proof.
  simpl. rewrite negb_false_iff. apply Qle_bool_iff.
Qed.

Lemma min2_spec a b : a <> NaN ->
  (B64.min2 a b = a \/ B64.min2 a b = b)
  /\ B64.le (B64.min2 a b) a
  /\ (b <> NaN -> B64.le (B64.min2 a b) b).
Proof.
  intros Ha. unfold B64.min2. destruct (B64.ltb b a) eqn:E.
  - pose proof (b64_ltb_true_le _ _ E) as H. destruct (b64_le_not_nan _ _ H).
    repeat split; auto. intros _. apply b64_le_refl. assumption.
  - repeat split; auto; [apply b64_le_refl; exact Ha|].
    intros Hb. apply b64_ltb_false_le; assumption.
Qed.

Lemma max2_spec a b : a <> NaN ->
  (B64.max2 a b = a \/ B64.max2 a b = b)
  /\ B64.le a (B64.max2 a b)
  /\ (b <> NaN -> B64.le b (B64.max2 a b)).
Proof.
  intros Ha. unfold B64.max2. destruct (B64.ltb a b) eqn:E.
  - pose proof (b64_ltb_true_le _ _ E) as H. destruct (b64_le_not_nan _ _ H).
    repeat split; auto. intros _. apply b64_le_refl. assumption.
  - repeat split; auto; [apply b64_le_refl; exact Ha|].
    intros Hb. apply b64_ltb_false_le; assumption.
Qed.

Lemma foldl_min2 rest : forall acc,
  acc <> NaN -> Forall (fun v => v <> NaN) rest ->
  foldl B64.min2 acc rest ∈ acc :: rest
  /\ forall v, v ∈ acc :: rest -> B64.le (foldl B64.min2 acc rest) v.
Proof.
  induction rest as [|x rest IH]; intros acc Hacc Hrest; simpl.
  - split; [left|]. intros v Hv. apply list_elem_of_singleton in Hv as ->.
    apply b64_le_refl, Hacc.
  - apply Forall_cons in Hrest as [Hx Hrest].
    destruct (min2_spec acc x Hacc) as (Hsel & Hle1 & Hle2).
    assert (Hm : B64.min2 acc x <> NaN) by (destruct Hsel as [-> | ->]; assumption).
    destruct (IH _ Hm Hrest) as [Hin Hall]. split.
    + apply elem_of_cons in Hin as [->|Hin].
      * destruct Hsel as [-> | ->]; [left|right; left].
      * right. right. exact Hin.
    + intros v Hv.
      assert (Hhead : B64.le (foldl B64.min2 (B64.min2 acc x) rest) (B64.min2 acc x))
        by (apply Hall; left).
      apply elem_of_cons in Hv as [->|Hv].
      * eapply b64_le_trans; eassumption.
      * apply elem_of_cons in Hv as [->|Hv].
        -- eapply b64_le_trans; [exact Hhead|]. apply Hle2, Hx.
        -- apply Hall. right. exact Hv.
Qed.

Lemma foldl_max2 rest : forall acc,
  acc <> NaN -> Forall (fun v => v <> NaN) rest ->
  foldl B64.max2 acc rest ∈ acc :: rest
  /\ forall v, v ∈ acc :: rest -> B64.le v (foldl B64.max2 acc rest).
Proof.
  induction rest as [|x rest IH]; intros acc Hacc Hrest; simpl.
  - split; [left|]. intros v Hv. apply list_elem_of_singleton in Hv as ->.
    apply b64_le_refl, Hacc.
  - apply Forall_cons in Hrest as [Hx Hrest].
    destruct (max2_spec acc x Hacc) as (Hsel & Hle1 & Hle2).
    assert (Hm : B64.max2 acc x <> NaN) by (destruct Hsel as [-> | ->]; assumption).
    destruct (IH _ Hm Hrest) as [Hin Hall]. split.
    + apply elem_of_cons in Hin as [->|Hin].
      * destruct Hsel as [-> | ->]; [left|right; left].
      * right. right. exact Hin.
    + intros v Hv.
      assert (Hhead : B64.le (B64.max2 acc x) (foldl B64.max2 (B64.max2 acc x) rest))
        by (apply Hall; left).
      apply elem_of_cons in Hv as [->|Hv].
      * eapply b64_le_trans; eassumption.
      * apply elem_of_cons in Hv as [->|Hv].
        -- eapply b64_le_trans; [|exact Hhead]. apply Hle2, Hx.
        -- apply Hall. right. exact Hv.
Qed.

(** ** The scale range in binary64 *)

Lemma finite_not_nan x : B64.finite x -> x <> NaN.
Proof. intros (q & -> & _). discriminate. Qed.

Lemma of_Z_not_zero n : (1 <= n)%Z -> B64.is_zero (B64.of_Z n) = false.
Proof.
  intros Hn. unfold B64.of_Z.
  assert (H : 1 <= inject_Z n).
  { change 1 with (inject_Z 1). rewrite <- Zle_Qle. exact Hn. }
  pose proof (round_mono _ _ H) as M.
  change (B64.round 1) with (B64.round (inject_Z 1)) in M.
  rewrite round_Z in M by (simpl; lia).
  destruct (B64.round (inject_Z n)) as [r| | |]; simpl in *;
    try contradiction; try reflexivity.
  destruct (Qeq_bool r 0) eqn:E; [|reflexivity].
  apply Qeq_bool_iff in E. change (inject_Z 1) with 1 in M. lra.
Qed.

Lemma pow2_small k : (54 <= k)%Z -> B64.pow2 (53 - k) < 1.
Proof.
  intros Hk. assert (H : B64.pow2 (53 - k) <= B64.pow2 (-1)) by (apply pow2_le; lia).
  assert (H0 : B64.pow2 (-1) == 1 # 2) by reflexivity.
  revert H H0. generalize (B64.pow2 (-1)) (B64.pow2 (53 - k)). intros c d H H0. lra.
Qed.

(** C9 (amended).  For every non-empty list of finite floats, and whatever
    the summation behind the mean, the scale range is computed and
    [min <= v <= max] holds for every value [v] of the list.  The width is
    not always 2.0 or more, because [mean - 1.0] and [mean + 1.0] are
    rounded: when the computed mean [m] is finite and [|m| + 1 < 2^(53-k)],
    the two ends are finite and [max - min >= 2 - 2^(1-k)] (for a mean below
    127 in magnitude, [2 - 2^-45]). *)
Theorem scale_range_window sum percentage_values :
  percentage_values <> [] ->
  Forall B64.finite percentage_values ->
  exists min_percentage max_percentage,
    B64.scale_range_with sum percentage_values
    = Ok (min_percentage, max_percentage)
    /\ (forall v, v ∈ percentage_values ->
          B64.le min_percentage v /\ B64.le v max_percentage)
    /\ (forall mean k,
          B64.div (sum percentage_values) (B64.of_Z (len percentage_values))
          = Ok (Fin mean) ->
          (0 <= k)%Z -> Qabs mean + 1 < B64.pow2 (53 - k) ->
          exists lo hi,
            min_percentage = Fin lo /\ max_percentage = Fin hi
            /\ 2 - B64.pow2 (1 - k) <= hi - lo).
Proof.
  intros Hne Hfin.
  destruct percentage_values as [|x rest]; [congruence|].
  assert (Hnan : Forall (fun v => v <> NaN) (x :: rest)).
  { eapply Forall_impl; [exact Hfin|]. apply finite_not_nan. }
  apply Forall_cons in Hnan as [Hx Hrest].
  destruct (foldl_min2 rest x Hx Hrest) as [Hmin_in Hmin].
  destruct (foldl_max2 rest x Hx Hrest) as [Hmax_in Hmax].
  set (data_min := foldl B64.min2 x rest) in *.
  set (data_max := foldl B64.max2 x rest) in *.
  assert (Hlen : (1 <= len (x :: rest))%Z) by (unfold len; simpl length; lia).
  unfold B64.scale_range_with, B64.div.
  rewrite (of_Z_not_zero _ Hlen). simpl.
  fold data_min data_max.
  set (avg := B64.quotient (sum (x :: rest)) (B64.of_Z (len (x :: rest)))).
  assert (Hdmin : data_min <> NaN).
  { rewrite Forall_forall in Hfin. apply finite_not_nan, Hfin, Hmin_in. }
  assert (Hdmax : data_max <> NaN).
  { rewrite Forall_forall in Hfin. apply finite_not_nan, Hfin, Hmax_in. }
  destruct (min2_spec data_min (B64.sub avg (Fin 1)) Hdmin) as (Smin & Lmin & Lmin').
  destruct (max2_spec data_max (B64.add avg (Fin 1)) Hdmax) as (Smax & Lmax & Lmax').
  eexists _, _. split; [reflexivity|]. split.
  - intros v Hv. split.
    + eapply b64_le_trans; [exact Lmin|]. apply Hmin, Hv.
    + eapply b64_le_trans; [|exact Lmax]. apply Hmax, Hv.
  - intros mean k [= Hmean] Hk Hbound. fold avg in Hmean.
    assert (Hk' : (0 <= k <= 1074)%Z).
    { split; [exact Hk|]. destruct (Z_lt_le_dec k 54) as [?|Hbig]; [lia|].
      pose proof (pow2_small k Hbig). pose proof (Qabs_nonneg mean). lra. }
    assert (Habs1 : Qabs (mean - 1) < B64.pow2 (53 - k)).
    { apply Qabs_Qlt_condition. pose proof (Qle_Qabs mean).
      pose proof (Qle_Qabs (- mean)). rewrite Qabs_opp in H0. split; lra. }
    assert (Habs2 : Qabs (mean + 1) < B64.pow2 (53 - k)).
    { apply Qabs_Qlt_condition. pose proof (Qle_Qabs mean).
      pose proof (Qle_Qabs (- mean)). rewrite Qabs_opp in H0. split; lra. }
    destruct (round_near _ k Hk' Habs1) as (l & Hl & Hl1 & Hl2).
    destruct (round_near _ k Hk' Habs2) as (h & Hh & Hh1 & Hh2).
    rewrite Hmean in *. simpl B64.sub in *. simpl B64.add in *.
    rewrite Hl in *. rewrite Hh in *.
    rewrite Forall_forall in Hfin.
    destruct (Hfin _ Hmin_in) as (dmin & Edmin & _).
    destruct (Hfin _ Hmax_in) as (dmax & Edmax & _).
    rewrite Edmin in *. rewrite Edmax in *.
    assert (Hw : B64.pow2 (1 - k) == 2 * B64.pow2 (- k)).
    { replace (1 - k)%Z with (1 + - k)%Z by lia. rewrite pow2_add. reflexivity. }
    specialize (Lmin' ltac:(discriminate)). specialize (Lmax' ltac:(discriminate)).
    destruct Smin as [Smin|Smin]; destruct Smax as [Smax|Smax];
      rewrite Smin in *; rewrite Smax in *;
      simpl in Lmin', Lmax'; eexists _, _;
      (split; [reflexivity|split; [reflexivity|lra]]).
Qed.

Lemma scale_range_window_witness :
  let percentage_values := [Fin 10; Fin 12; Fin 50] in
  exists min_percentage max_percentage,
    B64.scale_range_with B64.py_sum percentage_values
    = Ok (min_percentage, max_percentage)
    /\ (forall v, v ∈ percentage_values ->
          B64.le min_percentage v /\ B64.le v max_percentage)
    /\ (forall mean k,
          B64.div (B64.py_sum percentage_values)
                  (B64.of_Z (len percentage_values))
          = Ok (Fin mean) ->
          (0 <= k)%Z -> Qabs mean + 1 < B64.pow2 (53 - k) ->
          exists lo hi,
            min_percentage = Fin lo /\ max_percentage = Fin hi
            /\ 2 - B64.pow2 (1 - k) <= hi - lo).
Proof.
  intros percentage_values.
  apply (scale_range_window B64.py_sum percentage_values).
  - discriminate.
  - repeat constructor; eexists; (split; [reflexivity|vm_compute; reflexivity]).
Defined.

(** C9, the original bound: for the single percentage [7 / 11 * 100] the
    stored range is [mean - 1.0, mean + 1.0] after rounding, and it is less
    than 2.0 wide. *)
Lemma scale_range_narrow :
  let p := 8956021986248145 # 140737488355328 in
  let lo := 8815284497892817 # 140737488355328 in
  let hi := 568547467162717 # 8796093022208 in
  B64.mul (B64.quotient (Fin 7) (Fin 11)) (Fin 100) = Fin p
  /\ B64.is_float p
  /\ B64.scale_range [Fin p] = Ok (Fin lo, Fin hi)
  /\ hi - lo < 2.
Proof.
  vm_compute. repeat split; reflexivity.
Qed.

(** ** Floats produced by rounding *)

Lemma rne_scaled_bound a : 0 < a ->
  (0 <= B64.rne (a * B64.pow2 (- B64.cexp a)) <= 2 ^ 53)%Z.
Proof.
  intros Ha. destruct (mag_spec a Ha) as [_ H2].
  set (c := B64.cexp a). pose proof (pow2_pos (- c)) as Pc.
  assert (Hc : (B64.mag a - 53 <= c)%Z) by (unfold c, B64.cexp; lia).
  split.
  - apply rne_ge_Z. change (inject_Z 0) with 0. nra.
  - apply rne_le_Z. rewrite <- pow2_Z by lia.
    assert (E : B64.pow2 (B64.mag a) * B64.pow2 (- c) <= B64.pow2 53).
    { rewrite <- pow2_add. apply pow2_le. lia. }
    nra.
Qed.

Lemma round_pos_is_float a : 0 < a -> B64.round_pos a < B64.pow2 1024 ->
  B64.is_float (Qred (B64.round_pos a))
  /\ B64.is_float (Qred (- B64.round_pos a)).
Proof.
  intros Ha Hlt. pose proof (rne_scaled_bound a Ha) as Hm.
  pose proof (cexp_ge a) as Hc.
  pose proof (round_pos_nonneg a (Qlt_le_weak _ _ Ha)) as H0.
  unfold B64.is_float. split.
  - rewrite (round_exact_below _ (B64.rne (a * B64.pow2 (- B64.cexp a)))
               (B64.cexp a)); [|lia|exact Hc| |].
    + f_equal. apply Qred_complete, Qred_correct.
    + rewrite Qred_correct. reflexivity.
    + rewrite Qred_correct. apply Qabs_Qlt_condition. split; lra.
  - rewrite (round_exact_below _ (- B64.rne (a * B64.pow2 (- B64.cexp a)))
               (B64.cexp a)); [|lia|exact Hc| |].
    + f_equal. apply Qred_complete, Qred_correct.
    + rewrite Qred_correct, inject_Z_opp. unfold B64.round_pos. ring.
    + rewrite Qred_correct. apply Qabs_Qlt_condition. split; lra.
Qed.

(** Every finite result of a rounding is a binary64 number. *)
Lemma round_is_float q r : B64.round q = Fin r -> B64.is_float r.
Proof.
  intros Hr.
  destruct (round_cases q) as [[_ R]|[[Hq [[_ R]|[Hlt R]]]|[Hq [[_ R]|[Hlt R]]]]];
    rewrite R in Hr; try discriminate; injection Hr as <-.
  - reflexivity.
  - apply round_pos_is_float; assumption.
  - apply round_pos_is_float; [lra|assumption].
Qed.

Lemma round_0 : B64.round 0 = Fin 0.
Proof. reflexivity. Qed.

Lemma round_1 : B64.round 1 = Fin 1.
Proof. vm_compute. reflexivity. Qed.

Lemma round_quarter : B64.round (1 # 4) = Fin (1 # 4).
Proof. vm_compute. reflexivity. Qed.

Lemma round_255 : B64.round 255 = Fin 255.
Proof. vm_compute. reflexivity. Qed.

Lemma round_zero q : q == 0 -> B64.round q = Fin 0.
Proof. intros H. rewrite (round_comp q 0 H). reflexivity. Qed.

(** ** The colour mapper in binary64 *)

Lemma channel_window t : 0 <= t -> t <= 1 # 4 ->
  exists c, B64.channel (Fin t) = Ok c
            /\ (0 <= c <= 255)%Z
            /\ B64.floorChannel (Fin t) = Fin (inject_Z c).
Proof.
  intros H0 H1. unfold B64.channel, B64.floorChannel. simpl B64.mul.
  destruct (round_between 0 1 (t * 4) 0 1 ltac:(lra) ltac:(lra) round_0 round_1)
    as (q1 & -> & A1 & A2).
  simpl B64.mul.
  destruct (round_between 0 255 (q1 * 255) 0 255 ltac:(lra) ltac:(lra)
              round_0 round_255) as (q2 & -> & B1 & B2).
  simpl. exists (Float.to_int q2). split; [reflexivity|]. split.
  - apply to_int_bounds; [exact B1|exact B2].
  - rewrite to_int_floor by exact B1. reflexivity.
Qed.

Lemma channel_zero t : t == 0 -> B64.channel (Fin t) = Ok 0%Z.
Proof.
  intros H. unfold B64.channel. simpl B64.mul.
  rewrite (round_zero (t * 4)) by (rewrite H; reflexivity).
  simpl B64.mul. rewrite (round_zero (0 * 255)) by reflexivity. reflexivity.
Qed.

Lemma add_200 c : (0 <= c <= 255)%Z ->
  B64.add (Fin (inject_Z c)) (Fin 200) = Fin (inject_Z (c + 200)).
Proof.
  intros Hc. simpl.
  rewrite (round_comp _ (inject_Z (c + 200)))
    by (rewrite inject_Z_plus; reflexivity).
  apply round_Z. lia.
Qed.

(** The normalised position of a value inside the window. *)
Lemma normalized_window percentage min_percentage max_percentage :
  B64.in_window percentage min_percentage max_percentage ->
  exists n,
    B64.div (B64.sub (Fin percentage) (Fin min_percentage))
            (B64.sub (Fin max_percentage) (Fin min_percentage)) = Ok (Fin n)
    /\ B64.quotient (B64.sub (Fin percentage) (Fin min_percentage))
                    (B64.sub (Fin max_percentage) (Fin min_percentage)) = Fin n
    /\ 0 <= n /\ n <= 1.
Proof.
  intros (Hp & Hmn & Hmx & Hlt & Hlo & Hhi & Hfin). simpl B64.sub in *.
  destruct (round_sub_pos _ _ Hmn Hmx Hlt) as [Hinf|(d & Hd & Hdpos)];
    [contradiction|].
  pose proof (pow2_pos (-1074)) as P.
  destruct (round_between 0 (max_percentage - min_percentage)
              (percentage - min_percentage) 0 d ltac:(lra) ltac:(lra) round_0 Hd)
    as (x & Hx & X1 & X2).
  rewrite Hd, Hx. unfold B64.div. simpl B64.is_zero.
  assert (Hz : Qeq_bool d 0 = false).
  { destruct (Qeq_bool d 0) eqn:E; [|reflexivity].
    apply Qeq_bool_iff in E. lra. }
  rewrite Hz. simpl B64.quotient. rewrite Hz.
  assert (Q0 : 0 <= x / d) by (apply Qle_shift_div_l; lra).
  assert (Q1 : x / d <= 1) by (apply Qle_shift_div_r; lra).
  destruct (round_between 0 1 (x / d) 0 1 Q0 Q1 round_0 round_1)
    as (n & -> & N0 & N1).
  exists n. auto.
Qed.

Lemma bind_Ok {A B} (x : A) (f : A -> result B) : (Ok x ≫= f) = f x.
Proof. reflexivity. Qed.

Lemma heat_window percentage min_percentage max_percentage :
  B64.in_window percentage min_percentage max_percentage ->
  exists r g b,
    B64.get_heatmap_color (Fin percentage) (Fin min_percentage)
      (Fin max_percentage) = Ok [r; g; b]
    /\ B64.getHeatmapColor (Fin percentage) (Fin min_percentage)
         (Fin max_percentage)
       = [Fin (inject_Z r); Fin (inject_Z g); Fin (inject_Z b)]
    /\ (0 <= r <= 255)%Z /\ (0 <= g <= 455)%Z /\ (0 <= b <= 255)%Z
    /\ ((255 < g)%Z -> r = 0%Z /\ b = 200%Z).
Proof.
  intros Hw. destruct (normalized_window _ _ _ Hw) as (n & Hdiv & Hquo & N0 & N1).
  destruct Hw as (_ & _ & _ & Hlt & _).
  assert (Heq : B64.eqb (Fin max_percentage) (Fin min_percentage) = false).
  { simpl. destruct (Qeq_bool max_percentage min_percentage) eqn:E;
      [|reflexivity].
    apply Qeq_bool_iff in E. lra. }
  unfold B64.get_heatmap_color, B64.getHeatmapColor.
  rewrite Hdiv, Heq, Hquo, bind_Ok. cbv zeta.
  destruct (Qlt_le_dec n (1 # 4)) as [L1|G1].
  { rewrite !(proj2 (b64_ltb_lt n (1 # 4)) L1).
    destruct (channel_window n N0 ltac:(lra)) as (c & -> & Hc & ->).
    rewrite (add_200 c Hc), bind_Ok.
    exists 0%Z, (c + 200)%Z, 200%Z. repeat split; try lia; reflexivity. }
  rewrite !(proj2 (b64_ltb_ge n (1 # 4)) G1).
  destruct (Qlt_le_dec n (1 # 2)) as [L2|G2].
  { rewrite !(proj2 (b64_ltb_lt n (1 # 2)) L2). simpl B64.sub.
    destruct (round_between 0 (1 # 4) ((1 # 2) - n) 0 (1 # 4)
                ltac:(lra) ltac:(lra) round_0 round_quarter)
      as (t & -> & T0 & T1).
    destruct (channel_window t T0 T1) as (c & -> & Hc & ->). rewrite bind_Ok.
    exists 0%Z, 255%Z, c. repeat split; try lia; reflexivity. }
  rewrite !(proj2 (b64_ltb_ge n (1 # 2)) G2).
  destruct (Qlt_le_dec n (3 # 4)) as [L3|G3].
  { rewrite !(proj2 (b64_ltb_lt n (3 # 4)) L3). simpl B64.sub.
    destruct (round_between 0 (1 # 4) (n - (1 # 2)) 0 (1 # 4)
                ltac:(lra) ltac:(lra) round_0 round_quarter)
      as (t & -> & T0 & T1).
    destruct (channel_window t T0 T1) as (c & -> & Hc & ->). rewrite bind_Ok.
    exists c, 255%Z, 0%Z. repeat split; try lia; reflexivity. }
  rewrite !(proj2 (b64_ltb_ge n (3 # 4)) G3). simpl B64.sub.
  destruct (round_between 0 (1 # 4) (1 - n) 0 (1 # 4)
              ltac:(lra) ltac:(lra) round_0 round_quarter)
    as (t & -> & T0 & T1).
  destruct (channel_window t T0 T1) as (c & -> & Hc & ->). rewrite bind_Ok.
  exists 255%Z, c, 0%Z. repeat split; try lia; reflexivity.
Qed.

(** The two ends of the colour scale, for a window of two binary64
    numbers with [min < max]: the lower end is always coloured
    [[0, 200, 200]]; the upper end is coloured [[255, 0, 0]] when the width
    [max - min] does not overflow, and when it overflows the mapper raises
    [ValueError] (the normalised position is a NaN). *)
Theorem get_heatmap_color_stops min_percentage max_percentage :
  B64.is_float min_percentage -> B64.is_float max_percentage ->
  min_percentage < max_percentage ->
  B64.get_heatmap_color (Fin min_percentage) (Fin min_percentage)
    (Fin max_percentage) = Ok [0; 200; 200]%Z
  /\ (B64.sub (Fin max_percentage) (Fin min_percentage) <> PInf ->
      B64.get_heatmap_color (Fin max_percentage) (Fin min_percentage)
        (Fin max_percentage) = Ok [255; 0; 0]%Z)
  /\ (B64.sub (Fin max_percentage) (Fin min_percentage) = PInf ->
      B64.get_heatmap_color (Fin max_percentage) (Fin min_percentage)
        (Fin max_percentage) = Raise ValueError).
Proof.
  intros Hmn Hmx Hlt. pose proof (pow2_pos (-1074)) as P.
  unfold B64.get_heatmap_color. simpl B64.sub.
  rewrite (round_zero (min_percentage - min_percentage)) by ring.
  destruct (round_sub_pos _ _ Hmn Hmx Hlt) as [Hinf|(d & Hd & Hdpos)].
  - rewrite Hinf. split; [reflexivity|]. split; [congruence|]. reflexivity.
  - rewrite Hd.
    assert (Hz : Qeq_bool d 0 = false).
    { destruct (Qeq_bool d 0) eqn:E; [|reflexivity].
      apply Qeq_bool_iff in E. lra. }
    unfold B64.div. simpl B64.is_zero. rewrite Hz. simpl B64.quotient.
    rewrite Hz, !bind_Ok.
    rewrite (round_zero (0 / d)) by (unfold Qdiv; ring).
    rewrite (round_comp (d / d) 1) by (field; lra).
    rewrite round_1.
    split; [|split; [|discriminate]].
    + rewrite (proj2 (b64_ltb_lt 0 (1 # 4))) by reflexivity.
      rewrite channel_zero by reflexivity. reflexivity.
    + intros _.
      rewrite (proj2 (b64_ltb_ge 1 (1 # 4))) by discriminate.
      rewrite (proj2 (b64_ltb_ge 1 (1 # 2))) by discriminate.
      rewrite (proj2 (b64_ltb_ge 1 (3 # 4))) by discriminate.
      simpl B64.sub. rewrite (round_zero (1 - 1)) by reflexivity.
      rewrite channel_zero by reflexivity. reflexivity.
Qed.

Lemma get_heatmap_color_stops_witness :
  B64.get_heatmap_color (Fin 0) (Fin 0) (Fin 8) = Ok [0; 200; 200]%Z
  /\ (B64.sub (Fin 8) (Fin 0) <> PInf ->
      B64.get_heatmap_color (Fin 8) (Fin 0) (Fin 8) = Ok [255; 0; 0]%Z)
  /\ (B64.sub (Fin 8) (Fin 0) = PInf ->
      B64.get_heatmap_color (Fin 8) (Fin 0) (Fin 8) = Raise ValueError).
Proof.
  apply (get_heatmap_color_stops 0 8); [reflexivity| |reflexivity].
  vm_compute. reflexivity.
Defined.

(** Inside the window the colour mapper does not raise and returns
    three integers: red and blue in [0, 255], green in [0, 455], and green
    above 255 only in the first segment, where red is 0 and blue is 200. *)
Theorem get_heatmap_color_channels percentage min_percentage max_percentage :
  B64.in_window percentage min_percentage max_percentage ->
  exists r g b,
    B64.get_heatmap_color (Fin percentage) (Fin min_percentage)
      (Fin max_percentage) = Ok [r; g; b]
    /\ (0 <= r <= 255)%Z /\ (0 <= g <= 455)%Z /\ (0 <= b <= 255)%Z
    /\ ((255 < g)%Z -> r = 0%Z /\ b = 200%Z).
Proof.
  intros Hw. destruct (heat_window _ _ _ Hw) as (r & g & b & H & _ & Hb).
  exists r, g, b. split; [exact H|exact Hb].
Qed.

Ltac window_by_computation :=
  unfold B64.in_window;
  split; [vm_compute; reflexivity|]; split; [vm_compute; reflexivity|];
  split; [vm_compute; reflexivity|]; split; [reflexivity|];
  split; [discriminate|]; split; [discriminate|];
  vm_compute; discriminate.

Lemma get_heatmap_color_channels_witness :
  exists r g b,
    B64.get_heatmap_color (Fin 30) (Fin (59 # 2)) (Fin (63 # 2)) = Ok [r; g; b]
    /\ (0 <= r <= 255)%Z /\ (0 <= g <= 455)%Z /\ (0 <= b <= 255)%Z
    /\ ((255 < g)%Z -> r = 0%Z /\ b = 200%Z).
Proof.
  apply (get_heatmap_color_channels 30 (59 # 2) (63 # 2)).
  window_by_computation.
Defined.

(** Inside the window the Python mapper and the page's
    [getHeatmapColor] compute the same three channels. *)
Theorem get_heatmap_color_matches_page percentage min_percentage max_percentage :
  B64.in_window percentage min_percentage max_percentage ->
  exists channels,
    B64.get_heatmap_color (Fin percentage) (Fin min_percentage)
      (Fin max_percentage) = Ok channels
    /\ B64.getHeatmapColor (Fin percentage) (Fin min_percentage)
         (Fin max_percentage)
       = (fun c => Fin (inject_Z c)) <$> channels.
Proof.
  intros Hw. destruct (heat_window _ _ _ Hw) as (r & g & b & H & Hjs & _).
  exists [r; g; b]. split; [exact H|exact Hjs].
Qed.

Lemma get_heatmap_color_matches_page_witness :
  exists channels,
    B64.get_heatmap_color (Fin 30) (Fin (59 # 2)) (Fin (63 # 2)) = Ok channels
    /\ B64.getHeatmapColor (Fin 30) (Fin (59 # 2)) (Fin (63 # 2))
       = (fun c => Fin (inject_Z c)) <$> channels.
Proof.
  apply (get_heatmap_color_matches_page 30 (59 # 2) (63 # 2)).
  window_by_computation.
Defined.

(** ** From the scale range to the colours *)

Lemma moderate_finite x : B64.moderate x -> B64.finite x.
Proof. intros (q & -> & Hq & _). exists q. auto. Qed.

Lemma scale_range_ends sum percentage_values mean :
  percentage_values <> [] ->
  Forall B64.moderate percentage_values ->
  B64.div (sum percentage_values) (B64.of_Z (len percentage_values))
  = Ok (Fin mean) ->
  Qabs mean + 1 < B64.pow2 52 ->
  exists lo hi,
    B64.scale_range_with sum percentage_values = Ok (Fin lo, Fin hi)
    /\ B64.is_float lo /\ B64.is_float hi
    /\ Qabs lo <= B64.pow2 1022 /\ Qabs hi <= B64.pow2 1022
    /\ 1 <= hi - lo
    /\ forall v, Fin v ∈ percentage_values -> lo <= v /\ v <= hi.
Proof.
  intros Hne Hmod Hmean Hbound.
  destruct percentage_values as [|x rest]; [congruence|].
  assert (Hnan : Forall (fun v => v <> NaN) (x :: rest)).
  { eapply Forall_impl; [exact Hmod|].
    intros v Hv. apply finite_not_nan, moderate_finite, Hv. }
  apply Forall_cons in Hnan as [Hx Hrest].
  destruct (foldl_min2 rest x Hx Hrest) as [Hmin_in Hmin].
  destruct (foldl_max2 rest x Hx Hrest) as [Hmax_in Hmax].
  rewrite Forall_forall in Hmod.
  destruct (Hmod _ Hmin_in) as (dmin & Edmin & Fdmin & Bdmin).
  destruct (Hmod _ Hmax_in) as (dmax & Edmax & Fdmax & Bdmax).
  unfold B64.scale_range_with. rewrite Hmean, bind_Ok. cbv zeta.
  unfold B64.py_min, B64.py_max. rewrite !bind_Ok, Edmin, Edmax.
  rewrite Edmin in Hmin. rewrite Edmax in Hmax.
  assert (Habs1 : Qabs (mean - 1) < B64.pow2 (53 - 1)).
  { apply Qabs_Qlt_condition. pose proof (Qle_Qabs mean).
    pose proof (Qle_Qabs (- mean)). rewrite Qabs_opp in H0.
    change (B64.pow2 (53 - 1)) with (B64.pow2 52). split; lra. }
  assert (Habs2 : Qabs (mean + 1) < B64.pow2 (53 - 1)).
  { apply Qabs_Qlt_condition. pose proof (Qle_Qabs mean).
    pose proof (Qle_Qabs (- mean)). rewrite Qabs_opp in H0.
    change (B64.pow2 (53 - 1)) with (B64.pow2 52). split; lra. }
  destruct (round_near _ 1 ltac:(lia) Habs1) as (l & Hl & Hl1 & Hl2).
  destruct (round_near _ 1 ltac:(lia) Habs2) as (h & Hh & Hh1 & Hh2).
  change (B64.pow2 (- (1))) with (1 # 2) in Hl1, Hl2, Hh1, Hh2.
  simpl B64.sub. simpl B64.add. rewrite Hl, Hh.
  pose proof (round_is_float _ _ Hl) as Fl.
  pose proof (round_is_float _ _ Hh) as Fh.
  assert (Hbig : B64.pow2 52 + 2 <= B64.pow2 1022).
  { unfold Qle. vm_compute. discriminate. }
  pose proof (Qle_Qabs mean) as M1. pose proof (Qle_Qabs (- mean)) as M2.
  rewrite Qabs_opp in M2.
  assert (Bl : Qabs l <= B64.pow2 1022) by (apply Qabs_Qle_condition; split; lra).
  assert (Bh : Qabs h <= B64.pow2 1022) by (apply Qabs_Qle_condition; split; lra).
  destruct (min2_spec (Fin dmin) (Fin l) ltac:(discriminate)) as (Smin & Lmin & Lmin').
  destruct (max2_spec (Fin dmax) (Fin h) ltac:(discriminate)) as (Smax & Lmax & Lmax').
  specialize (Lmin' ltac:(discriminate)). specialize (Lmax' ltac:(discriminate)).
  assert (Hencl : forall lo hi,
            B64.le (Fin lo) (Fin dmin) -> B64.le (Fin dmax) (Fin hi) ->
            forall v, Fin v ∈ x :: rest -> lo <= v /\ v <= hi).
  { intros lo hi H1 H2 v Hv. split.
    - exact (b64_le_trans _ _ _ H1 (Hmin _ Hv)).
    - exact (b64_le_trans _ _ _ (Hmax _ Hv) H2). }
  destruct Smin as [Smin|Smin]; destruct Smax as [Smax|Smax];
    rewrite Smin in *; rewrite Smax in *; simpl in Lmin', Lmax';
    eexists _, _; (split; [reflexivity|]);
    (split; [assumption|]); (split; [assumption|]);
    (split; [assumption|]); (split; [assumption|]);
    (split; [lra|]); apply Hencl; assumption.
Qed.

(** Lines 267-289 in binary64, for any summation behind the mean: for a
    non-empty list of percentages that are binary64 numbers of magnitude at
    most [2^1022] and whose computed mean [m] is finite with
    [|m| + 1 < 2^52], the scale range has two finite ends at least 1 apart,
    and the colour mapper returns a colour for every listed percentage on
    that range: the window is not empty, nothing overflows, nothing
    raises. *)
Theorem scale_range_colours sum percentage_values mean :
  percentage_values <> [] ->
  Forall B64.moderate percentage_values ->
  B64.div (sum percentage_values) (B64.of_Z (len percentage_values))
  = Ok (Fin mean) ->
  Qabs mean + 1 < B64.pow2 52 ->
  exists min_percentage max_percentage,
    B64.scale_range_with sum percentage_values
    = Ok (Fin min_percentage, Fin max_percentage)
    /\ 1 <= max_percentage - min_percentage
    /\ forall percentage, Fin percentage ∈ percentage_values ->
         exists r g b,
           B64.get_heatmap_color (Fin percentage) (Fin min_percentage)
             (Fin max_percentage) = Ok [r; g; b].
Proof.
  intros Hne Hmod Hmean Hbound.
  destruct (scale_range_ends sum _ mean Hne Hmod Hmean Hbound)
    as (lo & hi & E & Flo & Fhi & Blo & Bhi & Hw & Hencl).
  exists lo, hi. split; [exact E|]. split; [exact Hw|].
  intros v Hv. destruct (Hencl v Hv) as [V1 V2].
  assert (Hwin : B64.in_window v lo hi).
  { rewrite Forall_forall in Hmod.
    destruct (Hmod _ Hv) as (q & [= <-] & Fv & _).
    unfold B64.in_window. repeat (split; [assumption || lra|]).
    simpl B64.sub.
    assert (Htop : exists t, B64.round (B64.pow2 1023) = Fin t)
      by (eexists; vm_compute; reflexivity).
    destruct Htop as [t Ht].
    apply Qabs_Qle_condition in Blo as [Bl1 Bl2].
    apply Qabs_Qle_condition in Bhi as [Bh1 Bh2].
    assert (E2 : B64.pow2 1023 == 2 * B64.pow2 1022).
    { change 1023%Z with (1 + 1022)%Z. rewrite pow2_add. reflexivity. }
    destruct (round_between 0 (B64.pow2 1023) (hi - lo) 0 t
                ltac:(lra) ltac:(lra) round_0 Ht) as (d & -> & _).
    discriminate. }
  destruct (heat_window _ _ _ Hwin) as (r & g & b & H & _).
  exists r, g, b. exact H.
Qed.

Lemma scale_range_colours_witness :
  let percentage_values := [Fin 10; Fin 12; Fin 50] in
  exists min_percentage max_percentage,
    B64.scale_range_with B64.py_sum percentage_values
    = Ok (Fin min_percentage, Fin max_percentage)
    /\ 1 <= max_percentage - min_percentage
    /\ forall percentage, Fin percentage ∈ percentage_values ->
         exists r g b,
           B64.get_heatmap_color (Fin percentage) (Fin min_percentage)
             (Fin max_percentage) = Ok [r; g; b].
Proof.
  intros percentage_values.
  apply (scale_range_colours B64.py_sum percentage_values 24).
  - discriminate.
  - repeat constructor; eexists;
      (split; [reflexivity|split; [vm_compute; reflexivity|]]);
      unfold Qle; vm_compute; discriminate.
  - vm_compute. reflexivity.
  - unfold Qlt. vm_compute. reflexivity.
Defined.

(** ** The height estimator in binary64 *)

Lemma uniform_within_closed u (low high : Z) :
  B64.unit_sample u -> (0 <= low < high)%Z -> (high <= 2 ^ 53)%Z ->
  B64.within (B64.uniform (Fin u) (Fin (inject_Z low)) (Fin (inject_Z high)))
             (inject_Z low) (inject_Z high).
Proof.
  intros (_ & U0 & U1) Hlh Hhigh. unfold B64.uniform. simpl B64.sub.
  rewrite (round_comp _ (inject_Z (high - low)))
    by (unfold Z.sub; rewrite inject_Z_plus, inject_Z_opp; reflexivity).
  rewrite round_Z by lia. simpl B64.mul.
  assert (Hw : 0 < inject_Z (high - low)).
  { change 0 with (inject_Z 0). rewrite <- Zlt_Qlt. lia. }
  assert (E : inject_Z high == inject_Z low + inject_Z (high - low)).
  { unfold Z.sub. rewrite inject_Z_plus, inject_Z_opp. ring. }
  pose proof (round_Z (high - low) ltac:(lia)) as Rw.
  pose proof (round_Z low ltac:(lia)) as Rl.
  pose proof (round_Z high ltac:(lia)) as Rh.
  revert Hw E Rw Rl Rh.
  generalize (inject_Z (high - low)) (inject_Z low) (inject_Z high).
  intros w l h Hw E Rw Rl Rh.
  assert (T0' : 0 <= w * u) by nra.
  assert (T1' : w * u <= w) by nra.
  destruct (round_between 0 w (w * u) 0 w T0' T1' round_0 Rw)
    as (t & -> & T0 & T1).
  simpl B64.add.
  assert (H0' : l <= l + t) by lra.
  assert (H1' : l + t <= h) by lra.
  destruct (round_between l h (l + t) l h H0' H1' Rl Rh) as (x & -> & H0 & H1).
  exists x. auto.
Qed.

Lemma within_closed_weaken x low high low' high' :
  B64.within x low high -> low' <= low -> high <= high' ->
  B64.within x low' high'.
Proof.
  intros (h & -> & Hl & Hh) Hlow Hhigh. exists h.
  split; [reflexivity|]. split; lra.
Qed.

Lemma estimate_type_rule_b64 u building :
  B64.no_tag building "height" -> B64.no_tag building "building:levels" ->
  B64.estimate_building_height u building = B64.estimate_from_type u building.
Proof.
  unfold B64.no_tag, B64.estimate_building_height, B64.estimate_from_levels.
  intros [-> | ->] [-> | ->]; reflexivity.
Qed.

Lemma estimate_from_type_eval_b64 u building (t : string) :
  building_type building = Text t ->
  B64.estimate_from_type u building
  = if cell_in (Text t) high_buildings then B64.uniform u (Fin 20) (Fin 40)
    else if cell_in (Text t) medium_buildings then B64.uniform u (Fin 10) (Fin 20)
    else if cell_in (Text t) low_buildings then B64.uniform u (Fin 5) (Fin 12)
    else if cell_in (Text t) very_low_buildings then B64.uniform u (Fin 3) (Fin 6)
    else if cell_in (Text t) civic_buildings then B64.uniform u (Fin 15) (Fin 30)
    else B64.uniform u (Fin 8) (Fin 18).
Proof.
  unfold building_type, B64.estimate_from_type. intros ->. reflexivity.
Qed.

Lemma estimate_from_type_missing_b64 u building :
  building_type building = NA ->
  B64.estimate_from_type u building = B64.uniform u (Fin 8) (Fin 18).
Proof.
  unfold building_type, B64.estimate_from_type. intros ->. reflexivity.
Qed.

Ltac draw_within Hu low high :=
  exact (uniform_within_closed _ low high Hu ltac:(lia) ltac:(simpl; lia)).

(** Without a height tag and without a levels tag (absent, or present with
    a missing value) the estimate is drawn from the closed range of the
    building type: [20, 40] for the high types, [10, 20] for the medium,
    [5, 12] for the low, [3, 6] for the very low, [15, 30] for the civic
    ones, and [8, 18] for any other or missing type; so always from
    [3, 40].  (In binary64 the upper end can be reached.) *)
Theorem estimate_by_type_ranges u building :
  B64.unit_sample u ->
  B64.no_tag building "height" -> B64.no_tag building "building:levels" ->
  B64.within (B64.estimate_building_height (Fin u) building) 3 40
  /\ (forall t, building_type building = Text t ->
      (t ∈ high_buildings ->
       B64.within (B64.estimate_building_height (Fin u) building) 20 40)
      /\ (t ∈ medium_buildings ->
          B64.within (B64.estimate_building_height (Fin u) building) 10 20)
      /\ (t ∈ low_buildings ->
          B64.within (B64.estimate_building_height (Fin u) building) 5 12)
      /\ (t ∈ very_low_buildings ->
          B64.within (B64.estimate_building_height (Fin u) building) 3 6)
      /\ (t ∈ civic_buildings ->
          B64.within (B64.estimate_building_height (Fin u) building) 15 30))
  /\ (building_type building
        ∉ Text <$> (high_buildings ++ medium_buildings ++ low_buildings
                    ++ very_low_buildings ++ civic_buildings) ->
      B64.within (B64.estimate_building_height (Fin u) building) 8 18).
Proof.
  intros Hu Hh Hl. rewrite (estimate_type_rule_b64 (Fin u) building Hh Hl).
  pose proof (uniform_within_closed u 20 40 Hu ltac:(lia) ltac:(simpl; lia)) as W1.
  pose proof (uniform_within_closed u 10 20 Hu ltac:(lia) ltac:(simpl; lia)) as W2.
  pose proof (uniform_within_closed u 5 12 Hu ltac:(lia) ltac:(simpl; lia)) as W3.
  pose proof (uniform_within_closed u 3 6 Hu ltac:(lia) ltac:(simpl; lia)) as W4.
  pose proof (uniform_within_closed u 15 30 Hu ltac:(lia) ltac:(simpl; lia)) as W5.
  pose proof (uniform_within_closed u 8 18 Hu ltac:(lia) ltac:(simpl; lia)) as W6.
  change (inject_Z 20) with 20 in *. change (inject_Z 40) with 40 in *.
  change (inject_Z 10) with 10 in *. change (inject_Z 5) with 5 in *.
  change (inject_Z 12) with 12 in *. change (inject_Z 3) with 3 in *.
  change (inject_Z 6) with 6 in *. change (inject_Z 15) with 15 in *.
  change (inject_Z 30) with 30 in *. change (inject_Z 8) with 8 in *.
  change (inject_Z 18) with 18 in *.
  split; [|split].
  - destruct (building_type building) as [|t] eqn:Ht.
    + rewrite (estimate_from_type_missing_b64 _ building Ht).
      eapply within_closed_weaken; [exact W6|discriminate|discriminate].
    + rewrite (estimate_from_type_eval_b64 _ building t Ht).
      repeat (destruct (cell_in _ _));
        (eapply within_closed_weaken; [eassumption|discriminate|discriminate]).
  - intros t Ht. rewrite (estimate_from_type_eval_b64 _ building t Ht).
    repeat split; intros Hin.
    + unfold high_buildings in Hin. bucket_cases Hin; exact W1.
    + unfold medium_buildings in Hin. bucket_cases Hin; exact W2.
    + unfold low_buildings in Hin. bucket_cases Hin; exact W3.
    + unfold very_low_buildings in Hin. bucket_cases Hin; exact W4.
    + unfold civic_buildings in Hin. bucket_cases Hin; exact W5.
  - intros Hnot. destruct (building_type building) as [|t] eqn:Ht.
    + rewrite (estimate_from_type_missing_b64 _ building Ht). exact W6.
    + rewrite (estimate_from_type_eval_b64 _ building t Ht).
      rewrite !fmap_app, !elem_of_app in Hnot.
      rewrite !cell_in_false by tauto. exact W6.
Qed.

Lemma estimate_by_type_ranges_witness :
  B64.within (B64.estimate_building_height (Fin (1 # 2))
                {[ "building" := Text "house" ]}) 5 12.
Proof.
  refine (proj1 (proj2 (proj2 (proj1 (proj2
    (estimate_by_type_ranges (1 # 2) {[ "building" := Text "house" ]} _ _ _))
    "house" _))) _).
  - split; [vm_compute; reflexivity|]. split; [discriminate|reflexivity].
  - left. reflexivity.
  - left. reflexivity.
  - reflexivity.
  - unfold low_buildings. apply list_elem_of_In. simpl. auto.
Defined.

(** The upper end is reached: for the largest sample below 1 the draw from
    [20, 40) is exactly 40. *)
Example uniform_reaches_high :
  let u := 9007199254740991 # 9007199254740992 in
  B64.unit_sample u /\ B64.uniform (Fin u) (Fin 20) (Fin 40) = Fin 40.
Proof.
  split; [split; [vm_compute; reflexivity|split; [discriminate|reflexivity]]|].
  vm_compute. reflexivity.
Qed.

(** A height tag that is the decimal numeral of a positive integer
    [n], alone or followed by a unit, yields the binary64 number nearest to
    [n] (the unit is dropped, feet are not converted); this is [n] itself
    for every [n] up to [2^53]. *)
Theorem height_numeral_with_unit u building (n : positive) unit :
  unit ∈ [""; "m"; " m"; "ft"; " ft"]%string ->
  building !! "height" = Some (Text (py_str (Zpos n) +:+ unit)) ->
  B64.estimate_building_height u building = B64.of_Z (Zpos n)
  /\ ((Zpos n <= 2 ^ 53)%Z ->
      B64.estimate_building_height u building = Fin (inject_Z (Zpos n))).
Proof.
  intros Hunit Hh. unfold B64.estimate_building_height.
  rewrite Hh, (parse_height_numeral n unit Hunit). cbv zeta.
  simpl B64.of_exact. fold (B64.of_Z (Zpos n)).
  assert (Hpos : PyFloat.gt0 (B64.of_Z (Zpos n)) = true).
  { unfold B64.of_Z.
    assert (H : 1 <= inject_Z (Zpos n)).
    { change 1 with (inject_Z 1). rewrite <- Zle_Qle. lia. }
    pose proof (round_mono _ _ H) as M. rewrite round_1 in M.
    destruct (B64.round (inject_Z (Zpos n))) as [r| | |]; simpl in M;
      try contradiction; [|reflexivity].
    simpl. apply Float_ltb_lt. lra. }
  rewrite Hpos. split; [reflexivity|].
  intros Hn. unfold B64.of_Z. apply round_Z. lia.
Qed.

Lemma height_numeral_with_unit_witness :
  B64.estimate_building_height (Fin 0) {[ "height" := Text "12 m" ]}
  = B64.of_Z 12
  /\ ((12 <= 2 ^ 53)%Z ->
      B64.estimate_building_height (Fin 0) {[ "height" := Text "12 m" ]}
      = Fin (inject_Z 12)).
Proof.
  apply (height_numeral_with_unit (Fin 0) {[ "height" := Text "12 m" ]} 12 " m").
  - apply list_elem_of_In. simpl. auto.
  - reflexivity.
Defined.

(** Beyond [2^53] the numeral is rounded. *)
Example height_numeral_rounded :
  B64.estimate_building_height (Fin 0)
    {[ "height" := Text "9007199254740993" ]}
  = Fin (inject_Z 9007199254740992).
Proof. vm_compute. reflexivity. Qed.

End Binary64.

(** ** Whole amounts: where the sums are exact *)

Lemma whole_sublist (l1 l2 : list Transaction) :
  l1 `sublist_of` l2 -> whole_amounts l2 -> whole_amounts l1.
Proof.
  unfold whole_amounts. intros Hsub [HF HM].
  assert (H : Forall (fun r => Qden (Amount r) = 1%positive) l1
              /\ foldr (fun r acc => Z.abs (Qnum (Amount r)) + acc) 0 l1
                 <= foldr (fun r acc => Z.abs (Qnum (Amount r)) + acc) 0 l2).
  { clear HM. induction Hsub as [|x l1 l2 Hsub IH|x l1 l2 Hsub IH].
    - split; [constructor|simpl; lia].
    - apply Forall_cons in HF as [Hx HF]. destruct (IH HF) as [IF IM].
      split; [constructor; assumption|simpl; lia].
    - apply Forall_cons in HF as [Hx HF]. destruct (IH HF) as [IF IM].
      split; [assumption|simpl; lia]. }
  destruct H as [H1 H2]. split; [exact H1|lia].
Qed.

Lemma quarter_rows_sublist df quarter : quarter_rows df quarter `sublist_of` df.
Proof.
  unfold quarter_rows. destruct (String.eqb quarter "All Time");
    [reflexivity|apply sublist_filter].
Qed.

Lemma magnitude_nonneg (rows : list Transaction) :
  0 <= foldr (fun r acc => Z.abs (Qnum (Amount r)) + acc) 0 rows.
Proof. induction rows as [|r rows IH]; simpl; lia. Qed.

Lemma whole_fold rows : forall z : Z,
  Forall (fun r => Qden (Amount r) = 1%positive) rows ->
  (Z.abs z + foldr (fun r acc => Z.abs (Qnum (Amount r)) + acc) 0 rows <= 2 ^ 53)%Z ->
  exists z' : Z,
    (Z.abs z' <= 2 ^ 53)%Z
    /\ foldl (fun acc r => Float.add acc (Amount r)) (inject_Z z) rows
       = inject_Z z'
    /\ foldl B64.add (Fin (inject_Z z)) ((fun r => Fin (Amount r)) <$> rows)
       = Fin (inject_Z z').
Proof.
  induction rows as [|r rows IH]; intros z HF HM.
  - exists z. simpl in *. split; [lia|]. split; reflexivity.
  - apply Forall_cons in HF as [Hr HF]. simpl in HM.
    pose proof (magnitude_nonneg rows) as Hnn.
    destruct (Amount r) as [a d] eqn:Ea. simpl in Hr, HM. subst d.
    change (a # 1) with (inject_Z a) in *.
    destruct (IH (z + a)%Z HF ltac:(lia)) as (z' & Hz' & E1 & E2).
    exists z'. split; [exact Hz'|].
    rewrite fmap_cons. cbn [foldl]. rewrite Ea.
    change (a # 1) with (inject_Z a).
    assert (Hadd : Float.add (inject_Z z) (inject_Z a) = inject_Z (z + a)).
    { unfold Float.add. transitivity (Qred (inject_Z (z + a)));
        [|apply Qred_inject_Z].
      apply Qred_complete. rewrite inject_Z_plus. reflexivity. }
    assert (Hadd64 : B64.add (Fin (inject_Z z)) (Fin (inject_Z a))
                     = Fin (inject_Z (z + a))).
    { simpl. rewrite (round_comp _ (inject_Z (z + a)))
        by (rewrite inject_Z_plus; reflexivity).
      apply round_Z. lia. }
    rewrite Hadd, Hadd64. split; assumption.
Qed.

(** With whole amounts the binary64 sum of the rows, added from the left,
    is their exact sum. *)
Lemma float_sum_exact rows :
  whole_amounts rows -> float_sum rows = Fin (amount_sum rows).
Proof.
  intros [HF HM].
  destruct (whole_fold rows 0 HF ltac:(simpl; lia)) as (z' & _ & E1 & E2).
  unfold float_sum, B64.py_sum, amount_sum.
  change (Fin 0) with (Fin (inject_Z 0)). change 0%Q with (inject_Z 0).
  rewrite E1, E2. reflexivity.
Qed.

(** With whole amounts: when the aggregator returns, for every listed
    quarter, every category present in the data and every listed city the
    spending entry is the sum of the amounts of the matching rows, a value
    that the binary64 sum of those rows computes exactly, and the city's
    quarter total is not zero. *)
Theorem category_entries df city_names quarters spending_data percentage_data :
  whole_amounts df ->
  calculate_spending_by_category_and_quarter df city_names quarters
  = Ok (spending_data, percentage_data) ->
  forall quarter category city,
    quarter ∈ quarters -> category ∈ (ExpType <$> df) -> city ∈ city_names ->
    exists spending,
      entry spending_data quarter category city = Some spending
      /\ spending
         = amount_sum (filter (fun r => City r = city /\ ExpType r = category)
                              (quarter_rows df quarter))
      /\ float_sum (filter (fun r => City r = city /\ ExpType r = category)
                           (quarter_rows df quarter)) = Fin spending
      /\ ~ (city_total df quarter city == 0)%Q.
Proof.
  intros Hwhole Hrun quarter category city Hq Hcat Hc.
  destruct (calculate_tables _ _ _ _ _ Hrun quarter) as [Hin _].
  destruct (Hin Hq) as (sp_q & pc_q & Htab & Hsd & Hpd).
  destruct (quarter_tables_lookup _ _ _ _ _ Htab) as (sp_all & pc_all & _ & Hcats).
  destruct (Hcats category) as [Hreal _].
  destruct (Hreal Hcat) as (sp & pc & Hrows & Hsp & Hpc).
  destruct (category_rows_lookup _ _ _ _ _ _ Hrows city) as [Hcity _].
  destruct (Hcity Hc) as (t & share & Ht & Hdiv & Hs & Hp).
  rewrite getitem_total in Ht by exact Hc. injection Ht as <-.
  eexists. unfold entry. rewrite Hsd. simpl. rewrite Hsp. simpl.
  split; [exact Hs|]. split; [reflexivity|]. split.
  - apply float_sum_exact. eapply whole_sublist; [|exact Hwhole].
    etrans; [apply sublist_filter|apply quarter_rows_sublist].
  - unfold Float.div in Hdiv. fold (city_total df quarter city) in Hdiv.
    destruct (Qeq_bool (city_total df quarter city) 0) eqn:E; [discriminate|].
    intros Hz. apply Qeq_bool_iff in Hz. congruence.
Qed.

Ltac whole_by_computation :=
  split; [repeat constructor|vm_compute; discriminate].

Lemma category_entries_witness :
  let df := [ {| City := "Pune"; ExpType := "Food"; YearQuarter := "2014-Q1"; Amount := 10 |};
              {| City := "Pune"; ExpType := "Fuel"; YearQuarter := "2014-Q2"; Amount := 30 |} ] in
  exists spending_data percentage_data,
    calculate_spending_by_category_and_quarter df ["Pune"] ["All Time"; "2014-Q1"]
    = Ok (spending_data, percentage_data)
    /\ exists spending,
         entry spending_data "All Time" "Food" "Pune" = Some spending
         /\ spending
            = amount_sum (filter (fun r => City r = "Pune" /\ ExpType r = "Food")
                                 (quarter_rows df "All Time"))
         /\ float_sum (filter (fun r => City r = "Pune" /\ ExpType r = "Food")
                              (quarter_rows df "All Time")) = Fin spending
         /\ ~ (city_total df "All Time" "Pune" == 0)%Q.
Proof.
  intros df. eexists _, _. split; [reflexivity|].
  apply (category_entries df ["Pune"] ["All Time"; "2014-Q1"] _ _
           ltac:(whole_by_computation) eq_refl).
  - apply list_elem_of_In. simpl. auto.
  - apply list_elem_of_In. simpl. auto.
  - apply list_elem_of_In. simpl. auto.
Defined.


(** With whole amounts: when the aggregator returns and no row has the
    category label ["All Categories"], the entry under that label is, for
    every listed quarter and city, the city's total for the quarter, which
    the binary64 sum of the city's rows computes exactly. *)
Theorem all_categories_spending df city_names quarters spending_data percentage_data :
  whole_amounts df ->
  calculate_spending_by_category_and_quarter df city_names quarters
  = Ok (spending_data, percentage_data) ->
  "All Categories" ∉ (ExpType <$> df) ->
  forall quarter city, quarter ∈ quarters -> city ∈ city_names ->
  entry spending_data quarter "All Categories" city
  = Some (city_total df quarter city)
  /\ float_sum (filter (fun r => City r = city) (quarter_rows df quarter))
     = Fin (city_total df quarter city).
Proof.
  intros Hwhole Hrun Hfresh quarter city Hq Hc.
  destruct (calculate_tables _ _ _ _ _ Hrun quarter) as [Hin _].
  destruct (Hin Hq) as (sp_q & pc_q & Htab & Hsd & Hpd).
  destruct (quarter_tables_lookup _ _ _ _ _ Htab) as (sp_all & pc_all & Hall & Hcats).
  destruct (Hcats "All Categories") as [_ Hsynth].
  destruct (Hsynth Hfresh) as [Hsp _].
  destruct (all_categories_lookup _ _ _ _ Hall city) as [Hcity _].
  destruct (Hcity Hc) as (t & Ht & Hs & _).
  rewrite getitem_total in Ht by exact Hc. injection Ht as <-.
  split.
  - unfold entry. rewrite Hsd. simpl. rewrite Hsp, lookup_singleton_eq. simpl.
    exact Hs.
  - apply float_sum_exact. eapply whole_sublist; [|exact Hwhole].
    etrans; [apply sublist_filter|apply quarter_rows_sublist].
Qed.

Lemma all_categories_spending_witness :
  let df := [ {| City := "Pune"; ExpType := "Food"; YearQuarter := "2014-Q1"; Amount := 10 |};
              {| City := "Pune"; ExpType := "Fuel"; YearQuarter := "2014-Q2"; Amount := 30 |} ] in
  exists spending_data percentage_data,
    calculate_spending_by_category_and_quarter df ["Pune"] ["All Time"; "2014-Q1"]
    = Ok (spending_data, percentage_data)
    /\ entry spending_data "2014-Q1" "All Categories" "Pune"
       = Some (city_total df "2014-Q1" "Pune")
    /\ float_sum (filter (fun r => City r = "Pune") (quarter_rows df "2014-Q1"))
       = Fin (city_total df "2014-Q1" "Pune").
Proof.
  intros df. eexists _, _. split; [reflexivity|].
  apply (all_categories_spending df ["Pune"] ["All Time"; "2014-Q1"] _ _
           ltac:(whole_by_computation) eq_refl).
  - intros H. apply list_elem_of_In in H. simpl in H. intuition discriminate.
  - apply list_elem_of_In. simpl. auto.
  - apply list_elem_of_In. simpl. auto.
Defined.


(** With whole amounts the aggregator returns its two tables if and
    only if the data is empty or no listed city has a zero total in a
    listed quarter. *)
Theorem calculate_returns_iff df city_names quarters :
  whole_amounts df ->
  (exists spending_data percentage_data,
     calculate_spending_by_category_and_quarter df city_names quarters
     = Ok (spending_data, percentage_data))
  <-> (df = []
       \/ forall quarter city, quarter ∈ quarters -> city ∈ city_names ->
          ~ (city_total df quarter city == 0)%Q).
Proof.
  intros _. split.
  - intros (sd & pd & Hrun). destruct df as [|r df']; [left; reflexivity|].
    right. intros quarter city Hq Hc Hzero.
    unfold calculate_spending_by_category_and_quarter in Hrun.
    rewrite (for_each_raises quarters _ quarter) in Hrun; [discriminate|exact Hq| |].
    + intros [sd0 pd0].
      rewrite (quarter_tables_zero_total (r :: df') city_names quarter city);
        [reflexivity|discriminate|exact Hc|exact Hzero].
    + intros [sd0 pd0] q _.
      pose proof (quarter_tables_ok_or_zde (r :: df') city_names q) as H.
      destruct (quarter_tables (r :: df') city_names q) as [[sp pc]|e];
        simpl in *; auto.
  - intros H.
    assert (Hall : exists r,
              calculate_spending_by_category_and_quarter df city_names quarters
              = Ok r).
    { unfold calculate_spending_by_category_and_quarter.
      apply for_each_defined. intros [sd0 pd0] quarter Hq.
      destruct (quarter_tables_defined df city_names quarter) as [[sp pc] ->].
      - destruct H as [->|H]; [left; reflexivity|right; intros c Hc; exact (H quarter c Hq Hc)].
      - simpl. eauto. }
    destruct Hall as [[sd pd] Hrun]. eauto.
Qed.

Lemma calculate_returns_iff_witness :
  let df := [ {| City := "Pune"; ExpType := "Food"; YearQuarter := "2014-Q1"; Amount := 10 |};
              {| City := "Pune"; ExpType := "Fuel"; YearQuarter := "2014-Q2"; Amount := 30 |} ] in
  (exists spending_data percentage_data,
     calculate_spending_by_category_and_quarter df ["Pune"] ["All Time"]
     = Ok (spending_data, percentage_data))
  <-> (df = []
       \/ forall quarter city, quarter ∈ ["All Time"] -> city ∈ ["Pune"] ->
          ~ (city_total df quarter city == 0)%Q).
Proof.
  intros df. apply (calculate_returns_iff df ["Pune"] ["All Time"]).
  whole_by_computation.
Defined.


(** With whole amounts: when the aggregator returns, for every listed
    quarter and city the spending entries over the distinct categories of
    the data add up to the city's total for the quarter. *)
Theorem category_amounts_add_up df city_names quarters spending_data percentage_data :
  whole_amounts df ->
  calculate_spending_by_category_and_quarter df city_names quarters
  = Ok (spending_data, percentage_data) ->
  forall quarter city, quarter ∈ quarters -> city ∈ city_names ->
  (qsum ((fun category => entry_value spending_data quarter category city)
         <$> unique (ExpType <$> df)) == city_total df quarter city)%Q.
Proof.
  intros _ Hrun quarter city Hq Hc.
  pose proof (category_entry_lookup _ _ _ _ _ Hrun) as Hentry.
  assert (Hparts :
    (qsum ((fun category =>
              amount_sum (filter (fun r => City r = city /\ ExpType r = category)
                                 (quarter_rows df quarter)))
           <$> unique (ExpType <$> df)) == city_total df quarter city)%Q).
  { rewrite (qsum_ext _ (fun category =>
       qsum (Amount <$> filter (fun r => City r = city /\ ExpType r = category)
                               (quarter_rows df quarter))))
      by (intros; apply amount_sum_exact).
    rewrite category_partition.
    - unfold city_total. symmetry. apply amount_sum_exact.
    - apply unique_NoDup.
    - intros r Hr. apply unique_elem. apply list_elem_of_fmap.
      exists r. split; [reflexivity|]. eapply quarter_rows_subset, Hr. }
  rewrite <- Hparts. apply qsum_ext. intros category Hcat.
  apply unique_subset in Hcat.
  destruct (Hentry quarter category city Hq Hcat Hc) as (share & _ & Hs & _).
  unfold entry_value. rewrite Hs. reflexivity.
Qed.

Lemma category_amounts_add_up_witness :
  let df := [ {| City := "Pune"; ExpType := "Food"; YearQuarter := "2014-Q1"; Amount := 10 |};
              {| City := "Pune"; ExpType := "Fuel"; YearQuarter := "2014-Q2"; Amount := 30 |} ] in
  exists spending_data percentage_data,
    calculate_spending_by_category_and_quarter df ["Pune"] ["All Time"]
    = Ok (spending_data, percentage_data)
    /\ (qsum ((fun category => entry_value spending_data "All Time" category "Pune")
              <$> unique (ExpType <$> df)) == city_total df "All Time" "Pune")%Q.
Proof.
  intros df. eexists _, _. split; [reflexivity|].
  apply (category_amounts_add_up df ["Pune"] ["All Time"] _ _
           ltac:(whole_by_computation) eq_refl "All Time" "Pune").
  - apply list_elem_of_In. simpl. auto.
  - apply list_elem_of_In. simpl. auto.
Defined.

(** * The rounding against machine floats

    The operations of [B64] agree with the processor's binary64 arithmetic
    on inexact quotients and products, on ties, in the subnormal range and
    at the overflow threshold. *)

Module Hardware.
Import PrimFloat.
Local Open Scope float_scope.

Example percentage_7_of_11 :
  B64.of_prim (7 / 11 * 100)
  = B64.mul (B64.quotient (Fin 7) (Fin 11)) (Fin 100).
Proof. vm_compute. reflexivity. Qed.

Example band_around_7_of_11 :
  (B64.of_prim (7 / 11 * 100 - 1), B64.of_prim (7 / 11 * 100 + 1))
  = (B64.sub (B64.of_prim (7 / 11 * 100)) (Fin 1),
     B64.add (B64.of_prim (7 / 11 * 100)) (Fin 1)).
Proof. vm_compute. reflexivity. Qed.

Example tie_to_even_above_2_53 :
  B64.of_prim (9007199254740992 + 1) = B64.add (Fin 9007199254740992) (Fin 1)
  /\ B64.of_prim (9007199254740992 + 3) = B64.add (Fin 9007199254740992) (Fin 3).
Proof. split; vm_compute; reflexivity. Qed.

Example subnormal_halves :
  B64.of_prim (0x1p-1074 / 2) = B64.quotient (Fin (B64.pow2 (-1074))) (Fin 2)
  /\ B64.of_prim (0x3p-1074 / 2)
     = B64.quotient (Fin (3 * B64.pow2 (-1074))) (Fin 2).
Proof. split; vm_compute; reflexivity. Qed.

Example overflow_threshold :
  B64.of_prim (0x1.fffffffffffffp1023 + 0x1p970)
  = B64.add (B64.of_prim 0x1.fffffffffffffp1023) (Fin (B64.pow2 970))
  /\ B64.of_prim (0x1.fffffffffffffp1023 + 0x1p969)
     = B64.add (B64.of_prim 0x1.fffffffffffffp1023) (Fin (B64.pow2 969)).
Proof. split; vm_compute; reflexivity. Qed.

Example colour_arithmetic :
  B64.of_prim ((2 - 0) / (3 - 0) * 4 * 255)
  = B64.mul (B64.mul (B64.quotient (B64.sub (Fin 2) (Fin 0))
                                   (B64.sub (Fin 3) (Fin 0))) (Fin 4))
            (Fin 255).
Proof. vm_compute. reflexivity. Qed.

(** The rounded product shows in the colour: [int(169.99999999999997)]. *)
Example colour_2_of_3 :
  B64.get_heatmap_color (Fin 2) (Fin 0) (Fin 3) = Ok [169; 255; 0]%Z.
Proof. vm_compute. reflexivity. Qed.

End Hardware.
